(** * turboscribe: the orchestration core of [fast_engine.py]

    A shallow embedding of the pieces of [src/fast_engine.py] that carry the
    engine's logic, and the properties the design document states about
    them:

    - [find_media_files]  (media discovery),
    - [cluster_segments]  (gap-based clustering of speech segments),
    - [run_batch_vad_scan], [run_batch_scanner]  (resumable batch reports),
    - [run_transcriber]   (windowed transcription into a transcript file),
    - [run_server]        (the line-oriented command loop and its model slot).

    Conventions.
    - Python floats and ints are embedded as rationals [Q]: every finite
      double is a rational, and [==] and [>] on doubles agree with [Qeq]
      and [Qlt].  The subtraction [segment.start - last_end] of the
      clustering is the binary64 subtraction, rounded to nearest, ties to
      even, with overflow to an infinity ([PyNum.fsub]).  [round(x, n)]
      is taken on the value of [x]; the sum of span lengths of the voice
      detection is left to the interpreter ([float_sum]).  NaN is outside
      the model.
    - Python [str] is [string], holding the UTF-8 encoding: [len] counts
      characters ([Path.code_points]), and ordering by byte is the
      ordering by character code of Python.  [str.lower] lowers the
      letters [A] to [Z] itself ([Path.lower]) and asks the world about
      strings that have characters outside ASCII.
    - Paths follow the POSIX flavour of [os.path].
    - The inference backends, [os.walk], the clock and [json.loads] are
      collaborators of the engine: they enter the model as parameters
      (oracles) of the functions that call them.
    - [print] is modelled for the response lines, wherever they are
      printed: a line that is a bare JSON document, and a line that begins
      with [[ERROR]].  The other lines (progress, results with a tag in
      front, indented lines) are left out.  Printing succeeds.
    - The debug log of [find_media_files] is written to the disk of the
      model, and opening it or writing to it can fail.  The other writes
      to disk succeed; directories are not tracked.

    The definitions come first: the engine (modules [PyNum] to [Server]), a
    small world to run it in ([Sample]), and the vocabulary of the
    properties.  The theorems follow, one module per piece. *)

From Stdlib Require Import QArith Qround Lqa ZArith Lia Bool.
From Stdlib Require Import Ascii String.
From stdpp Require Import base option list sorting gmap strings.

Set Warnings "-register-all".

Local Open Scope Q_scope.

(* ===================================================================== *)
(** * Numbers *)
(* ===================================================================== *)

Module PyNum.

(** Python [a > b] on numbers. *)
Definition gtb (a b : Q) : bool := negb (Qle_bool a b).

(** Python [a == b] on numbers. *)
Definition eqb (a b : Q) : bool := Qeq_bool a b.

(** Nearest integer, ties to the even neighbour: the rounding rule of
    Python's [round]. *)
Definition round_half_even (x : Q) : Z :=
  let n := Qnum x in
  let d := Zpos (Qden x) in
  let f := (n / d)%Z in
  let r2 := (2 * (n mod d))%Z in
  if (r2 <? d)%Z then f
  else if (d <? r2)%Z then (f + 1)%Z
  else if Z.even f then f else (f + 1)%Z.

Fixpoint pow10 (ndigits : nat) : positive :=
  match ndigits with
  | O => 1
  | S k => 10 * pow10 k
  end.

(** [round(x, ndigits)] for [ndigits >= 0]: the multiple of
    [10 ** -ndigits] nearest to [x], ties to even. *)
Definition round (x : Q) (ndigits : nat) : Q :=
  let p := pow10 ndigits in
  Qred (Qmake (round_half_even (x * (Zpos p # 1))) p).

Definition round1 (x : Q) : Q := round x 1.
Definition round2 (x : Q) : Q := round x 2.

(** ** Double arithmetic

    A float subtraction returns the double nearest to the exact
    difference (ties to the even significand), or an infinity when that
    double would lie beyond the largest one. *)

(** [2 ** e] *)
Definition pow2 (e : Z) : Q :=
  if (0 <=? e)%Z then inject_Z (2 ^ e) else 1 / inject_Z (2 ^ (- e)).

(** [floor(log2(|x|))], for [x] other than [0]. *)
Definition ilog2 (x : Q) : Z :=
  let n := Z.abs (Qnum x) in
  let d := Zpos (Qden x) in
  let e := (Z.log2 n - Z.log2 d)%Z in
  if Qle_bool (pow2 e) (inject_Z n / inject_Z d) then e else (e - 1)%Z.

(** The doubles around [x] are the multiples of [spacing x]: 53 bits of
    significand for a normal number, [2 ** -1074] below [2 ** -1022]. *)
Definition spacing (x : Q) : Q := pow2 (Z.max (ilog2 x) (-1022) - 52).

(** The double nearest to [x], were the exponent unbounded above. *)
Definition nearest_double (x : Q) : Q :=
  if Qeq_bool x 0 then 0
  else Qred (inject_Z (round_half_even (x / spacing x)) * spacing x).

(** The largest double, [(2 - 2 ** -52) * 2 ** 1023]. *)
Definition double_max : Q := inject_Z (2 ^ 1024 - 2 ^ 971).

(** The value of a float operation. *)
Inductive fval : Type :=
| Fin (x : Q)
| PInf
| NInf.

(** [a - b] on floats. *)
Definition fsub (a b : Q) : fval :=
  let d := nearest_double (a - b) in
  if gtb d double_max then PInf
  else if gtb (- double_max) d then NInf
  else Fin d.

(** [v > t] for the value of a float operation and a number. *)
Definition fgtb (v : fval) (t : Q) : bool :=
  match v with
  | Fin x => gtb x t
  | PInf => true
  | NInf => false
  end.

End PyNum.

(* ===================================================================== *)
(** * SegmentClusterer: [cluster_segments] *)
(* ===================================================================== *)

Module Clusterer.

(** A backend segment: the attributes [segment.start] and [segment.end]. *)
Record Segment : Type := mkSegment { seg_start : Q; seg_end : Q }.

(** An output block: the dict [{"start": ..., "end": ...}]. *)
Record Block : Type := mkBlock { blk_start : Q; blk_end : Q }.

(** The local variables of [cluster_segments]. *)
Record LoopState : Type := mkLoop {
  blocks : list Block;
  current_start : Q;
  last_end : Q;
  segment_count : nat
}.

(** [blocks = []; current_start = -1; last_end = -1; segment_count = 0] *)
Definition init : LoopState :=
  {| blocks := []; current_start := -1; last_end := -1; segment_count := 0 |}.

(** The test of the second [if] of the loop body:
    [last_end != -1 and (segment.start - last_end) > gap_threshold]. *)
Definition splits (gap_threshold : Q) (st : LoopState) (segment : Segment) : bool :=
  negb (PyNum.eqb (last_end st) (-1))
  && PyNum.fgtb (PyNum.fsub (seg_start segment) (last_end st)) gap_threshold.

(** One iteration of [for segment in segments]. *)
Definition loop_body (gap_threshold : Q) (st : LoopState) (segment : Segment)
  : LoopState :=
  let segment_count := S (segment_count st) in
  let current_start :=
    if PyNum.eqb (current_start st) (-1) then seg_start segment
    else current_start st in
  if splits gap_threshold st segment then
    {| blocks := blocks st ++
                 [mkBlock (PyNum.round2 current_start) (PyNum.round2 (last_end st))];
       current_start := seg_start segment;
       last_end := seg_end segment;
       segment_count := segment_count |}
  else
    {| blocks := blocks st;
       current_start := current_start;
       last_end := seg_end segment;
       segment_count := segment_count |}.

(** The part after the loop: close the open block, return the pair. *)
Definition finish (st : LoopState) : list Block * nat :=
  if negb (PyNum.eqb (current_start st) (-1)) then
    (blocks st ++
     [mkBlock (PyNum.round2 (current_start st)) (PyNum.round2 (last_end st))],
     segment_count st)
  else (blocks st, segment_count st).

Definition cluster_segments (segments : list Segment) (gap_threshold : Q)
  : list Block * nat :=
  finish (fold_left (loop_body gap_threshold) segments init).

(** The default value of the parameter [gap_threshold]. *)
Definition default_gap_threshold : Q := 180.

(** ** Vocabulary of the properties *)

(** Chronologically sorted: read in order, the times
    [start_1, end_1, start_2, end_2, ...] never decrease. *)
Fixpoint chrono_from (t : Q) (segments : list Segment) : Prop :=
  match segments with
  | [] => True
  | s :: rest =>
      t <= seg_start s /\ seg_start s <= seg_end s /\ chrono_from (seg_end s) rest
  end.

Definition chrono_sorted (segments : list Segment) : Prop :=
  match segments with
  | [] => True
  | s :: rest => seg_start s <= seg_end s /\ chrono_from (seg_end s) rest
  end.

(** The weaker reading: every segment has [start <= end] and the starts
    never decrease (segments may overlap one another). *)
Fixpoint starts_from (t : Q) (segments : list Segment) : Prop :=
  match segments with
  | [] => True
  | s :: rest =>
      t <= seg_start s /\ seg_start s <= seg_end s /\ starts_from (seg_start s) rest
  end.

Definition starts_sorted (segments : list Segment) : Prop :=
  match segments with
  | [] => True
  | s :: rest => seg_start s <= seg_end s /\ starts_from (seg_start s) rest
  end.

(** [b] lies before [b']: it ends no later than [b'] starts, and starts
    no later than [b'] starts. *)
Definition before (b b' : Block) : Prop :=
  blk_end b <= blk_start b' /\ blk_start b <= blk_start b'.

End Clusterer.

(* ===================================================================== *)
(** * JSON values and the Python operations used on them *)
(* ===================================================================== *)

Module Json.

(** What [json.load] returns and [json.dump] accepts: [None], [bool],
    numbers, [str], [list] and [dict].  A dict keeps its members in
    insertion order; its keys are distinct. *)
Inductive json : Type :=
| JNull
| JBool (b : bool)
| JNum (x : Q)
| JStr (s : string)
| JArr (items : list json)
| JObj (members : list (string * json)).

(** A dict with string keys. *)
Definition dict : Type := list (string * json).

(** [d.get(key)]: [None] when the key is absent. *)
Fixpoint get (key : string) (d : dict) : option json :=
  match d with
  | [] => None
  | (k, v) :: rest => if String.eqb k key then Some v else get key rest
  end.

(** [key in d] *)
Definition has_key (key : string) (d : dict) : bool :=
  match get key d with Some _ => true | None => false end.

(** [d.get(key, default)] *)
Definition get_default (key : string) (default : json) (d : dict) : json :=
  match get key d with Some v => v | None => default end.

(** Python truth value of a JSON value. *)
Definition truthy (v : json) : bool :=
  match v with
  | JNull => false
  | JBool b => b
  | JNum x => negb (PyNum.eqb x 0)
  | JStr s => negb (String.eqb s EmptyString)
  | JArr items => match items with [] => false | _ => true end
  | JObj members => match members with [] => false | _ => true end
  end.

(** [v > 0]: defined on numbers and booleans, a [TypeError] ([None] here)
    on every other value. *)
Definition gt_zero (v : json) : option bool :=
  match v with
  | JNum x => Some (PyNum.gtb x 0)
  | JBool b => Some b
  | _ => None
  end.

(** [len(l)] as a JSON number. *)
Definition of_nat (n : nat) : json := JNum (inject_Z (Z.of_nat n)).

(** Is the value the string [s]?  ([s == v] for a [str] [s].) *)
Definition is_str (s : string) (v : json) : bool :=
  match v with JStr s' => String.eqb s s' | _ => false end.

End Json.

(* ===================================================================== *)
(** * Strings and [os.path] (POSIX) *)
(* ===================================================================== *)

Module Path.

Local Open Scope string_scope.

(** [s1 <= s2] on [str]: lexicographic by character code. *)
Definition str_le (s1 s2 : string) : Prop := String.leb s1 s2 = true.

#[global] Instance str_le_dec : RelDecision str_le :=
  fun s1 s2 => decide (String.leb s1 s2 = true).

(** Split at the last occurrence of [c]: [s.rpartition(c)] without the
    separator, [None] when [c] does not occur. *)
Fixpoint rsplit (c : ascii) (s : string) : option (string * string) :=
  match s with
  | EmptyString => None
  | String a rest =>
      match rsplit c rest with
      | Some (before, after) => Some (String a before, after)
      | None => if Ascii.eqb a c then Some (EmptyString, rest) else None
      end
  end.

Fixpoint all_char (c : ascii) (s : string) : bool :=
  match s with
  | EmptyString => true
  | String a rest => Ascii.eqb a c && all_char c rest
  end.

(** [s.endswith(suffix)] *)
Fixpoint endswith (s suffix : string) : bool :=
  String.eqb s suffix
  || match s with
     | EmptyString => false
     | String _ rest => endswith rest suffix
     end.

(** [needle in hay] on [str] *)
Fixpoint contains (needle hay : string) : bool :=
  String.prefix needle hay
  || match hay with
     | EmptyString => false
     | String _ rest => contains needle rest
     end.

(** [s[:-1]] *)
Fixpoint drop_last (s : string) : string :=
  match s with
  | EmptyString => EmptyString
  | String a EmptyString => EmptyString
  | String a rest => String a (drop_last rest)
  end.

(** [s.rstrip(c)] *)
Fixpoint rstrip (c : ascii) (s : string) : string :=
  match s with
  | EmptyString => EmptyString
  | String a rest =>
      match rstrip c rest with
      | EmptyString => if Ascii.eqb a c then EmptyString else String a EmptyString
      | r => String a r
      end
  end.

(** The letters [A] to [Z] lowered, every other byte kept: what
    [str.lower] does to the ASCII characters of a string.  ([str.lower]
    itself is [Discovery.str_lower].) *)
Definition lower_char (c : ascii) : ascii :=
  let n := nat_of_ascii c in
  if (65 <=? n)%nat && (n <=? 90)%nat then ascii_of_nat (n + 32) else c.

Fixpoint lower (s : string) : string :=
  match s with
  | EmptyString => EmptyString
  | String a rest => String (lower_char a) (lower rest)
  end.

(** Is every character of [s] an ASCII character? *)
Fixpoint is_ascii (s : string) : bool :=
  match s with
  | EmptyString => true
  | String a rest => (nat_of_ascii a <? 128)%nat && is_ascii rest
  end.

(** A byte that continues a multi-byte character. *)
Definition continues (a : ascii) : bool :=
  let n := nat_of_ascii a in
  (128 <=? n)%nat && (n <? 192)%nat.

(** [len(s)]: the number of characters, that is of the bytes that do not
    continue a character. *)
Fixpoint code_points (s : string) : nat :=
  match s with
  | EmptyString => O
  | String a rest => ((if continues a then 0 else 1) + code_points rest)%nat
  end.

(** [list(s)]: the characters of [s], each with the bytes that continue
    it. *)
Fixpoint characters (s : string) : list string :=
  match s with
  | EmptyString => []
  | String a rest =>
      match characters rest, rest with
      | c :: cs, String b _ =>
          if continues b then String a c :: cs
          else String a EmptyString :: c :: cs
      | l, _ => String a EmptyString :: l
      end
  end.

(** [s.replace(a, b)] for single characters [a], [b]. *)
Fixpoint replace_char (a b : ascii) (s : string) : string :=
  match s with
  | EmptyString => EmptyString
  | String c rest =>
      String (if Ascii.eqb c a then b else c) (replace_char a b rest)
  end.

(** [os.path.isabs] *)
Definition isabs (p : string) : bool := String.prefix "/" p.

(** [os.path.basename]: what follows the last slash. *)
Definition basename (p : string) : string :=
  match rsplit "/" p with
  | Some (_, name) => name
  | None => p
  end.

(** [os.path.dirname]: what precedes the last slash, without trailing
    slashes unless it consists of slashes only. *)
Definition dirname (p : string) : string :=
  match rsplit "/" p with
  | Some (before, _) =>
      let head := before ++ "/" in
      if all_char "/" head then head else rstrip "/" head
  | None => EmptyString
  end.

(** [os.path.splitext] of a bare file name: the extension starts at the
    last dot, unless only dots precede it. *)
Definition splitext_name (name : string) : string * string :=
  match rsplit "." name with
  | Some (root, ext) =>
      if all_char "." root then (name, EmptyString)
      else (root, String "." ext)
  | None => (name, EmptyString)
  end.

(** [os.path.splitext]: the extension is looked for in the last
    component only. *)
Definition splitext (p : string) : string * string :=
  match rsplit "/" p with
  | Some (before, name) =>
      let (root, ext) := splitext_name name in
      (before ++ "/" ++ root, ext)
  | None => splitext_name p
  end.

(** [os.path.join(a, b)] *)
Definition join (a b : string) : string :=
  if String.prefix "/" b then b
  else if String.eqb a EmptyString || endswith a "/" then a ++ b
  else a ++ "/" ++ b.

End Path.

(* ===================================================================== *)
(** * The engine's surroundings *)
(* ===================================================================== *)

Module Env.
Import Json.

(** A loaded [WhisperModel]: the name it was built from and the rank of
    its construction in the process (so two constructions of the same
    name are two objects). *)
Record Model : Type := mkModel { model_name : string; model_id : nat }.

#[global] Instance Model_eq_dec : EqDecision Model := ltac:(solve_decision).

(** A segment as the speech backend yields it. *)
Record TextSegment : Type := mkText {
  ts_span : Clusterer.Segment;
  ts_text : string
}.

(** Keyword arguments of [model.transcribe]. *)
Record TranscribeOpts : Type := mkOpts {
  opt_beam_size : nat;
  opt_vad_filter : bool;
  opt_min_silence_ms : option nat;          (* [vad_parameters] *)
  opt_clip : option (Q * Q)                 (* [clip_timestamps] *)
}.

(** Content of a file: text lines written with [f.write(line + "\n")] and
    documents written with [json.dump].  A file that holds one JSON
    document and nothing else is [[Doc j]]; every other content fails to
    load as JSON. *)
Inductive Chunk : Type :=
| Line (s : string)
| Doc (j : json).

(** The collaborators.  A backend call yields [inl msg] when it raises
    (with [str(e) = msg]) and [inr result] when it returns. *)
Record World : Type := mkWorld {
  (** [os.path.abspath] *)
  os_path_abspath : string -> string;
  (** [os.walk(directory, followlinks=True)]: for each directory visited,
      its path and the names of its files. *)
  os_walk : string -> list (string * list string);
  (** [str.lower] on a string that has characters outside ASCII, given
      with its ASCII letters lowered already: for such an [s],
      [s.lower()] is [nonascii_lower (lower s)] *)
  nonascii_lower : string -> string;
  (** whether the debug log at a path can be opened for writing
      ([open(debug_log_path, "w")], and [open(debug_log_path, "a")]) *)
  debug_log_opens : string -> bool;
  (** [str(e)] of the exception that [open] raises on a debug log that
      cannot be opened *)
  debug_log_error : string -> string;
  (** a [log.write] to the debug log at a path, after the chunks written
      so far: [Some msg] when it raises, with [str(e) = msg] *)
  log_write_fails : string -> list Chunk -> list Chunk -> option string;
  (** [str(MEDIA_EXTENSIONS)]: the elements of the set in the order of
      the process *)
  extensions_repr : string;
  (** [os.path.dirname(os.path.abspath(__file__))] *)
  script_dir : string;
  (** [datetime.now().isoformat()] at a given reading of the clock *)
  isoformat : nat -> string;
  (** [WhisperModel(name, ...)]: [Some msg] when the construction raises *)
  whisper_init : string -> option string;
  (** [model.transcribe(path, **opts)], consumed to the end: the segments
      and [info.duration] *)
  whisper_transcribe :
    Model -> string -> TranscribeOpts -> string + (list TextSegment * Q);
  (** the Silero model on the decoded audio of a file: the speech spans
      [(start, end)] and the total duration *)
  silero_vad : string -> json -> string + (list (Q * Q) * Q);
  (** [sum(t['end'] - t['start'] for t in speech_timestamps)], a sum of
      doubles whose rounding is that of the interpreter's [sum] *)
  float_sum : list (Q * Q) -> Q;
  (** [format(x, ".nf")] *)
  format_fixed : nat -> Q -> string;
  (** [str(x)] of a number *)
  str_of_num : Q -> string;
  (** [str(v)] of a value that came out of JSON *)
  str_of_json : json -> string;
  (** [s.strip()] *)
  str_strip : string -> string;
  (** [json.loads(line)]: [None] when it raises [JSONDecodeError] *)
  json_loads : string -> option json;
  (** whether [sentence_transformers] can be imported *)
  embedder_installed : bool;
  (** [SentenceTransformer(model_name)]: [Some msg] when it raises *)
  embedder_init : json -> option string;
  (** the transcript files found under a directory argument and a
      transcript directory argument (distinct, in walking order) *)
  find_transcripts : json -> json -> string + list string;
  (** the non-header, non-empty lines of the transcripts, with their file *)
  transcript_chunks : list string -> list (string * string);
  (** encoding and ranking for a query: [Some msg] when it raises *)
  embed_rank : json -> list (string * string) -> option string;
  (** [run_analyze] on the fields of a command: the lines it prints that
      begin with [[ERROR]] (its own and those of the provider it calls),
      without that prefix *)
  analyze_errors : json -> list string;
  (** [run_analyze] on the fields of a command: [Some msg] when it raises *)
  analyze_raises : json -> option string;
  (** [run_detect_meetings] on the fields of a command, once it has found
      transcripts: the lines that begin with [[ERROR]] printed by the
      providers it calls, without that prefix *)
  detect_errors : json -> list string
}.

(** A backend inference call. *)
Inductive Call : Type :=
| VadScan (path : string)
| Transcribe (m : Model) (path : string) (opts : TranscribeOpts).

(** A printed line that a client of the command protocol reads as a
    response: a bare JSON document, or a line that begins with
    [[ERROR]]. *)
Inductive Out : Type :=
| Dump (j : json)        (* [print(json.dumps(j))] *)
| Fail (line : string).  (* [print(line)], where [line] begins with
                            [[ERROR]] *)

(** The mutable surroundings: files (by path; directories are not
    tracked), the [WhisperModel] constructions and the backend calls made
    so far, the response lines printed so far (every [print] of the
    modelled functions whose line is a bare JSON document or begins with
    [[ERROR]]; the other printed lines are progress lines and are left
    out), and the clock. *)
Record Sys : Type := mkSys {
  fs : gmap string (list Chunk);
  constructed : list string;
  calls : list Call;
  stdout : list Out;
  clock : nat
}.

(** Outcome of a computation: a value, or an exception on its way up;
    either way with the surroundings as they are at that point. *)
Inductive Res (A : Type) : Type :=
| Ok (a : A) (s : Sys)
| Raised (msg : string) (s : Sys).
Arguments Ok {A} a s.
Arguments Raised {A} msg s.

Definition M (A : Type) : Type := Sys -> Res A.

Definition ret {A} (a : A) : M A := fun s => Ok a s.
Definition raise {A} (msg : string) : M A := fun s => Raised msg s.
Definition bind {A B} (m : M A) (k : A -> M B) : M B :=
  fun s => match m s with
           | Ok a s' => k a s'
           | Raised msg s' => Raised msg s'
           end.

(** [try: m except Exception as e: h(str(e))] *)
Definition try_except {A} (m : M A) (h : string -> M A) : M A :=
  fun s => match m s with
           | Ok a s' => Ok a s'
           | Raised msg s' => h msg s'
           end.

Definition res_sys {A} (r : Res A) : Sys :=
  match r with Ok _ s => s | Raised _ s => s end.

Definition get_sys : M Sys := fun s => Ok s s.

(** [os.path.exists] *)
Definition path_exists (p : string) : M bool :=
  fun s => Ok (bool_decide (is_Some (fs s !! p))) s.

(** [json.load(open(p))]: [None] when it raises. *)
Definition json_load (p : string) : M (option json) :=
  fun s => Ok (match fs s !! p with
               | Some [Doc j] => Some j
               | _ => None
               end) s.

(** [json.dump(j, open(p, "w"))] *)
Definition json_dump (p : string) (j : json) : M unit :=
  fun s => Ok tt (mkSys (<[p := [Doc j]]> (fs s)) (constructed s) (calls s)
                        (stdout s) (clock s)).

(** [open(p, "w")] followed by the writes of [chunks] *)
Definition write_file (p : string) (chunks : list Chunk) : M unit :=
  fun s => Ok tt (mkSys (<[p := chunks]> (fs s)) (constructed s) (calls s)
                        (stdout s) (clock s)).

(** [open(p, "a")] followed by the writes of [chunks] *)
Definition append_file (p : string) (chunks : list Chunk) : M unit :=
  fun s => Ok tt (mkSys (<[p := default [] (fs s !! p) ++ chunks]> (fs s))
                        (constructed s) (calls s) (stdout s) (clock s)).

(** [datetime.now().isoformat()] *)
Definition now (W : World) : M string :=
  fun s => Ok (isoformat W (clock s))
              (mkSys (fs s) (constructed s) (calls s) (stdout s) (S (clock s))).

(** [print] of a response line *)
Definition emit (o : Out) : M unit :=
  fun s => Ok tt (mkSys (fs s) (constructed s) (calls s) (stdout s ++ [o])
                        (clock s)).

(** [WhisperModel(name, device=DEVICE, compute_type=COMPUTE)] *)
Definition new_model (W : World) (name : string) : M Model :=
  fun s => match whisper_init W name with
           | Some msg => Raised msg s
           | None => Ok (mkModel name (length (constructed s)))
                        (mkSys (fs s) (constructed s ++ [name]) (calls s)
                               (stdout s) (clock s))
           end.

(** [model.transcribe(path, **opts)] and the iteration over its segments *)
Definition transcribe (W : World) (m : Model) (path : string)
    (opts : TranscribeOpts) : M (list TextSegment * Q) :=
  fun s =>
    let s' := mkSys (fs s) (constructed s)
                    (calls s ++ [Transcribe m path opts]) (stdout s) (clock s) in
    match whisper_transcribe W m path opts with
    | inl msg => Raised msg s'
    | inr r => Ok r s'
    end.

(** [run_vad_scan(file_path, threshold)]: the spans, the sum of their
    lengths and the total duration. *)
Definition run_vad_scan (W : World) (file_path : string) (threshold : json)
  : M (list (Q * Q) * Q * Q) :=
  fun s =>
    let s' := mkSys (fs s) (constructed s) (calls s ++ [VadScan file_path])
                    (stdout s) (clock s) in
    match silero_vad W file_path threshold with
    | inl msg => Raised msg s'
    | inr (speech_timestamps, total_duration) =>
        let speech_duration := float_sum W speech_timestamps in
        Ok (speech_timestamps, speech_duration, total_duration) s'
    end.

End Env.

(** [M] with stdpp's monad notation: [x ← m; k] and [m;; k]. *)
#[global] Instance M_ret : MRet Env.M := @Env.ret.
#[global] Instance M_bind : MBind Env.M := fun A B k m => Env.bind m k.

(* ===================================================================== *)
(** * MediaDiscovery: [find_media_files] *)
(* ===================================================================== *)

Module Discovery.
Import Path Env.
Local Open Scope string_scope.

Definition MEDIA_EXTENSIONS : list string :=
  [".mp4"; ".mkv"; ".avi"; ".mov"; ".wav"; ".mp3"; ".flac"; ".m4a"; ".webm";
   ".aac"; ".wma"; ".ogg"; ".m4v"; ".3gp"; ".ts"; ".mpg"; ".mpeg"].

(** The double quote character. *)
Definition dquote : string := String (ascii_of_nat 34) EmptyString.

(** [s.lower()]: the letters [A] to [Z] lowered; what becomes of the
    characters outside ASCII is the world's to tell. *)
Definition str_lower (W : World) (s : string) : string :=
  if is_ascii s then lower s else nonascii_lower W (lower s).

(** The first lines of [find_media_files]: drop a trailing quote, give a
    bare drive letter its separator, make a relative path absolute.
    ([len(directory) == 2 and directory[1] == ':'] is: two characters,
    the last of them a colon.) *)
Definition normalize (W : World) (directory : string) : string :=
  let directory :=
    if endswith directory dquote then drop_last directory else directory in
  if (code_points directory =? 2)%nat && endswith directory ":"
  then directory ++ "/"
  else if negb (isabs directory) then os_path_abspath W directory
  else directory.

Definition debug_log_path (W : World) (directory : string) : string :=
  join (dirname (os_path_abspath W directory)) "scan_debug.log".

(** [os.path.splitext(f)[1].lower() in MEDIA_EXTENSIONS] *)
Definition accepted (W : World) (f : string) : bool :=
  bool_decide (str_lower W (splitext f).2 ∈ MEDIA_EXTENSIONS).

(** The body of [for f in files]: the path appended to [media_files], if
    any, and the [log.write] that follows. *)
Definition scan_file (W : World) (root f : string) : option string * list Chunk :=
  if accepted W f
  then (Some (join root f), [Line ("  [ACCEPT] " ++ f)])
  else (None, [Line ("  [IGNORE] " ++ f ++ " (" ++ str_lower W (splitext f).2 ++ ")")]).

(** The writes of the [with] block in the order the code makes them,
    each with the path appended to [media_files] just before it. *)
Definition log_writes (W : World) (directory : string)
  : list (option string * list Chunk) :=
  (None, [Line ("Scanning directory: " ++ directory)])
  :: (None, [Line ("Extensions: " ++ extensions_repr W)])
  :: flat_map (fun '(root, files) =>
                 (None, [Line EmptyString; Line ("Visiting: " ++ root)])
                 :: map (scan_file W root) files)
              (os_walk W directory).

(** The [with] block, up to the first write that raises: [media_files],
    what the log holds, and [str(e)] when a write raised. *)
Fixpoint run_writes (W : World) (path : string)
    (writes : list (option string * list Chunk))
    (media_files : list string) (written : list Chunk)
  : list string * list Chunk * option string :=
  match writes with
  | [] => (media_files, written, None)
  | (file, chunks) :: rest =>
      let media_files :=
        match file with
        | Some p => (media_files ++ [p])%list
        | None => media_files
        end in
      match log_write_fails W path written chunks with
      | Some msg => (media_files, written, Some msg)
      | None => run_writes W path rest media_files (written ++ chunks)%list
      end
  end.

(** [find_media_files(directory)].  The debug log is created (or
    truncated) beside the directory and written as the walk goes.  When
    it cannot be opened, or a write to it raises, the [except] clause
    prints a line, tries to append the error to the log, and the function
    goes on with the [media_files] collected so far. *)
Definition find_media_files (W : World) (directory : string) : M (list string) :=
  let directory := normalize W directory in
  let debug_log_path := debug_log_path W directory in
  media_files ←
    (if debug_log_opens W debug_log_path then
       let '(media_files, written, failure) :=
         run_writes W debug_log_path (log_writes W directory) [] [] in
       write_file debug_log_path written;;
       match failure with
       | None => mret media_files
       | Some msg =>
           emit (Fail ("[ERROR] Discovery failed: " ++ msg));;
           match log_write_fails W debug_log_path written
                   [Line ("[ERROR] " ++ msg)] with
           | None => append_file debug_log_path [Line ("[ERROR] " ++ msg)]
           | Some _ => mret tt
           end;;
           mret media_files
       end
     else
       emit (Fail ("[ERROR] Discovery failed: "
                   ++ debug_log_error W debug_log_path));;
       mret []);
  mret (merge_sort str_le media_files).

(** ** Vocabulary *)

(** The list [find_media_files] returns; it depends on the world, not on
    the surroundings. *)
Definition discovered (W : World) (directory : string) : list string :=
  match find_media_files W directory (mkSys ∅ [] [] [] O) with
  | Ok media_files _ => media_files
  | Raised _ _ => []
  end.

(** The surroundings after [find_media_files]. *)
Definition after_discovery (W : World) (directory : string) (s : Sys) : Sys :=
  res_sys (find_media_files W directory s).

(** What the debug log holds after [find_media_files]; [None] when it
    cannot be opened. *)
Definition debug_log (W : World) (directory : string) : option (list Chunk) :=
  fs (after_discovery W directory (mkSys ∅ [] [] [] O))
    !! debug_log_path W (normalize W directory).

(** The response lines [find_media_files] prints. *)
Definition discovery_lines (W : World) (directory : string) : list Out :=
  stdout (after_discovery W directory (mkSys ∅ [] [] [] O)).

(** The disk with the debug log of a discovery written over it. *)
Definition with_debug_log (W : World) (directory : string)
    (disk : gmap string (list Chunk)) : gmap string (list Chunk) :=
  match debug_log W directory with
  | Some chunks => <[debug_log_path W (normalize W directory) := chunks]> disk
  | None => disk
  end.

(** The paths appended to [media_files] along a list of writes. *)
Definition appended (writes : list (option string * list Chunk)) : list string :=
  omap fst writes.

(** The discovery does not fail: the debug log opens and every write to
    it succeeds. *)
Definition discovery_ok (W : World) (directory : string) : bool :=
  let directory := normalize W directory in
  debug_log_opens W (debug_log_path W directory)
  && match run_writes W (debug_log_path W directory) (log_writes W directory)
             [] [] with
     | (_, _, None) => true
     | (_, _, Some _) => false
     end.

(** The files of the walk that pass the test on the extension, with
    their directory joined, in walking order. *)
Definition collect (W : World) (walk : list (string * list string)) : list string :=
  flat_map (fun '(root, files) =>
              map (join root) (filter (fun f => accepted W f = true) files))
           walk.

End Discovery.

(* ===================================================================== *)
(** * ScanReport and the batch scans *)
(* ===================================================================== *)

Module Batch.
Import Json Path Env Discovery Clusterer.
Local Open Scope string_scope.

(** [os.path.join(os.path.dirname(os.path.abspath(__file__)),
    "voice_scan_results.json")] *)
Definition default_report_path (W : World) : string :=
  join (script_dir W) "voice_scan_results.json".

(** The loop that fills [existing_results]:
<<
    for r in data["results"]:
        if "file" in r:
            existing_results[r["file"]] = r
>>
    A [TypeError] ends the loading with what has been indexed so far (the
    enclosing [except] only prints).  Keys other than strings are left
    out: a lookup by path never finds them. *)
Fixpoint index_items (items : list json) (existing_results : gmap string dict)
  : gmap string dict :=
  match items with
  | [] => existing_results
  | r :: rest =>
      match r with
      | JObj d =>
          match get "file" d with
          | None => index_items rest existing_results
          | Some (JStr path) => index_items rest (<[path := d]> existing_results)
          | Some (JArr _) | Some (JObj _) => existing_results   (* unhashable *)
          | Some _ => index_items rest existing_results
          end
      | JStr s =>
          if contains "file" s then existing_results   (* [r["file"]] raises *)
          else index_items rest existing_results
      | JArr l =>
          if existsb (is_str "file") l then existing_results
          else index_items rest existing_results
      | _ => existing_results                          (* ["file" in r] raises *)
      end
  end.

(** [if "results" in data: for r in data["results"]: ...].  Only a dict
    whose ["results"] is a list can contribute entries: on every other
    shape the statement raises or finds no entry. *)
Definition index_report (data : json) : gmap string dict :=
  match data with
  | JObj d =>
      match get "results" d with
      | Some (JArr items) => index_items items ∅
      | _ => ∅
      end
  | _ => ∅
  end.

(** "Load existing report if skip_existing". *)
Definition load_existing (skip_existing : bool) (report_path : string)
  : M (gmap string dict) :=
  found ← path_exists report_path;
  if skip_existing && found then
    data ← json_load report_path;
    mret (match data with
          | Some data => index_report data
          | None => ∅
          end)
  else mret ∅.

Definition count_voice (files_with_voice : nat) (voiced : bool) : nat :=
  if voiced then S files_with_voice else files_with_voice.

(** One iteration of [for i, file_path in enumerate(media_files, 1)]; the
    text of the resume test is the same in [run_batch_vad_scan] and in
    [run_batch_scanner], [process] is what follows it in each. *)
Definition visit (skip_existing : bool) (existing_results : gmap string dict)
    (process : string -> M (json * bool))
    (acc : list json * nat) (file_path : string) : M (list json * nat) :=
  let '(results, files_with_voice) := acc in
  let fresh :=
    '(entry, voiced) ← process file_path;
    mret ((results ++ [entry])%list, count_voice files_with_voice voiced) in
  match (if skip_existing then existing_results !! file_path else None) with
  | Some prev =>
      if negb (has_key "error" prev) then
        match gt_zero (get_default "segments_found" (JNum 0) prev) with
        | Some voiced =>
            mret ((results ++ [JObj prev])%list, count_voice files_with_voice voiced)
        | None => raise "TypeError"
        end
      else fresh
  | None => fresh
  end.

Fixpoint scan_loop (skip_existing : bool) (existing_results : gmap string dict)
    (process : string -> M (json * bool))
    (media_files : list string) (acc : list json * nat) : M (list json * nat) :=
  match media_files with
  | [] => mret acc
  | file_path :: rest =>
      acc ← visit skip_existing existing_results process acc file_path;
      scan_loop skip_existing existing_results process rest acc
  end.

Definition block_json (b : Block) : json :=
  JObj [("start", JNum (blk_start b)); ("end", JNum (blk_end b))].

Definition error_entry (file_path msg : string) : json :=
  JObj [("file", JStr file_path); ("error", JStr msg)].

(** The [try] statement of [run_batch_vad_scan]'s loop: the new entry and
    whether [files_with_voice] is incremented. *)
Definition vad_entry (W : World) (threshold : json) (file_path : string)
  : M (json * bool) :=
  try_except
    ('(timestamps, speech_dur, total_dur) ← run_vad_scan W file_path threshold;
     match timestamps with
     | _ :: _ =>
         let blocks :=
           map (fun t => block_json (mkBlock (PyNum.round2 t.1) (PyNum.round2 t.2)))
               timestamps in
         mret (JObj [("file", JStr file_path);
                     ("duration_sec", JNum (PyNum.round1 total_dur));
                     ("segments_found", of_nat (length timestamps));
                     ("speech_duration_sec", JNum (PyNum.round1 speech_dur));
                     ("blocks", JArr blocks);
                     ("transcribe_cmds", JArr [])], true)
     | [] =>
         mret (JObj [("file", JStr file_path);
                     ("duration_sec", JNum (PyNum.round1 total_dur));
                     ("segments_found", JNum 0);
                     ("speech_duration_sec", JNum 0);
                     ("blocks", JArr [])], false)
     end)
    (fun msg => mret (error_entry file_path msg, false)).

(** [run_batch_vad_scan(directory, threshold, report_path, skip_existing)] *)
Definition run_batch_vad_scan (W : World) (directory : string) (threshold : json)
    (report_path : option string) (skip_existing : bool) : M unit :=
  media_files ← find_media_files W directory;
  let total := length media_files in
  let report_path :=
    match report_path with
    | None => default_report_path W
    | Some p => p
    end in
  existing_results ← load_existing skip_existing report_path;
  '(results, files_with_voice) ←
    scan_loop skip_existing existing_results (vad_entry W threshold)
              media_files ([], O);
  date ← now W;
  json_dump report_path
    (JObj [("date", JStr date);
           ("directory", JStr directory);
           ("total_files", of_nat total);
           ("files_with_voice", of_nat files_with_voice);
           ("results", JArr results);
           ("scan_model", JStr "silero-vad");
           ("vad_threshold", threshold)]).

(** [f'python fast_engine.py transcribe "{file_path}" --start {b["start"]}
    --end {b["end"]}'] *)
Definition transcribe_cmd (W : World) (file_path : string) (b : Block) : string :=
  "python fast_engine.py transcribe " ++ dquote ++ file_path ++ dquote
  ++ " --start " ++ str_of_num W (blk_start b)
  ++ " --end " ++ str_of_num W (blk_end b).

(** The [try] statement of [run_batch_scanner]'s loop. *)
Definition scan_entry (W : World) (model : Model) (use_vad : bool)
    (file_path : string) : M (json * bool) :=
  try_except
    (let transcribe_opts :=
       mkOpts 1 use_vad (if use_vad then Some 2000%nat else None) None in
     '(segments, duration) ← transcribe W model file_path transcribe_opts;
     let '(blocks, segment_count) :=
       cluster_segments (map ts_span segments) default_gap_threshold in
     match blocks with
     | _ :: _ =>
         mret (JObj [("file", JStr file_path);
                     ("duration_sec", JNum (PyNum.round1 duration));
                     ("segments_found", of_nat segment_count);
                     ("blocks", JArr (map block_json blocks));
                     ("transcribe_cmds",
                      JArr (map (fun b => JStr (transcribe_cmd W file_path b))
                                blocks))], true)
     | [] =>
         mret (JObj [("file", JStr file_path);
                     ("duration_sec", JNum 0);
                     ("segments_found", JNum 0);
                     ("blocks", JArr [])], false)
     end)
    (fun msg => mret (error_entry file_path msg, false)).

(** Can [format(v, ".1f")] be evaluated? *)
Definition formattable (v : option json) : bool :=
  match v with
  | Some (JNum _) | Some (JBool _) => true
  | _ => false
  end.

(** Does the closing summary of [run_batch_scanner] get through entry [r]?
<<
    if "error" not in r and r.get("blocks"):
        for b in r["blocks"]: print(f"[{b['start']:.1f}s - {b['end']:.1f}s]")
        for cmd in r["transcribe_cmds"]: print(f"    > {cmd}")
>>  *)
Definition summary_ok (r : json) : bool :=
  match r with
  | JObj d =>
      if negb (has_key "error" d) && truthy (get_default "blocks" JNull d) then
        match get "blocks" d with
        | Some (JArr items) =>
            forallb (fun b => match b with
                              | JObj bd => formattable (get "start" bd)
                                           && formattable (get "end" bd)
                              | _ => false
                              end) items
        | _ => false
        end
        && match get "transcribe_cmds" d with
           | Some (JArr _) | Some (JStr _) | Some (JObj _) => true
           | _ => false
           end
      else true
  | _ => true
  end.

(** [run_batch_scanner(directory, use_vad, report_path, model,
    skip_existing)] *)
Definition run_batch_scanner (W : World) (directory : string) (use_vad : bool)
    (report_path : option string) (model : option Model) (skip_existing : bool)
  : M unit :=
  media_files ← find_media_files W directory;
  let total := length media_files in
  m ← match model with
      | None => new_model W "tiny.en"
      | Some m => mret m
      end;
  let model := Some m in
  let report_path :=
    match report_path with
    | None => default_report_path W
    | Some p => p
    end in
  existing_results ← load_existing skip_existing report_path;
  '(results, files_with_voice) ←
    scan_loop skip_existing existing_results (scan_entry W m use_vad)
              media_files ([], O);
  date ← now W;
  json_dump report_path
    (JObj [("date", JStr date);
           ("directory", JStr directory);
           ("total_files", of_nat total);
           ("files_with_voice", of_nat files_with_voice);
           ("results", JArr results);
           ("scan_model",
            JStr (match model with None => "tiny.en" | Some _ => "custom" end))]);;
  if forallb summary_ok results then mret tt else raise "TypeError".

End Batch.

(* ===================================================================== *)
(** * Windowed transcription: [run_transcriber] *)
(* ===================================================================== *)

Module Transcriber.
Import Json Path Env Clusterer.
Local Open Scope string_scope.

(** [model_name.replace(".", "_").replace("-", "_")] *)
Definition safe_model (model_name : string) : string :=
  replace_char "-" "_" (replace_char "." "_" model_name).

(** Truth value of the [output_dir] argument ([None] or a string). *)
Definition given (output_dir : option string) : option string :=
  match output_dir with
  | Some d => if String.eqb d EmptyString then None else Some d
  | None => None
  end.

(** "Determine output path" *)
Definition out_path (file_path model_name : string) (output_dir : option string)
  : string :=
  let base_name := (splitext (basename file_path)).1 in
  match given output_dir with
  | Some d => join d (base_name ++ "_transcript_" ++ safe_model model_name ++ ".txt")
  | None =>
      (splitext file_path).1 ++ "_transcript_" ++ safe_model model_name ++ ".txt"
  end.

(** [f"[{s.start:.2f} - {s.end:.2f}] {s.text.strip()}"] *)
Definition text_line (W : World) (s : TextSegment) : string :=
  "[" ++ format_fixed W 2 (seg_start (ts_span s)) ++ " - "
  ++ format_fixed W 2 (seg_end (ts_span s)) ++ "] " ++ str_strip W (ts_text s).

(** What one call writes into the transcript. *)
Definition section (W : World) (file_path : string) (start end_ : Q)
    (lines : list string) : list Chunk :=
  ([Line ("--- Transcription [" ++ format_fixed W 1 start ++ "s - "
          ++ format_fixed W 1 end_ ++ "s] ---");
    Line ("Source: " ++ os_path_abspath W file_path)]
   ++ map Line lines ++ [Line EmptyString])%list.

(** [run_transcriber(file_path, start, end, model, model_name, output_dir,
    skip_existing)].  [os.makedirs(output_dir, exist_ok=True)] touches
    directories only and leaves the file map as it is. *)
Definition run_transcriber (W : World) (file_path : string) (start end_ : Q)
    (model : option Model) (model_name : string) (output_dir : option string)
    (skip_existing : bool) : M (list string) :=
  model ← match model with
          | None => new_model W model_name
          | Some m => mret m
          end;
  '(segments, _) ←
    transcribe W model file_path (mkOpts 5 true None (Some (start, end_)));
  let lines := map (text_line W) segments in
  let out_path := out_path file_path model_name output_dir in
  found ← path_exists out_path;
  if skip_existing && found then (mret [] : M (list string))
  else
    found ← path_exists out_path;
    (if found : bool
     then append_file out_path (section W file_path start end_ lines)
     else write_file out_path (section W file_path start end_ lines));;
    (mret lines : M (list string)).

(** The default of the parameter [model_name]. *)
Definition default_model_name : string := "large-v3".

End Transcriber.

(* ===================================================================== *)
(** * CommandServer: [run_server] *)
(* ===================================================================== *)

Module Server.
Import Json Path Env.
Local Open Scope string_scope.

(** The local variables of [run_server] that hold a speech model:
    [scanner_model], bound once before the loop, and the single slot the
    loop reads and assigns - the loaded model and the name it is recorded
    under. *)
Record State : Type := mkState {
  scanner_model : Model;
  current_model : Model;
  current_model_name : string
}.

(** Outcome of a piece of the loop body: as [Res], with the local
    variables as they are at that point. *)
Inductive Flow (A : Type) : Type :=
| Done (a : A) (st : State) (s : Sys)
| Thrown (msg : string) (st : State) (s : Sys).
Arguments Done {A} a st s.
Arguments Thrown {A} msg st s.

Definition SM (A : Type) : Type := State -> Sys -> Flow A.

#[global] Instance SM_ret : MRet SM := fun A a st s => Done a st s.
#[global] Instance SM_bind : MBind SM := fun A B k m st s =>
  match m st s with
  | Done a st' s' => k a st' s'
  | Thrown msg st' s' => Thrown msg st' s'
  end.

Definition flow_state {A} (f : Flow A) : State :=
  match f with Done _ st _ => st | Thrown _ st _ => st end.
Definition flow_sys {A} (f : Flow A) : Sys :=
  match f with Done _ _ s => s | Thrown _ _ s => s end.

(** A call of an engine function from the loop body. *)
Definition call {A} (m : M A) : SM A := fun st s =>
  match m s with
  | Ok a s' => Done a st s'
  | Raised msg s' => Thrown msg st s'
  end.

Definition throw {A} (msg : string) : SM A := fun st s => Thrown msg st s.
Definition locals : SM State := fun st s => Done st st s.

(** [current_model = m; current_model_name = name] *)
Definition assign (m : Model) (name : string) : SM unit :=
  fun st s => Done tt (mkState (scanner_model st) m name) s.

(** [try: m except Exception as e: h(str(e))] *)
Definition catch {A} (m : SM A) (h : string -> SM A) : SM A := fun st s =>
  match m st s with
  | Done a st' s' => Done a st' s'
  | Thrown msg st' s' => h msg st' s'
  end.

(** ** Arguments taken from the command

    A field of the wrong JSON type makes the engine raise at the first use
    of the value.  The model raises where the argument is taken: the
    response line and the model slot are the same, the backend calls that
    the engine may make before it gets to that use are left out. *)

(** A [report_path] argument: a string; [None] for an absent or null
    field. *)
Definition opt_path (v : option json) : SM (option string) :=
  match v with
  | None | Some JNull => mret None
  | Some (JStr p) => mret (Some p)
  | Some _ => throw "TypeError"
  end.

(** An [output_dir] argument, used under [if output_dir:]: a value that
    is false counts as absent. *)
Definition opt_dir (v : option json) : SM (option string) :=
  match v with
  | None => mret None
  | Some (JStr p) => mret (Some p)
  | Some v => if truthy v then throw "TypeError" else mret None
  end.

(** A required string argument. *)
Definition need_str (v : option json) (err : string) : SM string :=
  match v with
  | Some (JStr p) => mret p
  | _ => throw err
  end.

(** A number that [format(x, ".1f")] accepts. *)
Definition need_num (v : option json) : SM Q :=
  match v with
  | Some (JNum x) => mret x
  | Some (JBool b) => mret (if b then 1%Q else 0%Q)
  | _ => throw "TypeError"
  end.

Definition complete (action : string) : json :=
  JObj [("status", JStr "complete"); ("action", JStr action)].

Definition complete_empty (action : string) : json :=
  JObj [("status", JStr "complete"); ("action", JStr action); ("results", JArr [])].

(** ** The helpers that print response lines themselves *)

(** [print] of each of the lines, with the prefix [[ERROR] ]. *)
Fixpoint emit_errors (lines : list string) : M unit :=
  match lines with
  | [] => mret tt
  | line :: rest => emit (Fail ("[ERROR] " ++ line));; emit_errors rest
  end.

(** [run_semantic_search(directory, query, model_name, transcript_dir)],
    as far as the protocol sees it: the response lines it prints and
    whether it raises. *)
Definition run_semantic_search (W : World) (directories query model_name
    transcript_dir : json) : M unit :=
  if negb (embedder_installed W) then
    emit (Fail ("[ERROR] sentence-transformers not installed. "
                ++ "Run 'Install Libraries' in Settings."));;
    emit (Dump (JObj [("status", JStr "error");
                      ("message", JStr "sentence-transformers not installed")]))
  else
    match embedder_init W model_name with
    | Some msg =>
        emit (Fail ("[ERROR] Failed to load model " ++ str_of_json W model_name
                    ++ ": " ++ msg))
    | None =>
        match find_transcripts W directories transcript_dir with
        | inl msg => raise msg
        | inr [] => emit (Dump (complete_empty "semantic_search"))
        | inr transcript_files =>
            match transcript_chunks W transcript_files with
            | [] => emit (Dump (complete_empty "semantic_search"))
            | chunks =>
                match embed_rank W query chunks with
                | Some msg => raise msg
                | None => mret tt
                end
            end
        end
    end.

(** [run_detect_meetings(...)], as far as the protocol sees it; [cmd]
    holds the fields of the command.  Once it has found transcripts, the
    function catches what its loop raises and prints indented lines of its
    own; the providers it calls print lines that begin with [[ERROR]]. *)
Definition run_detect_meetings (W : World) (directory transcript_dir cmd : json)
  : M unit :=
  match find_transcripts W directory transcript_dir with
  | inl msg => raise msg
  | inr [] => emit (Dump (complete_empty "detect_meetings"))
  | inr _ => emit_errors (detect_errors W cmd)
  end.

(** [run_analyze(...)], as far as the protocol sees it: the lines that
    begin with [[ERROR]], printed by the function and by the provider it
    calls, and whether it raises. *)
Definition run_analyze (W : World) (cmd : json) : M unit :=
  emit_errors (analyze_errors W cmd);;
  match analyze_raises W cmd with
  | Some msg => raise msg
  | None => mret tt
  end.

(** ** The loop *)

(** "Ensure ... model is loaded":
<<
    if current_model_name != model_name:
        current_model = WhisperModel(model_name, ...)
        current_model_name = model_name
>>
    [WhisperModel] raises on a name that is not a string. *)
Definition ensure_model (W : World) (model_name : json) : SM unit :=
  st ← locals;
  if is_str (current_model_name st) model_name then mret tt
  else
    name ← need_str (Some model_name) "TypeError";
    m ← call (new_model W name);
    assign m name.

(** The [if]/[elif] chain on [action], for a command that is a dict.
    The value tells whether the loop goes on. *)
Definition dispatch (W : World) (cmd : dict) : SM bool :=
  let action := get "action" cmd in
  let action_is a :=
    match action with Some v => is_str a v | None => false end in
  if action_is "ping" then
    call (emit (Dump (JObj [("status", JStr "pong")])));; mret true
  else if action_is "scan" then
    ensure_model W (JStr "tiny.en");;
    directory ← need_str (get "directory" cmd) "AttributeError";
    let use_vad := truthy (get_default "use_vad" (JBool true) cmd) in
    report_path ← opt_path (get "report_path" cmd);
    st ← locals;
    call (Batch.run_batch_scanner W directory use_vad report_path
            (Some (current_model st)) false);;
    call (emit (Dump (complete "scan")));; mret true
  else if action_is "vad_scan" then
    directory ← need_str (get "directory" cmd) "AttributeError";
    let threshold := get_default "vad_threshold" (JNum (1 # 2)) cmd in
    report_path ← opt_path (get "report_path" cmd);
    let skip_existing := truthy (get_default "skip_existing" (JBool false) cmd) in
    call (Batch.run_batch_vad_scan W directory threshold report_path skip_existing);;
    call (emit (Dump (complete "vad_scan")));; mret true
  else if action_is "transcribe" then
    let model_name := get_default "model" (JStr "large-v3") cmd in
    ensure_model W model_name;;
    start ← need_num (get "start" cmd);
    end_ ← need_num (get "end" cmd);
    file_path ← need_str (get "file" cmd) "TypeError";
    output_dir ← opt_dir (get "output_dir" cmd);
    let skip_existing := truthy (get_default "skip_existing" (JBool false) cmd) in
    st ← locals;
    call (Transcriber.run_transcriber W file_path start end_
            (Some (current_model st)) Transcriber.default_model_name
            output_dir skip_existing);;
    call (emit (Dump (complete "transcribe")));; mret true
  else if action_is "semantic_search" then
    call (run_semantic_search W
            (get_default "directory" (JStr ".") cmd)
            (get_default "query" (JStr EmptyString) cmd)
            (get_default "embed_model" (JStr "all-MiniLM-L6-v2") cmd)
            (get_default "transcript_dir" JNull cmd));;
    call (emit (Dump (complete "semantic_search")));; mret true
  else if action_is "analyze" then
    call (run_analyze W (JObj cmd));;
    call (emit (Dump (complete "analyze")));; mret true
  else if action_is "detect_meetings" then
    call (run_detect_meetings W
            (get_default "directory" (JStr ".") cmd)
            (get_default "transcript_dir" JNull cmd)
            (JObj cmd));;
    call (emit (Dump (complete "detect_meetings")));; mret true
  else if action_is "exit" then mret false
  else mret true.

(** The body of [while True] for a line that was read: the value tells
    whether the loop goes on.  [cmd.get] raises on a command that is not
    a dict. *)
Definition handle_line (W : World) (line : string) : SM bool :=
  match json_loads W line with
  | None => call (emit (Fail "[ERROR] Invalid JSON command"));; mret true
  | Some cmd =>
      catch
        (match cmd with
         | JObj d => dispatch W d
         | _ => throw "AttributeError"
         end)
        (fun msg => call (emit (Fail ("[ERROR] " ++ msg)));; mret true)
  end.

(** [while True] over the lines that [sys.stdin.readline()] returns; the
    end of the list is the end of the input, where [readline] returns the
    empty string. *)
Fixpoint serve (W : World) (input : list string) : SM unit :=
  match input with
  | [] => mret tt
  | line :: rest =>
      if String.eqb line EmptyString then mret tt
      else
        go_on ← handle_line W line;
        if go_on : bool then serve W rest else mret tt
  end.

(** [run_server()]: load the scanning model, then serve. *)
Definition run_server (W : World) (input : list string) : M unit := fun s =>
  match new_model W "tiny.en" s with
  | Raised _ s' => Ok tt s'
  | Ok scanner_model s' =>
      match serve W input (mkState scanner_model scanner_model "tiny.en") s' with
      | Done _ _ s'' => Ok tt s''
      | Thrown msg _ s'' => Raised msg s''
      end
  end.

End Server.

(* ===================================================================== *)
(** * A small world to run the engine in *)
(* ===================================================================== *)

Module Sample.
Import Json Env.
Local Open Scope string_scope.

(** One directory [/d] with the given files; every backend call succeeds
    except on [/d/bad.mp4]; a speech span of five seconds is found in every
    other file; no transcript exists anywhere; every input line parses to
    a command whose action is the line itself, except the line [bad]. *)
Definition world (files : list string) : World :=
  {| os_path_abspath := fun p => p;
     os_walk := fun d => [(d, files)];
     nonascii_lower := fun t => t;
     debug_log_opens := fun _ => true;
     debug_log_error := fun _ => "Permission denied";
     log_write_fails := fun _ _ _ => None;
     extensions_repr := "{}";
     script_dir := "/app";
     isoformat := fun n => if Nat.eqb n 0 then "day0" else "day1";
     whisper_init := fun _ => None;
     whisper_transcribe := fun _ p _ =>
       if String.eqb p "/d/bad.mp4" then inl "decode error"
       else inr ([mkText (Clusterer.mkSegment 0 5) "hello"], 6%Q);
     silero_vad := fun p _ =>
       if String.eqb p "/d/bad.mp4" then inl "decode error"
       else inr ([(0%Q, 5%Q)], 6%Q);
     float_sum := fun _ => 5%Q;
     format_fixed := fun _ _ => "0.0";
     str_of_num := fun _ => "0.0";
     str_of_json := fun _ => "model";
     str_strip := fun t => t;
     json_loads := fun l =>
       if String.eqb l "bad" then None else Some (JObj [("action", JStr l)]);
     embedder_installed := true;
     embedder_init := fun _ => None;
     find_transcripts := fun _ _ => inr [];
     transcript_chunks := fun _ => [];
     embed_rank := fun _ _ => None;
     analyze_errors := fun _ => [];
     analyze_raises := fun _ => None;
     detect_errors := fun _ => [] |}.

(** The same world, where every input line parses to the command [cmd]. *)
Definition answering (W : World) (cmd : dict) : World :=
  {| os_path_abspath := os_path_abspath W;
     os_walk := os_walk W;
     nonascii_lower := nonascii_lower W;
     debug_log_opens := debug_log_opens W;
     debug_log_error := debug_log_error W;
     log_write_fails := log_write_fails W;
     extensions_repr := extensions_repr W;
     script_dir := script_dir W;
     isoformat := isoformat W;
     whisper_init := whisper_init W;
     whisper_transcribe := whisper_transcribe W;
     silero_vad := silero_vad W;
     float_sum := float_sum W;
     format_fixed := format_fixed W;
     str_of_num := str_of_num W;
     str_of_json := str_of_json W;
     str_strip := str_strip W;
     json_loads := fun _ => Some (JObj cmd);
     embedder_installed := embedder_installed W;
     embedder_init := embedder_init W;
     find_transcripts := find_transcripts W;
     transcript_chunks := transcript_chunks W;
     embed_rank := embed_rank W;
     analyze_errors := analyze_errors W;
     analyze_raises := analyze_raises W;
     detect_errors := detect_errors W |}.

(** The same world, where no debug log can be opened. *)
Definition locked (W : World) : World :=
  {| os_path_abspath := os_path_abspath W;
     os_walk := os_walk W;
     nonascii_lower := nonascii_lower W;
     debug_log_opens := fun _ => false;
     debug_log_error := debug_log_error W;
     log_write_fails := log_write_fails W;
     extensions_repr := extensions_repr W;
     script_dir := script_dir W;
     isoformat := isoformat W;
     whisper_init := whisper_init W;
     whisper_transcribe := whisper_transcribe W;
     silero_vad := silero_vad W;
     float_sum := float_sum W;
     format_fixed := format_fixed W;
     str_of_num := str_of_num W;
     str_of_json := str_of_json W;
     str_strip := str_strip W;
     json_loads := json_loads W;
     embedder_installed := embedder_installed W;
     embedder_init := embedder_init W;
     find_transcripts := find_transcripts W;
     transcript_chunks := transcript_chunks W;
     embed_rank := embed_rank W;
     analyze_errors := analyze_errors W;
     analyze_raises := analyze_raises W;
     detect_errors := detect_errors W |}.

(** The same world, where the speech backend finds the given segments in
    every file. *)
Definition hearing (W : World) (segments : list TextSegment) : World :=
  {| os_path_abspath := os_path_abspath W;
     os_walk := os_walk W;
     nonascii_lower := nonascii_lower W;
     debug_log_opens := debug_log_opens W;
     debug_log_error := debug_log_error W;
     log_write_fails := log_write_fails W;
     extensions_repr := extensions_repr W;
     script_dir := script_dir W;
     isoformat := isoformat W;
     whisper_init := whisper_init W;
     whisper_transcribe := fun _ _ _ => inr (segments, 0%Q);
     silero_vad := silero_vad W;
     float_sum := float_sum W;
     format_fixed := format_fixed W;
     str_of_num := str_of_num W;
     str_of_json := str_of_json W;
     str_strip := str_strip W;
     json_loads := json_loads W;
     embedder_installed := embedder_installed W;
     embedder_init := embedder_init W;
     find_transcripts := find_transcripts W;
     transcript_chunks := transcript_chunks W;
     embed_rank := embed_rank W;
     analyze_errors := analyze_errors W;
     analyze_raises := analyze_raises W;
     detect_errors := detect_errors W |}.

(** Nothing on disk, nothing loaded, nothing printed. *)
Definition blank : Sys := mkSys ∅ [] [] [] O.

(** A prior report at [/r.json]: a clean entry for [/d/a.mp4], a failed
    one for [/d/bad.mp4], and a clean one for [/d/old.mp4]. *)
Definition clean_a : dict :=
  [("file", JStr "/d/a.mp4"); ("duration_sec", JNum 9);
   ("segments_found", JNum 2); ("blocks", JArr [])].
Definition failed_bad : dict :=
  [("file", JStr "/d/bad.mp4"); ("error", JStr "decode error")].
Definition clean_old : dict :=
  [("file", JStr "/d/old.mp4"); ("duration_sec", JNum 3);
   ("segments_found", JNum 1); ("blocks", JArr [])].
Definition prior_report : json :=
  JObj [("date", JStr "before"); ("directory", JStr "/d");
        ("results", JArr [JObj clean_a; JObj failed_bad; JObj clean_old])].
Definition with_report : Sys :=
  mkSys {[ "/r.json" := [Doc prior_report] ]} [] [] [] O.

End Sample.

(* ===================================================================== *)
(** * Vocabulary of the properties *)
(* ===================================================================== *)

(** ** Vocabulary for [cluster_segments] *)

Module ClustererSpec.
Import PyNum Clusterer.

(** What holds of the loop variables once at least one segment has been
    consumed; [u] is the start of the segment consumed last. *)
Record Inv (st : LoopState) (u : Q) : Prop := mkInv {
  inv_start : current_start st <= u;
  inv_last : u <= last_end st;
  inv_bound : Forall (fun b => blk_end b <= round2 (current_start st)
                            /\ blk_start b <= round2 (current_start st))
                     (blocks st);
  inv_sorted : StronglySorted before (blocks st);
  inv_count : (S (length (blocks st)) <= segment_count st)%nat
}.

(** A segment that may follow the state: it starts no earlier than the
    previous one, ends no earlier than it starts, and when it closes the
    open block it starts no earlier than the previous segment ended. *)
Definition admissible (T : Q) (st : LoopState) (u : Q) (s : Segment) : Prop :=
  u <= seg_start s /\ seg_start s <= seg_end s
  /\ (splits T st s = true -> last_end st <= seg_start s).

(** A segment none of whose times is the sentinel value [-1] that the
    loop uses for "not set"; every media timestamp, being non-negative,
    is such. *)
Definition no_sentinel (s : Segment) : Prop :=
  ~ seg_start s == -1 /\ ~ seg_end s == -1.

End ClustererSpec.

(** ** Vocabulary for the batch scans *)

Module BatchSpec.
Import Json Path Env Discovery Clusterer Batch.
Local Open Scope string_scope.

(** The surroundings after one more backend call. *)
Definition log_calls (cs : list Call) (s : Sys) : Sys :=
  mkSys (fs s) (constructed s) (calls s ++ cs) (stdout s) (clock s).

(** The file a backend call works on. *)
Definition call_path (c : Call) : string :=
  match c with
  | VadScan p => p
  | Transcribe _ p _ => p
  end.

(** Surroundings with nothing in them. *)
Definition empty_sys : Sys := mkSys ∅ [] [] [] O.

(** What [process] yields for a file, and the call it makes: both are
    independent of the surroundings for the two scans (see [regular]). *)
Definition entry_of (process : string -> M (json * bool)) (p : string)
  : json * bool :=
  match process p empty_sys with
  | Ok a _ => a
  | Raised _ _ => (JNull, false)
  end.

(** The backend calls [process] makes for a file. *)
Definition call_of (process : string -> M (json * bool)) (p : string)
  : list Call :=
  calls (res_sys (process p empty_sys)).

(** [process] catches every exception, makes its backend call on the
    file it is given, and touches nothing else. *)
Definition regular (process : string -> M (json * bool)) : Prop :=
  forall p s,
    process p s = Ok (entry_of process p) (log_calls (call_of process p) s)
    /\ exists c, call_of process p = [c] /\ call_path c = p.

(** The prior entry that the resume test lets through for a file. *)
Definition reused (skip_existing : bool) (existing : gmap string dict)
    (p : string) : option dict :=
  match (if skip_existing then existing !! p else None) with
  | Some prev => if has_key "error" prev then None else Some prev
  | None => None
  end.

(** [prev.get("segments_found", 0) > 0]: [None] when it raises. *)
Definition voice_of (prev : dict) : option bool :=
  gt_zero (get_default "segments_found" (JNum 0) prev).

(** Every reused entry has a [segments_found] that compares with [0]. *)
Definition countable (skip_existing : bool) (existing : gmap string dict)
    (files : list string) : Prop :=
  forall p prev, p ∈ files -> reused skip_existing existing p = Some prev ->
                 is_Some (voice_of prev).

(** The entry the loop appends for a file. *)
Definition out (skip_existing : bool) (existing : gmap string dict)
    (process : string -> M (json * bool)) (p : string) : json :=
  match reused skip_existing existing p with
  | Some prev => JObj prev
  | None => (entry_of process p).1
  end.

(** Whether the loop counts the file as one with voice. *)
Definition voiced (skip_existing : bool) (existing : gmap string dict)
    (process : string -> M (json * bool)) (p : string) : bool :=
  match reused skip_existing existing p with
  | Some prev => default false (voice_of prev)
  | None => (entry_of process p).2
  end.

(** The backend calls the loop makes for a file. *)
Definition made_calls (skip_existing : bool) (existing : gmap string dict)
    (process : string -> M (json * bool)) (p : string) : list Call :=
  match reused skip_existing existing p with
  | Some _ => []
  | None => call_of process p
  end.

(** The entries of a report document ([[]] when it has none). *)
Definition report_entries (data : json) : list json :=
  match data with
  | JObj d =>
      match get "results" d with
      | Some (JArr items) => items
      | _ => []
      end
  | _ => []
  end.

(** The entry names the file [p]: it is a dict whose ["file"] is [p]. *)
Definition names (p : string) (r : json) : bool :=
  match r with
  | JObj d =>
      match get "file" d with
      | Some v => is_str p v
      | None => false
      end
  | _ => false
  end.

(** The prior entry of a file: the last entry of the report that names
    it. *)
Fixpoint prior_entry (p : string) (items : list json) : option dict :=
  match items with
  | [] => None
  | r :: rest =>
      match prior_entry p rest with
      | Some d => Some d
      | None => match r with
                | JObj d => if names p r then Some d else None
                | _ => None
                end
      end
  end.

(** An item the indexing loop gets past without raising. *)
Definition loadable (r : json) : bool :=
  match r with
  | JObj d =>
      match get "file" d with
      | Some (JArr _) | Some (JObj _) => false
      | _ => true
      end
  | JStr s => negb (contains "file" s)
  | JArr l => negb (existsb (is_str "file") l)
  | _ => false
  end.

(** What [load_existing] returns, as a function of the disk. *)
Definition existing_of (skip_existing : bool) (path : string) (s : Sys)
  : gmap string dict :=
  if skip_existing then
    match fs s !! path with
    | Some [Doc data] => index_report data
    | _ => ∅
    end
  else ∅.

(** The path the report is read from and written to. *)
Definition resolve (W : World) (report_path : option string) : string :=
  match report_path with
  | None => default_report_path W
  | Some p => p
  end.

(** The report [run_batch_vad_scan] writes. *)
Definition vad_report (date directory : string) (threshold : json)
    (total files_with_voice : nat) (results : list json) : json :=
  JObj [("date", JStr date);
        ("directory", JStr directory);
        ("total_files", of_nat total);
        ("files_with_voice", of_nat files_with_voice);
        ("results", JArr results);
        ("scan_model", JStr "silero-vad");
        ("vad_threshold", threshold)].

(** The report [run_batch_scanner] writes. *)
Definition scanner_report (date directory : string)
    (total files_with_voice : nat) (results : list json) : json :=
  JObj [("date", JStr date);
        ("directory", JStr directory);
        ("total_files", of_nat total);
        ("files_with_voice", of_nat files_with_voice);
        ("results", JArr results);
        ("scan_model", JStr "custom")].

(** The surroundings after a batch scan that got to its end. *)
Definition after_scan (path : string) (report : json) (cs : list Call)
    (s : Sys) : Sys :=
  mkSys (<[path := [Doc report]]> (fs s)) (constructed s) (calls s ++ cs)
        (stdout s) (S (clock s)).

(** The backend calls made between two states of the surroundings. *)
Definition new_calls (s s' : Sys) : list Call :=
  drop (length (calls s)) (calls s').

(** [prev.get("segments_found", 0) > 0] does not raise. *)
Definition has_voice_count (prev : dict) : bool :=
  match voice_of prev with Some _ => true | None => false end.

(** Every prior entry that the resume test lets through for one of the
    files has a [segments_found] that compares with [0] (or none). *)
Definition resumable (files : list string) (prior : list json) : bool :=
  forallb (fun p => match prior_entry p prior with
                    | Some prev => has_key "error" prev || has_voice_count prev
                    | None => true
                    end) files.

(** What a resumed scan leaves behind: a report with one entry per
    discovered file, in order; for a file whose prior entry has no error,
    that entry itself, and no backend call on the file; for a file whose
    prior entry has an error, a backend call on the file. *)
Definition resumed (files : list string) (path : string) (prior : list json)
    (s s' : Sys) : Prop :=
  exists report,
    fs s' !! path = Some [Doc report]
    /\ length (report_entries report) = length files
    /\ forall i p prev,
         files !! i = Some p -> prior_entry p prior = Some prev ->
         (has_key "error" prev = false ->
            report_entries report !! i = Some (JObj prev)
            /\ forall c, c ∈ new_calls s s' -> call_path c <> p)
         /\ (has_key "error" prev = true ->
            exists c, c ∈ new_calls s s' /\ call_path c = p).

(** The members of an entry. *)
Definition as_dict (r : json) : dict :=
  match r with JObj d => d | _ => [] end.

(** The entry is a dict that names [p], and when it records no error its
    [segments_found] tells whether the file counted as one with voice. *)
Definition entry_for (p : string) (r : json) (v : bool) : Prop :=
  exists d, r = JObj d /\ get "file" d = Some (JStr p)
            /\ (has_key "error" d = false -> voice_of d = Some v).

(** The boolean form of [countable]. *)
Definition countableb (skip_existing : bool) (existing : gmap string dict)
    (files : list string) : bool :=
  forallb (fun p => match reused skip_existing existing p with
                    | Some prev => has_voice_count prev
                    | None => true
                    end) files.

(** The files that a resumed scan processes anew: those without a prior
    entry, and those whose prior entry records an error. *)
Definition retried (files : list string) (prior : list json) : list string :=
  List.filter (fun p => match prior_entry p prior with
                        | Some prev => has_key "error" prev
                        | None => true
                        end) files.

(** The saved report follows the discovery: its entries are, in order,
    one per discovered file, each naming its file: the prior entry itself
    where the file has one without error, and the entry [fresh] makes for
    the file otherwise; so no entry names a file outside the discovery
    result.  And the backend has been called once on each file processed
    anew, in order, and on no other. *)
Definition follows_discovery (files : list string) (path : string)
    (prior : list json) (fresh : string -> json) (s s' : Sys) : Prop :=
  exists report,
    fs s' !! path = Some [Doc report]
    /\ Forall2 (fun p r =>
                  exists d, r = JObj d /\ get "file" d = Some (JStr p)
                    /\ match prior_entry p prior with
                       | Some prev =>
                           if has_key "error" prev then r = fresh p else d = prev
                       | None => r = fresh p
                       end)
               files (report_entries report)
    /\ (forall d q, get "file" d = Some (JStr q) -> q ∉ files ->
                    JObj d ∉ report_entries report)
    /\ map call_path (new_calls s s') = retried files prior.

(** No entry of the report records an error. *)
Definition error_free (report : json) : bool :=
  forallb (fun r => match r with
                    | JObj d => negb (has_key "error" d)
                    | _ => false
                    end) (report_entries report).

(** Two reports that differ in their ["date"] at most. *)
Definition same_but_date (r1 r2 : json) : Prop :=
  exists date1 date2 rest,
    r1 = JObj (("date", JStr date1) :: rest)
    /\ r2 = JObj (("date", JStr date2) :: rest).

End BatchSpec.

(** ** Vocabulary for the command server *)

Module ServerSpec.
Import Json Path Env Discovery Server.
Local Open Scope string_scope.

(** [m] leaves the list of constructed models and the printed response
    lines as they are, whether it returns or raises. *)
Definition quiet {A} (m : M A) : Prop :=
  forall s, constructed (res_sys (m s)) = constructed s
            /\ stdout (res_sys (m s)) = stdout s.

(** [m] constructs no model and prints the response lines [ls], no
    other, whether it returns or raises. *)
Definition prints {A} (ls : list Out) (m : M A) : Prop :=
  forall s, constructed (res_sys (m s)) = constructed s
            /\ stdout (res_sys (m s)) = (stdout s ++ ls)%list.

(** The backend call is a transcription by the model [mdl]. *)
Definition by_model (mdl : Model) (c : Call) : Prop :=
  exists path opts, c = Transcribe mdl path opts.

(** Every backend call made from [s] to [s'] is a transcription by the
    model [mdl]. *)
Definition served_by (mdl : Model) (s s' : Sys) : Prop :=
  exists cs, calls s' = (calls s ++ cs)%list /\ Forall (by_model mdl) cs.

(** Every backend call [m] makes is a transcription by [mdl]. *)
Definition runs_on {A} (mdl : Model) (m : M A) : Prop :=
  forall s, served_by mdl s (res_sys (m s)).

(** [m] prints no response line, whether it returns or raises. *)
Definition silent {A} (m : SM A) : Prop :=
  forall st s, stdout (flow_sys (m st s)) = stdout s.

(** [m] leaves the local variables and the list of constructed models
    as they are. *)
Definition slot_kept {A} (m : SM A) : Prop :=
  forall st s, flow_state (m st s) = st
               /\ constructed (flow_sys (m st s)) = constructed s.

(** [m] leaves the local variables and the list of backend calls as
    they are. *)
Definition still {A} (m : SM A) : Prop :=
  forall st s, flow_state (m st s) = st
               /\ calls (flow_sys (m st s)) = calls s.

(** Every backend call [m] makes is a transcription by the model that is
    in the slot when [m] starts. *)
Definition serves {A} (m : SM A) : Prop :=
  forall st s, served_by (current_model st) s (flow_sys (m st s)).

(** The surroundings after one more model construction. *)
Definition built (name : string) (s : Sys) : Sys :=
  mkSys (fs s) (constructed s ++ [name]) (calls s) (stdout s) (clock s).

(** The loaded models that the local variables of [run_server] refer
    to, and so keep alive. *)
Definition loaded (st : State) : list Model :=
  if decide (scanner_model st = current_model st) then [current_model st]
  else [scanner_model st; current_model st].

(** What follows "ensure model" in the [scan] branch. *)
Definition scan_rest (W : World) (cmd : dict) : SM bool :=
  directory ← need_str (get "directory" cmd) "AttributeError";
  let use_vad := truthy (get_default "use_vad" (JBool true) cmd) in
  report_path ← opt_path (get "report_path" cmd);
  st ← locals;
  call (Batch.run_batch_scanner W directory use_vad report_path
          (Some (current_model st)) false);;
  call (emit (Dump (complete "scan")));; mret true.

(** What follows "ensure model" in the [transcribe] branch. *)
Definition transcribe_rest (W : World) (cmd : dict) : SM bool :=
  start ← need_num (get "start" cmd);
  end_ ← need_num (get "end" cmd);
  file_path ← need_str (get "file" cmd) "TypeError";
  output_dir ← opt_dir (get "output_dir" cmd);
  let skip_existing := truthy (get_default "skip_existing" (JBool false) cmd) in
  st ← locals;
  call (Transcriber.run_transcriber W file_path start end_
          (Some (current_model st)) Transcriber.default_model_name
          output_dir skip_existing);;
  call (emit (Dump (complete "transcribe")));; mret true.

(** A command that asks for a speech model: [scan] asks for [tiny.en],
    [transcribe] for its ["model"] field, [large-v3] when it has none. *)
Definition asks_for (cmd : dict) (name : string) : Prop :=
  (get "action" cmd = Some (JStr "scan") /\ name = "tiny.en")
  \/ (get "action" cmd = Some (JStr "transcribe")
      /\ get_default "model" (JStr "large-v3") cmd = JStr name).

(** The surroundings after one more printed line. *)
Definition printed (o : Out) (s : Sys) : Sys :=
  mkSys (fs s) (constructed s) (calls s) (stdout s ++ [o]) (clock s).

(** The lines [emit_errors] prints. *)
Definition error_lines (lines : list string) : list Out :=
  map (fun line => Fail ("[ERROR] " ++ line)) lines.

(** The actions that the loop answers with a line of its own. *)
Definition answered : list string :=
  ["ping"; "scan"; "vad_scan"; "transcribe"; "semantic_search"; "analyze";
   "detect_meetings"].

(** The actions of the [if]/[elif] chain. *)
Definition known : list string := (answered ++ ["exit"])%list.

(** The line with which the loop answers an action that got to its end. *)
Definition reply (action : string) : json :=
  if String.eqb action "ping" then JObj [("status", JStr "pong")]
  else complete action.

(** The response lines that the function called for a command can print
    itself, before the loop prints its own: each element is one way for
    the command to go.  Discovery complains when its debug log fails;
    [run_analyze] and the providers print their errors and return;
    [run_semantic_search] and [run_detect_meetings] print a completion
    of their own when they find nothing to work on. *)
Definition callee_lines (W : World) (action : string) (cmd : dict)
  : list (list Out) :=
  if String.eqb action "scan" || String.eqb action "vad_scan" then
    match get "directory" cmd with
    | Some (JStr directory) => [[]; discovery_lines W directory]
    | _ => [[]]
    end
  else if String.eqb action "semantic_search" then
    [[];
     [Fail ("[ERROR] sentence-transformers not installed. "
            ++ "Run 'Install Libraries' in Settings.");
      Dump (JObj [("status", JStr "error");
                  ("message", JStr "sentence-transformers not installed")])];
     [Fail ("[ERROR] Failed to load model "
            ++ str_of_json W (get_default "embed_model"
                                (JStr "all-MiniLM-L6-v2") cmd)
            ++ ": "
            ++ default EmptyString
                 (embedder_init W (get_default "embed_model"
                                     (JStr "all-MiniLM-L6-v2") cmd)))];
     [Dump (complete_empty "semantic_search")]]
  else if String.eqb action "analyze" then
    [error_lines (analyze_errors W (JObj cmd))]
  else if String.eqb action "detect_meetings" then
    [[]; [Dump (complete_empty "detect_meetings")];
     error_lines (detect_errors W (JObj cmd))]
  else [[]].

(** On return [m] has printed one of the [ways] and then the bare JSON
    object [j], and tells the loop to go on; on raise it has printed one
    of the [ways]. *)
Definition responds (ways : list (list Out)) (j : json) (m : SM bool) : Prop :=
  forall st s, exists pre,
    pre ∈ ways
    /\ match m st s with
       | Done go_on _ s' =>
           go_on = true /\ stdout s' = (stdout s ++ pre ++ [Dump j])%list
       | Thrown _ _ s' => stdout s' = (stdout s ++ pre)%list
       end.

End ServerSpec.

(* ===================================================================== *)
(** * More vocabulary for [cluster_segments] *)
(* ===================================================================== *)

Module ClusterShape.
Import PyNum Clusterer.

(** The number of segments of the list whose gap to their predecessor is
    greater than [gap_threshold]; the gap is the double that
    [segment.start - last_end] evaluates to, and [t] is the end of the
    segment that precedes the list. *)
Fixpoint gaps_after (gap_threshold t : Q) (segments : list Segment) : nat :=
  match segments with
  | [] => O
  | s :: rest =>
      ((if fgtb (fsub (seg_start s) t) gap_threshold then 1 else 0)
       + gaps_after gap_threshold (seg_end s) rest)%nat
  end.

(** The number of gaps between consecutive segments that the code finds
    wider than the threshold. *)
Definition wide_gaps (gap_threshold : Q) (segments : list Segment) : nat :=
  match segments with
  | [] => O
  | s :: rest => gaps_after gap_threshold (seg_end s) rest
  end.

(** The block spans the segment, both taken to two decimals. *)
Definition covers (b : Block) (s : Segment) : Prop :=
  blk_start b <= round2 (seg_start s) /\ round2 (seg_end s) <= blk_end b.

(** Timestamps of a recording: chronologically sorted and not negative. *)
Definition timeline (segments : list Segment) : Prop := chrono_from 0 segments.

(** What holds of the loop variables after the segments [seen], the first
    of which is [s0]: the open block starts at a time that is not
    negative and reaches to the end of the last segment; the closed blocks
    are well formed; the first block, closed or open, starts where [s0]
    starts; every segment seen is inside a closed block or inside the open
    one. *)
Record Shape (s0 : Segment) (seen : list Segment) (st : LoopState) : Prop := mkShape {
  shape_open : 0 <= current_start st /\ current_start st <= last_end st;
  shape_last : exists s, last seen = Some s /\ last_end st = seg_end s;
  shape_wf : Forall (fun b => blk_start b <= blk_end b) (blocks st);
  shape_first :
    match blocks st with
    | [] => current_start st = seg_start s0
    | b :: _ => blk_start b = round2 (seg_start s0)
    end;
  shape_cover :
    forall s, s ∈ seen ->
      (exists b, b ∈ blocks st /\ covers b s)
      \/ (current_start st <= seg_start s /\ seg_end s <= last_end st)
}.

(** Two states of the loop that differ in the blocks closed before
    [pre] was complete, and in the count. *)
Definition extends (pre : list Block) (st st' : LoopState) : Prop :=
  blocks st = pre ++ blocks st'
  /\ current_start st = current_start st'
  /\ last_end st = last_end st'.

End ClusterShape.

(* ===================================================================== *)
(** * More vocabulary for the batch scans *)
(* ===================================================================== *)

Module BatchShape.
Import Json Path Env Discovery Clusterer Batch BatchSpec.
Local Open Scope string_scope.

(** The keyword arguments [run_batch_scanner] passes to
    [model.transcribe]. *)
Definition scan_opts (use_vad : bool) : TranscribeOpts :=
  mkOpts 1 use_vad (if use_vad then Some 2000%nat else None) None.

(** An entry that tells of voice: a dict without ["error"] whose
    ["segments_found"] is greater than [0]. *)
Definition tells_voice (r : json) : bool :=
  match r with
  | JObj d =>
      negb (has_key "error" d)
      && match voice_of d with
         | Some v => v
         | None => false
         end
  | _ => false
  end.

(** The number of entries that tell of voice. *)
Definition voice_entries (results : list json) : nat :=
  length (List.filter tells_voice results).

(** A member of a report document. *)
Definition member (key : string) (report : json) : option json :=
  get key (as_dict report).

(** The models constructed between two states of the surroundings. *)
Definition new_models (s s' : Sys) : list string :=
  drop (length (constructed s)) (constructed s').

End BatchShape.

(* ===================================================================== *)
(** * Which files count as transcripts *)
(* ===================================================================== *)

Module Transcripts.
Import Path.
Local Open Scope string_scope.

(** The test on a file name [f] in the walk of [run_search_transcripts]:
    [f.endswith("_transcript.txt")]. *)
Definition text_search_takes (f : string) : bool :=
  endswith f "_transcript.txt".

(** The test on a file name [f] in the walks of [run_semantic_search] and
    [run_detect_meetings]: ["_transcript" in f and f.endswith(".txt")]. *)
Definition semantic_search_takes (f : string) : bool :=
  contains "_transcript" f && endswith f ".txt".

End Transcripts.

(* ===================================================================== *)
(** * Vocabulary for the effects on the disk *)
(* ===================================================================== *)

Module DiskSpec.
Import Env.

(** [m] leaves every file as it is, whether it returns or raises. *)
Definition keeps_files {A} (m : M A) : Prop :=
  forall s, fs (res_sys (m s)) = fs s.

(** When [m] raises, every file is as it was before. *)
Definition raise_safe {A} (m : M A) : Prop :=
  forall s msg s', m s = Raised msg s' -> fs s' = fs s.

(** [m] changes no file other than the one at [path], whether it returns
    or raises. *)
Definition writes_only {A} (path : string) (m : M A) : Prop :=
  forall s p, p <> path -> fs (res_sys (m s)) !! p = fs s !! p.

End DiskSpec.

(* ===================================================================== *)
(** * More vocabulary for the command server *)
(* ===================================================================== *)

Module ServerShape.
Import Json Path Env Server ServerSpec.
Local Open Scope string_scope.

(** The [output_dir] a [transcribe] command gives: its ["output_dir"]
    when that is a string. *)
Definition dir_of (cmd : dict) : option string :=
  match get "output_dir" cmd with
  | Some (JStr p) => Some p
  | _ => None
  end.

(** The [report_path] a command gives: its ["report_path"] when that is
    a string. *)
Definition report_of (cmd : dict) : option string :=
  match get "report_path" cmd with
  | Some (JStr p) => Some p
  | _ => None
  end.

End ServerShape.

(* ===================================================================== *)
(** * Whole-file transcription: [run_transcribe_file],
      [run_batch_transcribe_dir] *)
(* ===================================================================== *)

Module FullTranscribe.
Import Json Path Env Clusterer Discovery.
Local Open Scope string_scope.

(** The backslash character. *)
Definition backslash : ascii := ascii_of_nat 92.

(** [model_name.replace("/", "_").replace("\\", "_")], the file-safe model
    name of [run_transcribe_file]. *)
Definition safe_model (model_name : string) : string :=
  replace_char backslash "_" (replace_char "/" "_" model_name).

(** The transcript path of [run_transcribe_file] ([out_check] and
    [out_path] are the same expression). *)
Definition out_path (file_path model_name : string) (output_dir : option string)
  : string :=
  let base_name := (splitext (basename file_path)).1 in
  match Transcriber.given output_dir with
  | Some d => join d (base_name ++ "_transcript_" ++ safe_model model_name ++ ".txt")
  | None =>
      (splitext file_path).1 ++ "_transcript_" ++ safe_model model_name ++ ".txt"
  end.








End FullTranscribe.

(* ===================================================================== *)
(** * Transcription from a report: [run_batch_transcriber] *)
(* ===================================================================== *)

Module BatchTranscribe.
Import Json Path Env Clusterer Batch BatchSpec BatchShape Transcriber.
Local Open Scope string_scope.

(** [v[key]] for a [str] key: a dict gives the member or raises
    [KeyError]; every other value raises [TypeError]. *)
Definition subscript (key : string) (v : json) : M json :=
  match v with
  | JObj d =>
      match get key d with
      | Some x => mret x
      | None => raise "KeyError"
      end
  | _ => raise "TypeError"
  end.

(** [for x in v]: the items of a list, the keys of a dict, the characters
    of a string; a [TypeError] on every other value. *)
Definition iterate (v : json) : M (list json) :=
  match v with
  | JArr items => mret items
  | JObj members => mret (map (fun kv => JStr kv.1) members)
  | JStr s => mret (map JStr (characters s))
  | _ => raise "TypeError"
  end.

(** ["error" not in r and r.get("blocks")], as a truth value.  [in] is
    the key test on a dict, the substring test on a string, the
    membership test on a list and raises on the rest; [get] exists on a
    dict only. *)
Definition has_blocks (r : json) : M bool :=
  match r with
  | JObj d => mret (negb (has_key "error" d) && truthy (get_default "blocks" JNull d))
  | JStr s => if contains "error" s then mret false else raise "AttributeError"
  | JArr l => if existsb (is_str "error") l then mret false else raise "AttributeError"
  | _ => raise "TypeError"
  end.

(** [[r for r in items if "error" not in r and r.get("blocks")]] *)
Fixpoint select (items : list json) : M (list json) :=
  match items with
  | [] => mret []
  | r :: rest =>
      keep ← has_blocks r;
      voice_files ← select rest;
      mret (if keep : bool then r :: voice_files else voice_files)
  end.

(** [len(v)] *)
Definition len (v : json) : M nat :=
  match v with
  | JArr items => mret (length items)
  | JObj members => mret (length members)
  | JStr s => mret (code_points s)
  | _ => raise "TypeError"
  end.

(** [sum(len(r["blocks"]) for r in voice_files)] *)
Fixpoint count_blocks (voice_files : list json) : M nat :=
  match voice_files with
  | [] => mret O
  | r :: rest =>
      blocks ← subscript "blocks" r;
      n ← len blocks;
      total ← count_blocks rest;
      mret (n + total)%nat
  end.

(** The number [format(v, ".1f")] prints: a [ValueError] on a string, a
    [TypeError] on [None], a list or a dict. *)
Definition format_1f (v : json) : M Q :=
  match v with
  | JNum x => mret x
  | JBool b => mret (if b then 1 else 0)
  | JStr _ => raise "ValueError"
  | _ => raise "TypeError"
  end.

(** The body of [for b in entry["blocks"]].  The line that announces the
    block formats [b['start']] and [b['end']] outside the [try]; the call
    of [run_transcriber] is inside it.  A [file] that is not a string
    reaches the backend, which raises on it: no call on a file is logged
    for it. *)
Definition transcribe_block (W : World) (model : Model) (model_name : string)
    (output_dir : option string) (skip_existing : bool)
    (file_path : json) (b : json) : M unit :=
  start ← (v ← subscript "start" b; format_1f v);
  end_ ← (v ← subscript "end" b; format_1f v);
  try_except
    (match file_path with
     | JStr p =>
         run_transcriber W p start end_ (Some model) model_name output_dir
           skip_existing;;
         mret tt
     | _ => raise "TypeError"
     end)
    (fun _ => mret tt).

Fixpoint blocks_loop (W : World) (model : Model) (model_name : string)
    (output_dir : option string) (skip_existing : bool)
    (file_path : json) (blocks : list json) (block_num : nat) : M nat :=
  match blocks with
  | [] => mret block_num
  | b :: rest =>
      let block_num := S block_num in
      transcribe_block W model model_name output_dir skip_existing file_path b;;
      blocks_loop W model model_name output_dir skip_existing file_path rest block_num
  end.

(** [for i, entry in enumerate(voice_files, 1)] *)
Fixpoint files_loop (W : World) (model : Model) (model_name : string)
    (output_dir : option string) (skip_existing : bool)
    (voice_files : list json) (block_num : nat) : M nat :=
  match voice_files with
  | [] => mret block_num
  | entry :: rest =>
      file_path ← subscript "file" entry;
      blocks ← (v ← subscript "blocks" entry; iterate v);
      block_num ←
        blocks_loop W model model_name output_dir skip_existing file_path blocks
          block_num;
      files_loop W model model_name output_dir skip_existing rest block_num
  end.

(** [run_batch_transcriber(report_path, output_dir, skip_existing,
    model_name)]; [exit(1)] raises [SystemExit].  The value is the two
    numbers of the closing summary: files processed and blocks
    transcribed. *)
Definition run_batch_transcriber (W : World) (report_path : option string)
    (output_dir : option string) (skip_existing : bool) (model_name : string)
  : M (nat * nat) :=
  let report_path :=
    match report_path with
    | None => default_report_path W
    | Some p => p
    end in
  found ← path_exists report_path;
  if negb found then
    emit (Fail ("[ERROR] Report not found: " ++ report_path));;
    emit (Fail "[ERROR] Run batch_scan first to generate the report.");;
    raise "SystemExit"
  else
    report ← json_load report_path;
    match report with
    | None => raise "JSONDecodeError"
    | Some report =>
        results ← (v ← subscript "results" report; iterate v);
        voice_files ← select results;
        total_blocks ← count_blocks voice_files;
        model ← new_model W model_name;
        block_num ←
          files_loop W model model_name output_dir skip_existing voice_files O;
        mret (length voice_files, block_num)
    end.




(** The entry [r] is about the file [p] and asks for the windows [bs]: it
    is a dict whose ["file"] is [p], and either it has an ["error"] and
    [bs] is empty, or its ["blocks"] is the list of [bs]. *)
Definition asks (p : string) (bs : list Block) (r : json) : Prop :=
  exists d, r = JObj d
    /\ get "file" d = Some (JStr p)
    /\ ((has_key "error" d = true /\ bs = [])
        \/ (has_key "error" d = false
            /\ get "blocks" d = Some (JArr (map block_json bs)))).

(** Between [s] and [s'] every file is as it was, or it is the transcript
    of a file of [plan] that did not exist and now holds the section of
    one window of that file. *)
Definition one_section_each (W : World) (model_name : string)
    (output_dir : option string) (plan : list (string * list Block))
    (s s' : Sys) : Prop :=
  forall q,
    fs s' !! q = fs s !! q
    \/ (fs s !! q = None
        /\ exists p bs b lines,
             (p, bs) ∈ plan /\ b ∈ bs /\ q = out_path p model_name output_dir
             /\ fs s' !! q = Some (section W p (blk_start b) (blk_end b) lines)).

End BatchTranscribe.

(* ===================================================================== *)
(** * The scan of one file: [run_scanner] *)
(* ===================================================================== *)

Module Scanner.
Import Path Env Clusterer.
Local Open Scope string_scope.

(** [f"[BLOCK] {b['start']}|{b['end']}"] *)
Definition block_line (W : World) (b : Block) : string :=
  "[BLOCK] " ++ str_of_num W (blk_start b) ++ "|" ++ str_of_num W (blk_end b).

Definition no_speech_line : string := "[INFO] No speech detected.".

(** [run_scanner(file_path, use_vad)]; the value is what it prints after
    the two status lines. *)
Definition run_scanner (W : World) (file_path : string) (use_vad : bool)
  : M (list string) :=
  model ← new_model W "tiny.en";
  let transcribe_opts :=
    mkOpts 1 use_vad (if use_vad then Some 2000%nat else None) None in
  '(segments, _) ← transcribe W model file_path transcribe_opts;
  let '(blocks, segment_count) :=
    cluster_segments (map ts_span segments) default_gap_threshold in
  mret (map (block_line W) blocks
        ++ (if Nat.eqb segment_count 0 then [no_speech_line] else []))%list.

End Scanner.

(* ===================================================================== *)
(** * Properties of the rounding *)
(* ===================================================================== *)
Module PyNumFacts.
Import PyNum.

Lemma gtb_true (a b : Q) : gtb a b = true <-> b < a.
Proof.
  unfold gtb. rewrite negb_true_iff, <- not_true_iff_false, Qle_bool_iff.
  split; [apply Qnot_le_lt | apply Qlt_not_le].
Qed.

Lemma eqb_true (a b : Q) : eqb a b = true <-> a == b.
Proof. apply Qeq_bool_iff. Qed.

Lemma round_half_even_mono (x y : Q) :
  x <= y -> (round_half_even x <= round_half_even y)%Z.
Proof.
  intros Hxy.
  pose proof (Qfloor_resp_le x y Hxy) as Hfl.
  destruct x as [n1 d1], y as [n2 d2].
  unfold Qle in Hxy. cbn [Qnum Qden] in Hxy.
  unfold Qfloor in Hfl.
  unfold round_half_even. cbn [Qnum Qden].
  pose proof (Z.div_mod n1 (Zpos d1) ltac:(lia)) as E1.
  pose proof (Z.div_mod n2 (Zpos d2) ltac:(lia)) as E2.
  pose proof (Z.mod_pos_bound n1 (Zpos d1) ltac:(lia)) as B1.
  pose proof (Z.mod_pos_bound n2 (Zpos d2) ltac:(lia)) as B2.
  set (f1 := (n1 / Zpos d1)%Z) in *. set (f2 := (n2 / Zpos d2)%Z) in *.
  set (r1 := (n1 mod Zpos d1)%Z) in *. set (r2 := (n2 mod Zpos d2)%Z) in *.
  assert (Hcase : (f1 < f2 \/ (f1 = f2 /\ r1 * Zpos d2 <= r2 * Zpos d1))%Z).
  { destruct (Z.eq_dec f1 f2) as [e|ne]; [right; split; [exact e|] | left; lia].
    rewrite E1, E2, e in Hxy.
    assert (Hd : (Zpos d1 * f2 * Zpos d2 + r1 * Zpos d2
                  <= Zpos d2 * f2 * Zpos d1 + r2 * Zpos d1)%Z) by lia.
    lia. }
  clearbody f1 f2 r1 r2. clear E1 E2 Hxy Hfl.
  repeat match goal with
         | |- context [(?a <? ?b)%Z] => destruct (Z.ltb_spec a b)
         | |- context [Z.even ?a] => destruct (Z.even a) eqn:?
         end; try lia; destruct Hcase as [Hlt | [Heq Hr]]; try lia; try nia.
  all: try (rewrite Heq in *; congruence).
Qed.

(** [round(., n)] never reverses the order of two numbers. *)
Lemma round_mono (n : nat) (x y : Q) : x <= y -> round x n <= round y n.
Proof.
  intros Hxy. unfold round. rewrite !Qred_correct.
  assert (H : x * (Zpos (pow10 n) # 1) <= y * (Zpos (pow10 n) # 1)).
  { apply Qmult_le_compat_r; [exact Hxy | unfold Qle; cbn; lia]. }
  apply round_half_even_mono in H.
  unfold Qle. cbn [Qnum Qden]. nia.
Qed.

Lemma round2_mono (x y : Q) : x <= y -> round2 x <= round2 y.
Proof. apply round_mono. Qed.

(** ** The float subtraction *)

Lemma pow2_pos (e : Z) : 0 < pow2 e.
Proof.
  unfold pow2. destruct (Z.leb_spec 0 e) as [H|H].
  - change 0 with (inject_Z 0). rewrite <- Zlt_Qlt. apply Z.pow_pos_nonneg; lia.
  - apply Qlt_shift_div_l.
    + change 0 with (inject_Z 0). rewrite <- Zlt_Qlt. apply Z.pow_pos_nonneg; lia.
    + rewrite Qmult_0_l. reflexivity.
Qed.

Lemma spacing_pos (x : Q) : 0 < spacing x.
Proof. apply pow2_pos. Qed.

(** The rounding to a double keeps the sign. *)
Lemma nearest_double_pos (x : Q) : 0 < nearest_double x -> 0 < x.
Proof.
  unfold nearest_double. destruct (Qeq_bool x 0) eqn:E.
  - intros H. exfalso. exact (Qlt_irrefl 0 H).
  - rewrite Qred_correct. intros H.
    pose proof (spacing_pos x) as Hs.
    destruct (Qlt_le_dec 0 x) as [Hx|Hx]; [exact Hx | exfalso].
    assert (Hq : x / spacing x <= 0).
    { apply Qle_shift_div_r; [exact Hs|]. rewrite Qmult_0_l. exact Hx. }
    apply round_half_even_mono in Hq. change (round_half_even 0) with 0%Z in Hq.
    assert (Hz : inject_Z (round_half_even (x / spacing x)) <= 0).
    { change 0 with (inject_Z 0). rewrite <- Zle_Qle. exact Hq. }
    assert (Hm : inject_Z (round_half_even (x / spacing x)) * spacing x <= 0).
    { rewrite <- (Qmult_0_l (spacing x)).
      apply Qmult_le_compat_r; [exact Hz | apply Qlt_le_weak, Hs]. }
    exact (Qlt_irrefl 0 (Qlt_le_trans _ _ _ H Hm)).
Qed.

Lemma double_max_pos : 0 < double_max.
Proof. reflexivity. Qed.

(** A gap that the code finds greater than a threshold that is not
    negative is a real gap: the later time is the greater one. *)
Lemma fsub_gt_pos (a b T : Q) :
  0 <= T -> fgtb (fsub a b) T = true -> b < a.
Proof.
  intros HT. unfold fsub.
  destruct (gtb (nearest_double (a - b)) double_max) eqn:E1.
  - intros _. apply gtb_true in E1.
    assert (H : 0 < a - b).
    { apply nearest_double_pos. eapply Qlt_trans; [apply double_max_pos | exact E1]. }
    lra.
  - destruct (gtb (- double_max) (nearest_double (a - b))) eqn:E2; cbn [fgtb].
    + discriminate.
    + intros H. apply gtb_true in H.
      assert (H' : 0 < a - b).
      { apply nearest_double_pos. eapply Qle_lt_trans; [exact HT | exact H]. }
      lra.
Qed.

(** The test is monotone in the threshold. *)
Lemma fgtb_anti (v : fval) (T1 T2 : Q) :
  T1 <= T2 -> fgtb v T2 = true -> fgtb v T1 = true.
Proof.
  intros HT. destruct v as [x| |]; cbn; auto.
  rewrite !gtb_true. intros H. eapply Qle_lt_trans; eauto.
Qed.

End PyNumFacts.

(* ===================================================================== *)
(** * Properties of [cluster_segments] *)
(* ===================================================================== *)
Module ClustererFacts.
Import PyNum PyNumFacts Clusterer.
Import ClustererSpec.

Create HintDb cluster.
#[local] Hint Resolve round2_mono Qle_refl : cluster.

Lemma sorted_snoc (l : list Block) (x : Block) :
  StronglySorted before l -> Forall (fun b => before b x) l ->
  StronglySorted before (l ++ [x]).
Proof.
  intros Hl Hx. apply StronglySorted_app_2.
  - intros b b' Hb Hb'. apply list_elem_of_singleton in Hb'. subst b'.
    rewrite Forall_forall in Hx. auto.
  - exact Hl.
  - repeat constructor.
Qed.

Lemma loop_body_first (T : Q) (s : Segment) :
  seg_start s <= seg_end s -> Inv (loop_body T init s) (seg_start s).
Proof.
  intros Hs. unfold loop_body, splits. cbn.
  constructor; cbn; auto with cluster. constructor.
Qed.

Lemma loop_body_inv (T : Q) (st : LoopState) (u : Q) (s : Segment) :
  Inv st u -> admissible T st u s -> Inv (loop_body T st s) (seg_start s).
Proof.
  intros [Hcs Hle Hb Hsort Hcnt] (Hu & Hs & Hsplit).
  unfold loop_body.
  set (cs1 := if eqb (current_start st) (-1) then seg_start s else current_start st).
  assert (Hcs1 : cs1 <= seg_start s).
  { subst cs1. destruct (eqb _ _); [apply Qle_refl | eapply Qle_trans; eauto]. }
  assert (Hcs_cs1 : round2 (current_start st) <= round2 cs1).
  { subst cs1. destruct (eqb _ _); auto with cluster.
    apply round2_mono. eapply Qle_trans; eauto. }
  assert (Hb1 : Forall (fun b => blk_end b <= round2 cs1 /\ blk_start b <= round2 cs1)
                       (blocks st)).
  { eapply Forall_impl; [exact Hb|]. cbn. intros b [? ?].
    split; eapply Qle_trans; eauto. }
  destruct (splits T st s) eqn:Hsp.
  - specialize (Hsplit eq_refl).
    constructor; cbn.
    + apply Qle_refl.
    + exact Hs.
    + apply Forall_app. split.
      * eapply Forall_impl; [exact Hb1|]. cbn. intros b [? ?].
        split; (eapply Qle_trans; [eassumption | auto with cluster]).
      * repeat constructor; cbn; auto with cluster.
    + apply sorted_snoc; [exact Hsort | exact Hb1].
    + rewrite length_app. cbn. lia.
  - constructor; cbn.
    + exact Hcs1.
    + exact Hs.
    + exact Hb1.
    + exact Hsort.
    + lia.
Qed.

Lemma finish_inv (st : LoopState) (u : Q) :
  Inv st u ->
  StronglySorted before (finish st).1
  /\ (length (finish st).1 <= (finish st).2)%nat.
Proof.
  intros [Hcs Hle Hb Hsort Hcnt]. unfold finish.
  destruct (negb _); cbn.
  - split; [apply sorted_snoc; assumption | rewrite length_app; cbn; lia].
  - split; [assumption | lia].
Qed.

(** The strong reading: every later time is no earlier than [last_end]. *)
Lemma fold_chrono (T : Q) (segments : list Segment) :
  forall st u, Inv st u -> chrono_from (last_end st) segments ->
  exists u', Inv (fold_left (loop_body T) segments st) u'.
Proof.
  induction segments as [|s rest IH]; intros st u HI Hch; cbn.
  - eauto.
  - cbn in Hch. destruct Hch as (H1 & H2 & H3).
    apply (IH _ (seg_start s)).
    + apply (loop_body_inv T st u s HI). repeat split; auto.
      eapply Qle_trans; [apply (inv_last _ _ HI) | exact H1].
    + unfold loop_body. destruct (splits T st s); exact H3.
Qed.

(** The weak reading needs a threshold that is not negative. *)
Lemma fold_starts (T : Q) (segments : list Segment) :
  0 <= T ->
  forall st u, Inv st u -> starts_from u segments ->
  exists u', Inv (fold_left (loop_body T) segments st) u'.
Proof.
  intros HT.
  induction segments as [|s rest IH]; intros st u HI Hch; cbn.
  - eauto.
  - cbn in Hch. destruct Hch as (H1 & H2 & H3).
    apply (IH _ (seg_start s)); [|exact H3].
    apply (loop_body_inv T st u s HI). repeat split; auto.
    unfold splits. rewrite andb_true_iff. intros [_ Hgap].
    apply Qlt_le_weak. exact (fsub_gt_pos _ _ T HT Hgap).
Qed.

Lemma fold_count (T : Q) (segments : list Segment) (st : LoopState) :
  segment_count (fold_left (loop_body T) segments st)
  = (segment_count st + length segments)%nat.
Proof.
  revert st. induction segments as [|s rest IH]; intros st; cbn; [lia|].
  rewrite IH. unfold loop_body. destruct (splits T st s); cbn; lia.
Qed.

Lemma finish_count (st : LoopState) : (finish st).2 = segment_count st.
Proof. unfold finish. destruct (negb _); reflexivity. Qed.

Lemma cluster_count (segments : list Segment) (T : Q) :
  (cluster_segments segments T).2 = length segments.
Proof. unfold cluster_segments. rewrite finish_count, fold_count. reflexivity. Qed.

Lemma sorted_lookup (l : list Block) (i j : nat) (bi bj : Block) :
  StronglySorted before l -> (i < j)%nat ->
  l !! i = Some bi -> l !! j = Some bj -> before bi bj.
Proof.
  intros Hs. revert i j. induction Hs as [|a l Hs IH Hall]; intros i j Hij Hi Hj.
  - rewrite lookup_nil in Hi. discriminate.
  - destruct j as [|j]; [lia|]. cbn in Hj.
    destruct i as [|i]; cbn in Hi.
    + injection Hi as <-. rewrite Forall_forall in Hall.
      apply Hall. eapply list_elem_of_lookup_2; eauto.
    + apply (IH i j); [lia | assumption | assumption].
Qed.

(** The blocks are sorted by [before], for either notion of "sorted". *)
Lemma cluster_sorted_gen (segments : list Segment) (T : Q) :
  chrono_sorted segments \/ (starts_sorted segments /\ 0 <= T) ->
  StronglySorted before (cluster_segments segments T).1
  /\ (length (cluster_segments segments T).1 <= (cluster_segments segments T).2)%nat.
Proof.
  intros H. unfold cluster_segments.
  destruct segments as [|s rest].
  - change (finish (fold_left (loop_body T) [] init)) with (@nil Block, O).
    cbn. split; [constructor | lia].
  - cbn [fold_left].
    assert (Hex : exists u', Inv (fold_left (loop_body T) rest (loop_body T init s)) u').
    { destruct H as [[Hs Hrest] | [[Hs Hrest] HT]].
      - apply (fold_chrono T rest _ (seg_start s)); [apply loop_body_first; auto|].
        exact Hrest.
      - apply (fold_starts T rest HT _ (seg_start s)); [apply loop_body_first; auto|].
        exact Hrest. }
    destruct Hex as [u' HI]. exact (finish_inv _ _ HI).
Qed.

(** C1.  For a list of segments that is chronologically sorted (each
    segment has [start <= end] and starts no earlier than the previous one
    ended) and any threshold - or, when segments may overlap one another,
    for a list sorted by start and a threshold that is not negative - the
    blocks of [cluster_segments] are pairwise non-overlapping (an earlier
    block ends no later than a later one starts) and ordered by start,
    there are no more blocks than segments, the returned count is the
    number of segments, and the empty list gives no block and a count of
    zero. *)
Theorem cluster_blocks_disjoint_ordered (segments : list Segment) (T : Q) :
  chrono_sorted segments \/ (starts_sorted segments /\ 0 <= T) ->
  (forall i j bi bj, (i < j)%nat ->
     (cluster_segments segments T).1 !! i = Some bi ->
     (cluster_segments segments T).1 !! j = Some bj ->
     blk_end bi <= blk_start bj /\ blk_start bi <= blk_start bj)
  /\ (length (cluster_segments segments T).1 <= length segments)%nat
  /\ (cluster_segments segments T).2 = length segments
  /\ cluster_segments [] T = ([], O).
Proof.
  intros Hs.
  destruct (cluster_sorted_gen segments T Hs) as [Hsorted Hlen].
  rewrite cluster_count in Hlen.
  repeat split; try assumption.
  - eapply (sorted_lookup _ i j bi bj Hsorted); eauto.
  - eapply (sorted_lookup _ i j bi bj Hsorted); eauto.
  - apply cluster_count.
Qed.

Lemma cluster_blocks_disjoint_ordered_witness :
  let segments := [mkSegment 0 5; mkSegment 10 15; mkSegment 400 410] in
  chrono_sorted segments
  /\ cluster_segments segments 180 = ([mkBlock 0 15; mkBlock 400 410], 3%nat)
  /\ (length (cluster_segments segments 180).1 <= length segments)%nat.
Proof.
  cbn zeta.
  assert (H : chrono_sorted [mkSegment 0 5; mkSegment 10 15; mkSegment 400 410]).
  { cbn. repeat split; unfold Qle; cbn; lia. }
  split; [exact H|]. split; [reflexivity|].
  exact (proj1 (proj2 (cluster_blocks_disjoint_ordered _ 180 (or_introl H)))).
Defined.

(** Outside these two cases: two overlapping segments and a negative
    threshold give two overlapping blocks. *)
Example cluster_negative_threshold_overlap :
  cluster_segments [mkSegment 0 5; mkSegment 3 8] (-10)
  = ([mkBlock 0 5; mkBlock 3 8], 2%nat).
Proof. reflexivity. Qed.

(** ** The boundary of the gap test *)

Lemma nonneg_no_sentinel (s : Segment) :
  0 <= seg_start s -> 0 <= seg_end s -> no_sentinel s.
Proof. intros H1 H2. split; intros E; rewrite E in *; lra. Qed.

Lemma eqb_false (a b : Q) : eqb a b = false <-> ~ a == b.
Proof. rewrite <- not_true_iff_false, eqb_true. reflexivity. Qed.

Lemma loop_body_last_end (T : Q) (st : LoopState) (s : Segment) :
  last_end (loop_body T st s) = seg_end s.
Proof. unfold loop_body. destruct (splits T st s); reflexivity. Qed.

Lemma loop_body_open (T : Q) (st : LoopState) (s : Segment) :
  ~ seg_start s == -1 -> ~ current_start (loop_body T st s) == -1.
Proof.
  intros Hs. unfold loop_body.
  destruct (splits T st s); cbn; [exact Hs|].
  destruct (eqb (current_start st) (-1)) eqn:E; [exact Hs|].
  apply eqb_false. exact E.
Qed.

(** After a non-empty run of segments the block is open and [last_end]
    is the end of the last segment. *)
Lemma fold_snoc_state (T : Q) (pre : list Segment) (s1 : Segment) (st0 : LoopState) :
  ~ seg_start s1 == -1 ->
  let st := fold_left (loop_body T) (pre ++ [s1]) st0 in
  last_end st = seg_end s1 /\ ~ current_start st == -1.
Proof.
  intros Hs st. subst st. rewrite fold_left_app. cbn [fold_left].
  split; [apply loop_body_last_end | apply loop_body_open; exact Hs].
Qed.

(** C2.  Let [s1], [s2] be two consecutive segments anywhere in the input
    ([pre] is what precedes them), [s1] free of the sentinel value, and
    let the gap be what the code compares with the threshold: the double
    that [s2.start - s1.end] evaluates to.  When the gap equals the
    threshold, the iteration for [s2] adds no block and keeps the open
    block's start: [s1] and [s2] are in the same block.  When it is
    strictly greater than the threshold, the open block is closed at
    [s1.end] and a new one opens at [s2.start].  And a block is added by
    an iteration only when the gap is strictly greater than the
    threshold. *)
Theorem gap_test_is_strict (T : Q) (pre : list Segment) (s1 s2 : Segment) :
  no_sentinel s1 ->
  let st := fold_left (loop_body T) (pre ++ [s1]) init in
  let st' := fold_left (loop_body T) (pre ++ [s1; s2]) init in
  let gap := fsub (seg_start s2) (seg_end s1) in
  (forall g, gap = Fin g -> g == T ->
     blocks st' = blocks st /\ current_start st' = current_start st
     /\ last_end st' = seg_end s2)
  /\ (fgtb gap T = true ->
     blocks st' = blocks st ++ [mkBlock (round2 (current_start st))
                                        (round2 (seg_end s1))]
     /\ current_start st' = seg_start s2 /\ last_end st' = seg_end s2)
  /\ (blocks st' <> blocks st -> fgtb gap T = true).
Proof.
  intros [Hs1 He1] st st' gap.
  assert (Hst' : st' = loop_body T st s2).
  { subst st st'. replace (pre ++ [s1; s2]) with ((pre ++ [s1]) ++ [s2]).
    - rewrite (fold_left_app _ (pre ++ [s1])). reflexivity.
    - rewrite <- app_assoc. reflexivity. }
  destruct (fold_snoc_state T pre s1 init Hs1) as [Hle Hcs].
  fold st in Hle, Hcs. rewrite Hst'. clearbody st. clear Hst' st'.
  apply eqb_false in Hcs.
  assert (Hsp : splits T st s2 = fgtb gap T).
  { unfold splits. rewrite Hle.
    apply eqb_false in He1. rewrite He1. reflexivity. }
  unfold loop_body. rewrite Hsp, Hcs.
  destruct (fgtb gap T) eqn:Hg; cbn.
  - split; [|split].
    + intros g Eg E. rewrite Eg in Hg. cbn in Hg. apply gtb_true in Hg.
      rewrite E in Hg. exfalso. apply (Qlt_irrefl T Hg).
    + intros _. rewrite Hle. repeat split; reflexivity.
    + intros _. reflexivity.
  - split; [|split].
    + intros _ _ _. repeat split; reflexivity.
    + intros Hlt. discriminate Hlt.
    + intros Hne. exfalso. apply Hne. reflexivity.
Qed.

Lemma gap_test_is_strict_witness :
  let s1 := mkSegment 0 5 in
  let s2 := mkSegment 185 190 in
  no_sentinel s1
  /\ fsub (seg_start s2) (seg_end s1) = Fin 180
  /\ blocks (fold_left (loop_body 180) [s1; s2] init) = []
  /\ cluster_segments [s1; s2] 180 = ([mkBlock 0 190], 2%nat).
Proof.
  cbn zeta.
  assert (H : no_sentinel (mkSegment 0 5)).
  { apply nonneg_no_sentinel; unfold Qle; cbn; lia. }
  split; [exact H|]. split; [reflexivity|]. split; [|reflexivity].
  pose proof (gap_test_is_strict 180 [] (mkSegment 0 5) (mkSegment 185 190) H) as G.
  cbn zeta in G. destruct G as [G _].
  exact (proj1 (G 180 ltac:(reflexivity) ltac:(reflexivity))).
Defined.

(** The gap is the computed one.  With the doubles nearest to [0.3] and
    to [180.3] the exact difference is above 180, the subtraction
    returns 180, and the two segments are merged. *)
Example rounded_gap_merges :
  let a := mkSegment 0 (5404319552844595 # 18014398509481984) in
  let b := mkSegment (3171871143808205 # 17592186044416) 181 in
  180 < seg_start b - seg_end a
  /\ fsub (seg_start b) (seg_end a) = Fin 180
  /\ cluster_segments [a; b] 180
     = ([mkBlock 0 181], 2%nat).
Proof. cbn zeta. split; [reflexivity|]. split; vm_compute; reflexivity. Qed.

(** The two sides of the boundary on a pair: a gap of exactly 180 s merges,
    a gap of 180.01 s splits. *)
Example gap_equal_merges :
  cluster_segments [mkSegment 0 5; mkSegment 185 190] default_gap_threshold
  = ([mkBlock 0 190], 2%nat).
Proof. reflexivity. Qed.

Example gap_above_splits :
  cluster_segments [mkSegment 0 5; mkSegment (18501 # 100) 190] default_gap_threshold
  = ([mkBlock 0 5; mkBlock (18501 # 100) 190], 2%nat).
Proof. reflexivity. Qed.

(** The example of the design document. *)
Example cluster_example :
  cluster_segments [mkSegment 0 5; mkSegment 10 15; mkSegment 400 410] 180
  = ([mkBlock 0 15; mkBlock 400 410], 3%nat).
Proof. reflexivity. Qed.

End ClustererFacts.

(* ===================================================================== *)
(** * Properties of [find_media_files] *)
(* ===================================================================== *)
Module PathFacts.
Import Path.
Local Open Scope string_scope.

Lemma ascii_compare_refl (a : ascii) : Ascii.compare a a = Eq.
Proof. unfold Ascii.compare. apply N.compare_refl. Qed.

Lemma leb_cons (a b : ascii) (s t : string) :
  String.leb (String a s) (String b t) = true
  <-> (N_of_ascii a < N_of_ascii b)%N \/ (a = b /\ String.leb s t = true).
Proof.
  unfold String.leb. cbn [String.compare]. unfold Ascii.compare.
  destruct (N.compare_spec (N_of_ascii a) (N_of_ascii b)) as [E | L | G].
  - assert (a = b).
    { rewrite <- (ascii_N_embedding a), <- (ascii_N_embedding b), E. reflexivity. }
    split; [right; split; assumption | intros [H' | [_ H']]; [lia | exact H']].
  - split; [left; exact L | reflexivity].
  - split; [discriminate|]. intros [H' | [-> _]]; lia.
Qed.

Lemma leb_nil_l (s : string) : String.leb EmptyString s = true.
Proof. destruct s; reflexivity. Qed.

Lemma leb_nil_r (s : string) : String.leb s EmptyString = true -> s = EmptyString.
Proof. destruct s; [reflexivity | discriminate]. Qed.

Lemma str_le_trans : Transitive str_le.
Proof.
  unfold str_le. intros s1. induction s1 as [|a s1 IH]; intros s2 s3 H12 H23.
  - apply leb_nil_l.
  - destruct s2 as [|b s2]; [discriminate H12|].
    destruct s3 as [|c s3]; [discriminate H23|].
    apply leb_cons in H12. apply leb_cons in H23. apply leb_cons.
    destruct H12 as [L1 | [-> E1]], H23 as [L2 | [-> E2]]; try (left; lia).
    right. split; [reflexivity | eapply IH; eassumption].
Qed.

Lemma str_le_total : Total str_le.
Proof. intros s1 s2. apply String.leb_total. Qed.

Lemma str_le_antisym : AntiSymm (=) str_le.
Proof. intros s1 s2. apply String.leb_antisym. Qed.

#[global] Existing Instances str_le_trans str_le_total str_le_antisym.

Lemma leb_app_prefix (p s t : string) :
  String.leb (p ++ s) (p ++ t) = String.leb s t.
Proof.
  induction p as [|a p IH]; [reflexivity|].
  unfold String.leb in *. simpl. rewrite ascii_compare_refl. exact IH.
Qed.

Lemma rsplit_app (c : ascii) (s x y : string) :
  rsplit c s = Some (x, y) -> s = x ++ String c y.
Proof.
  revert x y. induction s as [|a s IH]; intros x y H; [discriminate|].
  cbn [rsplit] in H. destruct (rsplit c s) as [[x' y']|].
  - injection H as <- <-. exact (f_equal (String a) (IH x' y' eq_refl)).
  - destruct (Ascii.eqb_spec a c) as [->|]; [|discriminate].
    injection H as <- <-. reflexivity.
Qed.

Lemma append_nil_r' (a : string) : a ++ EmptyString = a.
Proof.
  induction a as [|x a IH]; [reflexivity|].
  exact (f_equal (String x) IH).
Qed.

Lemma splitext_name_app (name : string) :
  (splitext_name name).1 ++ (splitext_name name).2 = name.
Proof.
  unfold splitext_name. destruct (rsplit "." name) as [[root ext]|] eqn:E.
  - destruct (all_char "." root); cbn.
    + apply append_nil_r'.
    + symmetry. apply rsplit_app. exact E.
  - cbn. apply append_nil_r'.
Qed.

Lemma append_assoc' (a b c : string) : (a ++ b) ++ c = a ++ (b ++ c).
Proof.
  induction a as [|x a IH]; [reflexivity|].
  exact (f_equal (String x) IH).
Qed.

(** [splitext] splits: root and extension concatenate to the path. *)
Lemma splitext_app (p : string) : (splitext p).1 ++ (splitext p).2 = p.
Proof.
  unfold splitext. destruct (rsplit "/" p) as [[before name]|] eqn:E.
  - pose proof (splitext_name_app name) as Hn.
    destruct (splitext_name name) as [root ext]. cbn in *.
    rewrite (rsplit_app _ _ _ _ E), !append_assoc'. simpl. rewrite Hn. reflexivity.
  - apply splitext_name_app.
Qed.

Lemma lower_app (a b : string) : lower (a ++ b) = lower a ++ lower b.
Proof.
  induction a as [|x a IH]; [reflexivity|].
  exact (f_equal (String (lower_char x)) IH).
Qed.

Lemma endswith_refl (s : string) : endswith s s = true.
Proof.
  destruct s as [|a s]; [reflexivity|].
  change (String.eqb (String a s) (String a s) || endswith s (String a s) = true).
  rewrite String.eqb_refl. reflexivity.
Qed.

Lemma endswith_app (a b : string) : endswith (a ++ b) b = true.
Proof.
  induction a as [|x a IH]; [apply endswith_refl|].
  change (String.eqb (String x (a ++ b)) b || endswith (a ++ b) b = true).
  rewrite IH. apply orb_true_r.
Qed.

(** The extension is a suffix of the path, also after lowering. *)
Lemma lower_ext_suffix (p : string) :
  endswith (lower p) (lower (splitext p).2) = true.
Proof.
  rewrite <- (splitext_app p) at 1. rewrite lower_app. apply endswith_app.
Qed.

Lemma is_ascii_app (a b : string) : is_ascii (a ++ b) = is_ascii a && is_ascii b.
Proof.
  induction a as [|c a IH]; [reflexivity|].
  change ((nat_of_ascii c <? 128)%nat && is_ascii (a ++ b)
          = (nat_of_ascii c <? 128)%nat && is_ascii a && is_ascii b).
  rewrite IH. apply andb_assoc.
Qed.

Lemma is_ascii_ext (p : string) : is_ascii p = true -> is_ascii (splitext p).2 = true.
Proof.
  intros H. rewrite <- (splitext_app p), is_ascii_app in H.
  apply andb_true_iff in H as [_ H]. exact H.
Qed.

(** A name that does not start with a slash is joined by plain
    concatenation after a prefix that depends on the directory only. *)
Lemma join_prefix (dir : string) :
  exists pre, forall name, String.prefix "/" name = false -> join dir name = pre ++ name.
Proof.
  destruct (String.eqb dir EmptyString || endswith dir "/") eqn:E.
  - exists dir. intros name H. unfold join. rewrite H, E. reflexivity.
  - exists (dir ++ "/"). intros name H. unfold join. rewrite H, E.
    rewrite append_assoc'. reflexivity.
Qed.

End PathFacts.

(** The discovery: what [find_media_files] returns, writes and prints. *)
Module DiscoveryFacts.
Import Path PathFacts Env Discovery.
Local Open Scope string_scope.

Lemma elem_of_collect (W : World) (walk : list (string * list string)) (p : string) :
  p ∈ collect W walk
  <-> exists dir files f, (dir, files) ∈ walk /\ f ∈ files
        /\ str_lower W (splitext f).2 ∈ MEDIA_EXTENSIONS /\ p = join dir f.
Proof.
  unfold collect. rewrite list_elem_of_In, in_flat_map. split.
  - intros ([dir files] & Hw & Hp). apply in_map_iff in Hp as (f & <- & Hf).
    apply list_elem_of_In, list_elem_of_filter in Hf as [Hacc Hf].
    exists dir, files, f. repeat split; auto.
    + apply list_elem_of_In. exact Hw.
    + unfold accepted in Hacc. apply bool_decide_eq_true_1 in Hacc. exact Hacc.
  - intros (dir & files & f & Hw & Hf & Hext & ->).
    exists (dir, files). split; [apply list_elem_of_In; exact Hw|].
    apply in_map. apply list_elem_of_In, list_elem_of_filter. split; [|exact Hf].
    unfold accepted. apply bool_decide_eq_true_2. exact Hext.
Qed.

(** An accepted name ends with its extension, and the lowered extension
    is in the allow-list. *)
Lemma accepted_suffix (W : World) (f : string) :
  accepted W f = true ->
  exists stem ext, f = stem ++ ext /\ endswith f ext = true
                   /\ str_lower W ext ∈ MEDIA_EXTENSIONS.
Proof.
  intros H. unfold accepted in H. apply bool_decide_eq_true_1 in H.
  exists (splitext f).1, (splitext f).2. split; [|split; [|exact H]].
  - symmetry. apply splitext_app.
  - rewrite <- (splitext_app f) at 1. apply endswith_app.
Qed.

(** ** The writes of the debug log *)

Lemma appended_scan_files (W : World) (root : string) (files : list string) :
  appended (map (scan_file W root) files)
  = map (join root) (filter (fun f => accepted W f = true) files).
Proof.
  unfold appended. induction files as [|f files IH]; [reflexivity|].
  cbn [map omap list_omap]. unfold scan_file at 1.
  change (omap fst (map (scan_file W root) files))
    with (appended (map (scan_file W root) files)) in IH.
  rewrite filter_cons.
  destruct (accepted W f) eqn:E; cbn [fst].
  - rewrite decide_True by reflexivity. cbn [map]. f_equal. exact IH.
  - rewrite decide_False by discriminate. exact IH.
Qed.

Lemma appended_app (l1 l2 : list (option string * list Chunk)) :
  appended (l1 ++ l2) = (appended l1 ++ appended l2)%list.
Proof. unfold appended. apply omap_app. Qed.

Lemma appended_log_writes (W : World) (directory : string) :
  appended (log_writes W directory) = collect W (os_walk W directory).
Proof.
  unfold log_writes, collect.
  change (appended (?a :: ?b :: ?l)) with (appended l).
  induction (os_walk W directory) as [|[root files] walk IH]; [reflexivity|].
  cbn [flat_map]. rewrite appended_app.
  change (appended (?a :: ?l)) with (appended l) at 1.
  rewrite appended_scan_files, IH. reflexivity.
Qed.

(** The paths collected when the writes stop are those appended up to
    some point of the walk; all of them when no write raises. *)
Lemma run_writes_appended (W : World) (path : string)
    (writes : list (option string * list Chunk)) :
  forall media_files written,
    let r := run_writes W path writes media_files written in
    (exists k, r.1.1 = (media_files ++ take k (appended writes))%list)
    /\ (r.2 = None -> r.1.1 = (media_files ++ appended writes)%list).
Proof.
  induction writes as [|[file chunks] rest IH]; intros media_files written.
  - cbn. split; [exists O|]; rewrite ?app_nil_r; reflexivity.
  - cbn [run_writes].
    destruct (log_write_fails W path written chunks) as [msg|] eqn:E.
    + cbn. split; [|discriminate].
      destruct file as [p|]; [exists 1%nat | exists O]; cbn.
      * reflexivity.
      * rewrite app_nil_r. reflexivity.
    + destruct (IH (match file with
                    | Some p => (media_files ++ [p])%list
                    | None => media_files
                    end) (written ++ chunks)%list) as [[k Hk] Hall].
      cbn zeta. split.
      * destruct file as [p|].
        -- exists (S k). rewrite Hk, <- app_assoc. reflexivity.
        -- exists k. exact Hk.
      * intros Hn. rewrite (Hall Hn).
        destruct file as [p|]; [rewrite <- app_assoc|]; reflexivity.
Qed.

(** The debug log holds text lines only. *)
Lemma run_writes_lines (W : World) (path : string)
    (writes : list (option string * list Chunk)) :
  Forall (fun w => Forall (fun c => exists l, c = Line l) w.2) writes ->
  forall media_files written,
    Forall (fun c => exists l, c = Line l) written ->
    Forall (fun c => exists l, c = Line l)
           (run_writes W path writes media_files written).1.2.
Proof.
  induction 1 as [|[file chunks] rest Hc Hrest IH]; intros media_files written Hw.
  - exact Hw.
  - cbn [run_writes].
    destruct (log_write_fails W path written chunks); [exact Hw|].
    apply IH. apply Forall_app. split; [exact Hw | exact Hc].
Qed.

Lemma log_writes_lines (W : World) (directory : string) :
  Forall (fun w => Forall (fun c => exists l, c = Line l) w.2)
         (log_writes W directory).
Proof.
  unfold log_writes. repeat (constructor; [repeat constructor; eauto|]).
  induction (os_walk W directory) as [|[root files] walk IH]; [constructor|].
  cbn [flat_map]. constructor; [repeat constructor; eauto|].
  apply Forall_app. split; [|exact IH].
  apply Forall_forall. intros w Hw. apply list_elem_of_In, in_map_iff in Hw as (f & <- & _).
  unfold scan_file. destruct (accepted W f); repeat constructor; eauto.
Qed.

(** ** [find_media_files] as a value and a change of the surroundings *)

Lemma after_discovery_closed (W : World) (directory : string) (s : Sys) :
  after_discovery W directory s
  = mkSys (with_debug_log W directory (fs s)) (constructed s) (calls s)
          (stdout s ++ discovery_lines W directory) (clock s).
Proof.
  unfold with_debug_log, debug_log, discovery_lines, after_discovery,
    find_media_files.
  set (root := normalize W directory). set (path := debug_log_path W root).
  clearbody path.
  unfold mbind, M_bind, bind, mret, M_ret, ret, write_file, append_file, emit.
  destruct (debug_log_opens W path).
  - destruct (run_writes W path (log_writes W root) [] []) as [[mf written] [msg|]].
    + destruct (log_write_fails W path written _);
        cbn [fs constructed calls stdout clock res_sys].
      * rewrite lookup_insert_eq. reflexivity.
      * rewrite !lookup_insert_eq. cbn [default]. rewrite ?lookup_insert_eq.
        rewrite ?insert_insert_eq. reflexivity.
    + cbn [fs constructed calls stdout clock res_sys].
      rewrite lookup_insert_eq, app_nil_r. reflexivity.
  - cbn [fs constructed calls stdout clock res_sys]. rewrite lookup_empty.
    destruct s; reflexivity.
Qed.

Lemma find_media_files_eq (W : World) (directory : string) (s : Sys) :
  find_media_files W directory s
  = Ok (discovered W directory) (after_discovery W directory s).
Proof.
  unfold discovered, after_discovery, find_media_files.
  set (root := normalize W directory). set (path := debug_log_path W root).
  clearbody path.
  unfold mbind, M_bind, bind, mret, M_ret, ret, write_file, append_file, emit.
  destruct (debug_log_opens W path).
  - destruct (run_writes W path (log_writes W root) [] []) as [[mf written] [msg|]].
    + destruct (log_write_fails W path written _); reflexivity.
    + reflexivity.
  - reflexivity.
Qed.

Lemma bind_discovery {B} (W : World) (directory : string)
    (k : list string -> M B) (s : Sys) :
  (find_media_files W directory ≫= k) s
  = k (discovered W directory) (after_discovery W directory s).
Proof.
  unfold mbind, M_bind, bind. rewrite find_media_files_eq. reflexivity.
Qed.

Lemma after_discovery_calls (W : World) (directory : string) (s : Sys) :
  calls (after_discovery W directory s) = calls s.
Proof. rewrite after_discovery_closed. reflexivity. Qed.

Lemma after_discovery_constructed (W : World) (directory : string) (s : Sys) :
  constructed (after_discovery W directory s) = constructed s.
Proof. rewrite after_discovery_closed. reflexivity. Qed.

Lemma after_discovery_clock (W : World) (directory : string) (s : Sys) :
  clock (after_discovery W directory s) = clock s.
Proof. rewrite after_discovery_closed. reflexivity. Qed.

Lemma after_discovery_fs (W : World) (directory : string) (s : Sys) :
  fs (after_discovery W directory s) = with_debug_log W directory (fs s).
Proof. rewrite after_discovery_closed. reflexivity. Qed.

(** Discovery touches no file but its debug log. *)
Lemma with_debug_log_other (W : World) (directory : string)
    (disk : gmap string (list Chunk)) (p : string) :
  p <> debug_log_path W (normalize W directory) ->
  with_debug_log W directory disk !! p = disk !! p.
Proof.
  intros Hp. unfold with_debug_log. destruct (debug_log W directory); [|reflexivity].
  apply lookup_insert_ne. congruence.
Qed.

Lemma with_debug_log_self (W : World) (directory : string)
    (disk : gmap string (list Chunk)) (chunks : list Chunk) :
  debug_log W directory = Some chunks ->
  with_debug_log W directory disk !! debug_log_path W (normalize W directory)
  = Some chunks.
Proof. intros E. unfold with_debug_log. rewrite E. apply lookup_insert_eq. Qed.


Lemma discovery_split (W : World) (directory : string) :
  let root := normalize W directory in
  let path := debug_log_path W root in
  let r := run_writes W path (log_writes W root) [] [] in
  (debug_log_opens W path = false
   /\ discovered W directory = [] /\ debug_log W directory = None
   /\ discovery_lines W directory
      = [Fail ("[ERROR] Discovery failed: " ++ debug_log_error W path)])
  \/ (debug_log_opens W path = true
      /\ discovered W directory = merge_sort str_le r.1.1
      /\ exists chunks, debug_log W directory = Some chunks
           /\ Forall (fun c => exists l, c = Line l) chunks
           /\ match r.2 with
              | None => discovery_lines W directory = []
              | Some msg => discovery_lines W directory
                            = [Fail ("[ERROR] Discovery failed: " ++ msg)]
              end).
Proof.
  intros root path r.
  pose proof (run_writes_lines W path (log_writes W root)
                (log_writes_lines W root) [] [] (List.Forall_nil _)) as Hlines.
  fold r in Hlines.
  unfold discovered, debug_log, discovery_lines, after_discovery,
    find_media_files.
  fold root path. subst r. clearbody path.
  unfold mbind, M_bind, bind, mret, M_ret, ret, write_file, append_file, emit.
  destruct (debug_log_opens W path); [right | left].
  - split; [reflexivity|].
    destruct (run_writes W path (log_writes W root) [] []) as [[mf written] [msg|]];
      cbn [fst snd] in *.
    + destruct (log_write_fails W path written _);
        cbn [fs constructed calls stdout clock res_sys].
      * split; [reflexivity|]. exists written. rewrite lookup_insert_eq. auto.
      * split; [reflexivity|]. rewrite !lookup_insert_eq. cbn [default].
        rewrite ?lookup_insert_eq.
        eexists. split; [reflexivity|]. split; [|reflexivity].
        apply Forall_app. split; [exact Hlines|]. repeat constructor. eauto.
    + cbn [fs constructed calls stdout clock res_sys].
      split; [reflexivity|]. exists written. rewrite lookup_insert_eq. auto.
  - cbn [fs constructed calls stdout clock res_sys]. rewrite lookup_empty. auto.
Qed.

Lemma discovered_sorted (W : World) (directory : string) :
  StronglySorted str_le (discovered W directory).
Proof.
  destruct (discovery_split W directory) as [(_ & -> & _) | (_ & -> & _)].
  - constructor.
  - apply StronglySorted_merge_sort; apply _.
Qed.

(** Whatever happens to the debug log, the files returned are files of
    the walk that pass the test on the extension. *)
Lemma discovered_sub (W : World) (directory : string) (p : string) :
  p ∈ discovered W directory ->
  p ∈ collect W (os_walk W (normalize W directory)).
Proof.
  destruct (discovery_split W directory) as [(_ & -> & _) | (_ & -> & _)].
  - intros H. inversion H.
  - rewrite merge_sort_Permutation.
    destruct (run_writes_appended W (debug_log_path W (normalize W directory))
                (log_writes W (normalize W directory)) [] []) as [[k Hk] _].
    rewrite Hk, appended_log_writes. cbn [app]. intros H.
    rewrite <- (take_drop k (collect W _)). apply elem_of_app. left. exact H.
Qed.

Lemma discovery_ok_spec (W : World) (directory : string) :
  discovery_ok W directory = true ->
  debug_log_opens W (debug_log_path W (normalize W directory)) = true
  /\ discovered W directory
     = merge_sort str_le (collect W (os_walk W (normalize W directory)))
  /\ discovery_lines W directory = [].
Proof.
  unfold discovery_ok. intros H. apply andb_true_iff in H as [Hopen Hw].
  split; [exact Hopen|].
  destruct (discovery_split W directory)
    as [(Hno & _) | (_ & Hd & chunks & _ & _ & Hl)]; [congruence|].
  destruct (run_writes_appended W (debug_log_path W (normalize W directory))
              (log_writes W (normalize W directory)) [] []) as [_ Hall].
  destruct (run_writes W _ _ [] []) as [[mf written] [msg|]]; [discriminate|].
  cbn [fst snd] in *. rewrite Hd, (Hall eq_refl), appended_log_writes.
  split; [reflexivity | exact Hl].
Qed.

(** C8, as the code has it.  [find_media_files] returns, and its result
    is sorted in the order of [str] and holds only paths [join dir f] of
    files [f] met by the walk whose extension, lowered, is in
    [MEDIA_EXTENSIONS]; such a name ends with that extension, and when it
    is an ASCII name the lowered name ends with a member of the
    allow-list.  When the debug log that discovery writes beside the root
    cannot be opened, the result is empty; when it can, the result holds
    the accepted files met up to some point of the walk.  When that log
    can be opened and written to the end, the result holds exactly the
    accepted paths, as many times as the walk meets them, and for a
    directory whose files are [a.mp4], [b.txt] and [c.MKV], listed in any
    order, it is [a.mp4] then [c.MKV] under that directory. *)
Theorem discovery_allowlist_sorted (W : World) (directory : string) (s : Sys) :
  let root := normalize W directory in
  let found := discovered W directory in
  find_media_files W directory s = Ok found (after_discovery W directory s)
  /\ StronglySorted str_le found
  /\ (forall p, p ∈ found ->
        exists dir files f, (dir, files) ∈ os_walk W root /\ f ∈ files
          /\ str_lower W (splitext f).2 ∈ MEDIA_EXTENSIONS /\ p = join dir f)
  /\ (forall f, accepted W f = true ->
        exists stem ext, f = stem ++ ext /\ endswith f ext = true
                         /\ str_lower W ext ∈ MEDIA_EXTENSIONS)
  /\ (forall f, is_ascii f = true -> accepted W f = true ->
        exists e, e ∈ MEDIA_EXTENSIONS /\ endswith (lower f) e = true)
  /\ (debug_log_opens W (debug_log_path W root) = false -> found = [])
  /\ (debug_log_opens W (debug_log_path W root) = true ->
      exists k, found = merge_sort str_le (take k (collect W (os_walk W root))))
  /\ (discovery_ok W directory = true ->
        (forall p, p ∈ found
           <-> exists dir files f, (dir, files) ∈ os_walk W root /\ f ∈ files
                 /\ str_lower W (splitext f).2 ∈ MEDIA_EXTENSIONS
                 /\ p = join dir f)
        /\ found ≡ₚ collect W (os_walk W root)
        /\ (forall dir files,
              os_walk W root = [(dir, files)] ->
              files ≡ₚ ["a.mp4"; "b.txt"; "c.MKV"] ->
              found = [join dir "a.mp4"; join dir "c.MKV"])).
Proof.
  intros root found.
  split; [apply find_media_files_eq|].
  split; [apply discovered_sorted|].
  split; [intros p Hp; apply elem_of_collect, discovered_sub, Hp|].
  split; [apply accepted_suffix|].
  split.
  { intros f Hascii Hacc. unfold accepted in Hacc.
    apply bool_decide_eq_true_1 in Hacc. unfold str_lower in Hacc.
    rewrite (is_ascii_ext f Hascii) in Hacc.
    exists (lower (splitext f).2). split; [exact Hacc | apply lower_ext_suffix]. }
  split.
  { intros Hno. destruct (discovery_split W directory) as [(_ & E & _) | (Hyes & _)].
    - exact E.
    - fold root in Hyes. congruence. }
  split.
  { intros Hyes. destruct (discovery_split W directory) as [(Hno & _) | (_ & E & _)].
    - fold root in Hno. congruence.
    - destruct (run_writes_appended W (debug_log_path W root) (log_writes W root)
                  [] []) as [[k Hk] _].
      exists k. fold root found in E. rewrite E, Hk, appended_log_writes.
      reflexivity. }
  intros Hok. destruct (discovery_ok_spec W directory Hok) as (_ & Hfound & _).
  fold root found in Hfound.
  assert (Hperm : found ≡ₚ collect W (os_walk W root)).
  { rewrite Hfound. apply merge_sort_Permutation. }
  split; [|split; [exact Hperm|]].
  - intros p. rewrite Hperm. apply elem_of_collect.
  - intros dir files Hwalk Hfiles.
    apply (StronglySorted_unique str_le); [apply discovered_sorted | |].
    + destruct (join_prefix dir) as [pre Hpre].
      rewrite !Hpre by reflexivity.
      repeat constructor. unfold str_le. rewrite leb_app_prefix. reflexivity.
    + rewrite Hperm, Hwalk. unfold collect. cbn [flat_map]. rewrite app_nil_r.
      rewrite Hfiles. reflexivity.
Qed.

Lemma discovery_allowlist_sorted_witness :
  discovery_ok (Sample.world ["c.MKV"; "b.txt"; "a.mp4"]) "/d" = true
  /\ discovered (Sample.world ["c.MKV"; "b.txt"; "a.mp4"]) "/d"
     = ["/d/a.mp4"; "/d/c.MKV"].
Proof.
  split; [reflexivity|].
  destruct (discovery_allowlist_sorted (Sample.world ["c.MKV"; "b.txt"; "a.mp4"])
              "/d" Sample.blank) as (_ & _ & _ & _ & _ & _ & _ & H).
  destruct (H ltac:(reflexivity)) as (_ & _ & Hex).
  apply (Hex "/d" ["c.MKV"; "b.txt"; "a.mp4"]); [reflexivity|].
  apply Permutation_rev.
Defined.

(** C8 as stated fails: the directory holds [a.mp4], [b.txt] and [c.MKV],
    the debug log beside it cannot be opened, and [find_media_files]
    prints its complaint and returns the empty list.  And where the log
    can be written: a file named [.mp4], whose name ends with a suffix of
    the allow-list, is not returned, since [os.path.splitext] gives it no
    extension. *)
Lemma discovery_needs_debug_log :
  let W := Sample.locked (Sample.world ["a.mp4"; "b.txt"; "c.MKV"]) in
  os_walk W (normalize W "/d") = [("/d", ["a.mp4"; "b.txt"; "c.MKV"])]
  /\ accepted W "a.mp4" = true /\ accepted W "c.MKV" = true
  /\ find_media_files W "/d" Sample.blank
     = Ok [] (mkSys ∅ [] [] [Fail "[ERROR] Discovery failed: Permission denied"] O)
  /\ endswith ".mp4" ".mp4" = true
  /\ discovery_ok (Sample.world [".mp4"]) "/d" = true
  /\ discovered (Sample.world [".mp4"]) "/d" = [].
Proof. cbn zeta. repeat split; reflexivity. Qed.

(** A name made of an allow-listed suffix alone is a hidden file without
    extension for [os.path.splitext], and is not accepted. *)
Example dotfile_not_accepted (W : World) :
  accepted W ".mp4" = false /\ accepted W "a.MP4" = true
  /\ accepted W "a.mp4.txt" = false.
Proof. repeat split; reflexivity. Qed.

(** A write to the debug log that raises in the middle of the walk ends
    the discovery with the files accepted so far, the one whose line
    could not be written included. *)
Example failed_write_keeps_prefix :
  let W0 := Sample.world ["a.mp4"; "b.mp4"] in
  let W := {| os_path_abspath := os_path_abspath W0;
     os_walk := os_walk W0;
     nonascii_lower := nonascii_lower W0;
     debug_log_opens := debug_log_opens W0;
     debug_log_error := debug_log_error W0;
     log_write_fails := fun _ _ chunks =>
       match chunks with
       | [Line l] => if String.eqb l "  [ACCEPT] a.mp4" then Some "disk full" else None
       | _ => None
       end;
     extensions_repr := extensions_repr W0;
     script_dir := script_dir W0;
     isoformat := isoformat W0;
     whisper_init := whisper_init W0;
     whisper_transcribe := whisper_transcribe W0;
     silero_vad := silero_vad W0;
     float_sum := float_sum W0;
     format_fixed := format_fixed W0;
     str_of_num := str_of_num W0;
     str_of_json := str_of_json W0;
     str_strip := str_strip W0;
     json_loads := json_loads W0;
     embedder_installed := embedder_installed W0;
     embedder_init := embedder_init W0;
     find_transcripts := find_transcripts W0;
     transcript_chunks := transcript_chunks W0;
     embed_rank := embed_rank W0;
     analyze_errors := analyze_errors W0;
     analyze_raises := analyze_raises W0;
     detect_errors := detect_errors W0 |} in
  discovered W "/d" = ["/d/a.mp4"]
  /\ discovery_lines W "/d" = [Fail "[ERROR] Discovery failed: disk full"].
Proof. cbn zeta. split; vm_compute; reflexivity. Qed.

End DiscoveryFacts.

(* ===================================================================== *)
(** * Properties of the batch scans *)
(* ===================================================================== *)
Module BatchFacts.
Import Json Path Env Discovery Clusterer Batch.
Import BatchSpec DiscoveryFacts.
Local Open Scope string_scope.

(** ** Reasoning in [M] *)

Lemma bind_ok {A B} (m : M A) (k : A -> M B) (s s' : Sys) (a : A) :
  m s = Ok a s' -> (m ≫= k) s = k a s'.
Proof. intros H. unfold mbind, M_bind, bind. rewrite H. reflexivity. Qed.

Lemma bind_raised {A B} (m : M A) (k : A -> M B) (s s' : Sys) (msg : string) :
  m s = Raised msg s' -> (m ≫= k) s = Raised msg s'.
Proof. intros H. unfold mbind, M_bind, bind. rewrite H. reflexivity. Qed.

Lemma log_calls_nil (s : Sys) : log_calls [] s = s.
Proof. destruct s. unfold log_calls. cbn. rewrite app_nil_r. reflexivity. Qed.

Lemma log_calls_app (cs cs' : list Call) (s : Sys) :
  log_calls cs' (log_calls cs s) = log_calls (cs ++ cs') s.
Proof. unfold log_calls. cbn. rewrite app_assoc. reflexivity. Qed.

(** ** The per-file step of each scan *)

Lemma vad_entry_regular (W : World) (threshold : json) :
  regular (vad_entry W threshold).
Proof.
  intros p s. unfold entry_of, call_of, vad_entry, try_except, run_vad_scan.
  unfold mbind, M_bind, bind, mret, M_ret, ret. cbn.
  destruct (silero_vad W p threshold) as [msg | [[|t ts] total]]; cbn;
    (split; [reflexivity | eexists; split; [reflexivity | reflexivity]]).
Qed.

Lemma scan_entry_regular (W : World) (m : Model) (use_vad : bool) :
  regular (scan_entry W m use_vad).
Proof.
  intros p s. unfold entry_of, call_of, scan_entry, try_except, transcribe.
  unfold mbind, M_bind, bind, mret, M_ret, ret. cbn.
  destruct (whisper_transcribe W m p _) as [msg | [segments duration]]; cbn.
  - split; [reflexivity | eexists; split; reflexivity].
  - destruct (cluster_segments _ _) as [[|b bs] n]; cbn;
      (split; [reflexivity | eexists; split; reflexivity]).
Qed.

(** ** The loop in closed form *)

Section Loop.
Variables (skip_existing : bool) (existing : gmap string dict).
Variable process : string -> M (json * bool).
Hypothesis Hreg : regular process.

Lemma visit_closed (acc : list json * nat) (p : string) (s : Sys) :
  (forall prev, reused skip_existing existing p = Some prev ->
                is_Some (voice_of prev)) ->
  visit skip_existing existing process acc p s
  = Ok ((acc.1 ++ [out skip_existing existing process p])%list,
        count_voice acc.2 (voiced skip_existing existing process p))
       (log_calls (made_calls skip_existing existing process p) s).
Proof.
  intros Hc. destruct acc as [results fwv].
  unfold visit, out, voiced, made_calls, reused in *.
  assert (Hfresh :
    ('(entry, v) ← process p;
     mret ((results ++ [entry])%list, count_voice fwv v)) s
    = Ok ((results ++ [(entry_of process p).1])%list,
          count_voice fwv (entry_of process p).2)
         (log_calls (call_of process p) s)).
  { destruct (Hreg p s) as [Hp _].
    rewrite (bind_ok _ _ _ _ _ Hp).
    destruct (entry_of process p) as [e v]. reflexivity. }
  destruct (if skip_existing then existing !! p else None) as [prev|];
    [|exact Hfresh].
  destruct (has_key "error" prev); cbn [negb]; [exact Hfresh|].
  destruct (Hc prev eq_refl) as [v Hv]. unfold voice_of in *.
  rewrite Hv. cbn. rewrite log_calls_nil. reflexivity.
Qed.

Lemma scan_loop_closed (files : list string) :
  countable skip_existing existing files ->
  forall acc s,
    scan_loop skip_existing existing process files acc s
    = Ok ((acc.1 ++ map (out skip_existing existing process) files)%list,
          fold_left count_voice
            (map (voiced skip_existing existing process) files) acc.2)
         (log_calls (flat_map (made_calls skip_existing existing process) files)
                    s).
Proof.
  induction files as [|p rest IH]; intros Hc acc s.
  - cbn. rewrite app_nil_r, log_calls_nil. destruct acc. reflexivity.
  - cbn [scan_loop].
    rewrite (bind_ok _ _ _ _ _ (visit_closed acc p s
               (fun prev => Hc p prev (list_elem_of_here _ _)))).
    rewrite IH.
    + cbn [fst snd map flat_map fold_left].
      rewrite log_calls_app, <- app_assoc. reflexivity.
    + intros q prev Hq. apply Hc. apply list_elem_of_further. exact Hq.
Qed.

(** A reused entry without a [segments_found] that compares with [0]
    makes the whole loop raise. *)
Lemma scan_loop_raises (files : list string) :
  ~ countable skip_existing existing files ->
  forall acc s, exists msg s',
    scan_loop skip_existing existing process files acc s = Raised msg s'.
Proof.
  induction files as [|p rest IH]; intros Hn acc s.
  - exfalso. apply Hn. intros q prev Hq. inversion Hq.
  - cbn [scan_loop].
    destruct (reused skip_existing existing p) as [prev|] eqn:Hr.
    + destruct (voice_of prev) as [v|] eqn:Hv.
      * rewrite (bind_ok _ _ _ _ _ (visit_closed acc p s ltac:(
          intros prev' E; rewrite Hr in E; injection E as <-; eauto))).
        apply IH. intros Hc. apply Hn. intros q prev' Hq Hq'.
        apply elem_of_cons in Hq as [-> | Hq]; [|eauto].
        rewrite Hr in Hq'. injection Hq' as <-. eauto.
      * exists "TypeError", s. apply bind_raised.
        destruct acc as [results fwv]. unfold visit.
        unfold reused in Hr.
        destruct (if skip_existing then existing !! p else None) as [prev'|];
          [|discriminate].
        destruct (has_key "error" prev'); [discriminate|].
        injection Hr as ->. unfold voice_of in Hv. cbn. rewrite Hv.
        reflexivity.
    + rewrite (bind_ok _ _ _ _ _ (visit_closed acc p s ltac:(
        intros prev' E; rewrite Hr in E; discriminate))).
      apply IH. intros Hc. apply Hn. intros q prev' Hq Hq'.
      apply elem_of_cons in Hq as [-> | Hq]; [|eauto].
      rewrite Hr in Hq'. discriminate.
Qed.

End Loop.

(** ** Reports on disk *)

Lemma is_str_eq (p : string) (v : json) : is_str p v = true <-> v = JStr p.
Proof.
  destruct v; cbn; try (split; [discriminate | congruence]).
  rewrite String.eqb_eq. split; congruence.
Qed.

Lemma index_items_prior (items : list json) :
  forallb loadable items = true ->
  forall acc p,
    index_items items acc !! p
    = match prior_entry p items with
      | Some d => Some d
      | None => acc !! p
      end.
Proof.
  induction items as [|r rest IH]; intros Hl acc p; [reflexivity|].
  cbn in Hl. apply andb_true_iff in Hl as [Hr Hrest].
  cbn [index_items prior_entry].
  destruct r as [| | |str|l|d]; cbn in Hr; try discriminate.
  - apply negb_true_iff in Hr. rewrite Hr, (IH Hrest).
    destruct (prior_entry p rest); reflexivity.
  - apply negb_true_iff in Hr. rewrite Hr, (IH Hrest).
    destruct (prior_entry p rest); reflexivity.
  - unfold names.
    destruct (get "file" d) as [[| | |q| |]|] eqn:Hf; try discriminate;
      rewrite (IH Hrest); destruct (prior_entry p rest); try reflexivity.
    cbn. destruct (String.eqb_spec p q) as [->|Hne].
    + apply lookup_insert_eq.
    + apply lookup_insert_ne. congruence.
Qed.

Lemma index_report_entries (data : json) :
  index_report data = index_items (report_entries data) ∅.
Proof.
  destruct data as [| | | | |d]; try reflexivity.
  cbn. destruct (get "results" d) as [[]|]; reflexivity.
Qed.

(** An indexed entry names the path it is indexed under. *)
Lemma index_items_names (items : list json) :
  forall acc p d,
    index_items items acc !! p = Some d ->
    acc !! p = Some d \/ get "file" d = Some (JStr p).
Proof.
  induction items as [|r rest IH]; intros acc p d H; [left; exact H|].
  cbn [index_items] in H.
  destruct r as [| | |str|l|e]; try (left; exact H).
  - destruct (contains "file" str); [left; exact H | eauto].
  - destruct (existsb (is_str "file") l); [left; exact H | eauto].
  - destruct (get "file" e) as [[| | |q| |]|] eqn:Hf; eauto.
    destruct (IH _ _ _ H) as [Hacc | Hd]; [|right; exact Hd].
    destruct (decide (q = p)) as [->|Hne].
    + rewrite lookup_insert_eq in Hacc. injection Hacc as <-. right. exact Hf.
    + rewrite lookup_insert_ne in Hacc by exact Hne. left. exact Hacc.
Qed.

Lemma load_existing_eq (skip_existing : bool) (path : string) (s : Sys) :
  load_existing skip_existing path s = Ok (existing_of skip_existing path s) s.
Proof.
  unfold load_existing, existing_of, path_exists, json_load.
  unfold mbind, M_bind, bind, mret, M_ret, ret.
  destruct skip_existing; cbn [andb]; [|reflexivity].
  destruct (fs s !! path) as [chunks|] eqn:Hp.
  - rewrite bool_decide_eq_true_2 by eauto. cbn. rewrite Hp.
    destruct chunks as [|[l|j] [|? ?]]; reflexivity.
  - rewrite bool_decide_eq_false_2 by (intros [? ?]; discriminate). reflexivity.
Qed.

Lemma run_batch_vad_scan_closed (W : World) (directory : string)
    (threshold : json) (report_path : option string) (skip_existing : bool)
    (s : Sys) :
  let files := discovered W directory in
  let path := resolve W report_path in
  let s0 := after_discovery W directory s in
  let existing := existing_of skip_existing path s0 in
  let process := vad_entry W threshold in
  countable skip_existing existing files ->
  run_batch_vad_scan W directory threshold report_path skip_existing s
  = Ok tt (after_scan path
             (vad_report (isoformat W (clock s)) directory threshold
                (length files)
                (fold_left count_voice
                   (map (voiced skip_existing existing process) files) O)
                (map (out skip_existing existing process) files))
             (flat_map (made_calls skip_existing existing process) files) s0).
Proof.
  intros files path s0 existing process Hc.
  unfold run_batch_vad_scan. rewrite bind_discovery. fold files s0.
  fold (resolve W report_path). fold path.
  rewrite (bind_ok _ _ _ _ _ (load_existing_eq skip_existing path s0)).
  fold existing.
  rewrite (bind_ok _ _ _ _ _
             (scan_loop_closed skip_existing existing process
                (vad_entry_regular W threshold) files Hc ([], O) s0)).
  cbn [fst snd app].
  unfold mbind, M_bind, bind, now, json_dump, after_scan, log_calls.
  cbn [fs constructed calls stdout clock].
  subst s0. rewrite after_discovery_clock. reflexivity.
Qed.

Lemma run_batch_vad_scan_raises (W : World) (directory : string)
    (threshold : json) (report_path : option string) (skip_existing : bool)
    (s : Sys) :
  ~ countable skip_existing
      (existing_of skip_existing (resolve W report_path)
         (after_discovery W directory s))
      (discovered W directory) ->
  exists msg s',
    run_batch_vad_scan W directory threshold report_path skip_existing s
    = Raised msg s'.
Proof.
  intros Hn. unfold run_batch_vad_scan. rewrite bind_discovery.
  fold (resolve W report_path).
  rewrite (bind_ok _ _ _ _ _ (load_existing_eq skip_existing _ _)).
  destruct (scan_loop_raises skip_existing _ (vad_entry W threshold)
              (vad_entry_regular W threshold) _ Hn ([], O)
              (after_discovery W directory s)) as (msg & s' & E).
  exists msg, s'. apply bind_raised. exact E.
Qed.

(** [run_batch_scanner], up to the closing summary. *)
Lemma run_batch_scanner_closed (W : World) (directory : string)
    (use_vad : bool) (report_path : option string) (model : option Model)
    (skip_existing : bool) (s : Sys) :
  (model = None -> whisper_init W "tiny.en" = None) ->
  let m := match model with
           | Some m => m
           | None => mkModel "tiny.en" (length (constructed s))
           end in
  let s0 := after_discovery W directory s in
  let s1 := match model with
            | Some _ => s0
            | None => mkSys (fs s0) (constructed s0 ++ ["tiny.en"]) (calls s0)
                            (stdout s0) (clock s0)
            end in
  let files := discovered W directory in
  let path := resolve W report_path in
  let existing := existing_of skip_existing path s0 in
  let process := scan_entry W m use_vad in
  countable skip_existing existing files ->
  res_sys (run_batch_scanner W directory use_vad report_path model skip_existing s)
  = after_scan path
      (scanner_report (isoformat W (clock s)) directory (length files)
         (fold_left count_voice
            (map (voiced skip_existing existing process) files) O)
         (map (out skip_existing existing process) files))
      (flat_map (made_calls skip_existing existing process) files) s1.
Proof.
  intros Hinit m s0 s1 files path existing process Hc.
  unfold run_batch_scanner. rewrite bind_discovery. fold files s0.
  fold (resolve W report_path). fold path.
  assert (Hm : (match model with
                | None => new_model W "tiny.en"
                | Some m0 => mret m0
                end) s0 = Ok m s1).
  { subst m s1. destruct model as [m0|]; [reflexivity|].
    unfold new_model. rewrite (Hinit eq_refl). subst s0.
    rewrite after_discovery_constructed. reflexivity. }
  rewrite (bind_ok _ _ _ _ _ Hm).
  assert (Hex : existing_of skip_existing path s1 = existing).
  { subst s1 existing. destruct model; reflexivity. }
  rewrite (bind_ok _ _ _ _ _ (load_existing_eq skip_existing path s1)), Hex.
  rewrite (bind_ok _ _ _ _ _
             (scan_loop_closed skip_existing existing process
                (scan_entry_regular W m use_vad) files Hc ([], O) s1)).
  cbn [fst snd app].
  unfold mbind, M_bind, bind, now, json_dump, after_scan, log_calls.
  cbn [fs constructed calls stdout clock].
  assert (Hclock : clock s1 = clock s).
  { subst s1 s0. destruct model; cbn [clock]; apply after_discovery_clock. }
  rewrite Hclock.
  destruct (forallb summary_ok _); reflexivity.
Qed.

(** ** Resuming *)

Lemma map_lookup {A B} (f : A -> B) (l : list A) (i : nat) :
  map f l !! i = f <$> (l !! i).
Proof. revert i. induction l as [|x l IH]; intros [|i]; cbn; auto. Qed.

Lemma existing_of_prior (path : string) (s : Sys) (data : json) (p : string) :
  fs s !! path = Some [Doc data] ->
  forallb loadable (report_entries data) = true ->
  existing_of true path s !! p = prior_entry p (report_entries data).
Proof.
  intros Hd Hl. unfold existing_of. rewrite Hd, index_report_entries.
  rewrite (index_items_prior _ Hl). destruct (prior_entry p _); reflexivity.
Qed.

Lemma resumable_countable (path : string) (s : Sys) (data : json)
    (files : list string) :
  fs s !! path = Some [Doc data] ->
  forallb loadable (report_entries data) = true ->
  resumable files (report_entries data) = true ->
  countable true (existing_of true path s) files.
Proof.
  intros Hd Hl Hr p prev Hp Hre. unfold resumable in Hr.
  rewrite forallb_forall in Hr. specialize (Hr p).
  rewrite <- list_elem_of_In in Hr. specialize (Hr Hp).
  unfold reused in Hre. rewrite (existing_of_prior path s data p Hd Hl) in Hre.
  destruct (prior_entry p (report_entries data)) as [prev'|]; [|discriminate].
  destruct (has_key "error" prev'); [discriminate|]. injection Hre as ->.
  cbn in Hr. unfold has_voice_count in Hr.
  destruct (voice_of prev); [eauto | discriminate].
Qed.

Lemma made_calls_spec (skip_existing : bool) (existing : gmap string dict)
    (process : string -> M (json * bool)) (files : list string) (c : Call) :
  regular process ->
  c ∈ flat_map (made_calls skip_existing existing process) files ->
  call_path c ∈ files /\ reused skip_existing existing (call_path c) = None.
Proof.
  intros Hreg Hc. apply list_elem_of_In, in_flat_map in Hc as (q & Hq & Hc).
  apply list_elem_of_In in Hq. unfold made_calls in Hc.
  destruct (reused skip_existing existing q) eqn:Hr; [inversion Hc|].
  destruct (Hreg q empty_sys) as [_ (c' & Hc' & Hpath)].
  rewrite Hc' in Hc. destruct Hc as [<- | []]. rewrite Hpath. auto.
Qed.

Lemma made_calls_fresh (skip_existing : bool) (existing : gmap string dict)
    (process : string -> M (json * bool)) (files : list string) (p : string) :
  regular process -> p ∈ files -> reused skip_existing existing p = None ->
  exists c, c ∈ flat_map (made_calls skip_existing existing process) files
            /\ call_path c = p.
Proof.
  intros Hreg Hp Hr. destruct (Hreg p empty_sys) as [_ (c & Hc & Hpath)].
  exists c. split; [|exact Hpath].
  apply list_elem_of_In, in_flat_map. exists p. split.
  - apply list_elem_of_In. exact Hp.
  - unfold made_calls. rewrite Hr, Hc. left. reflexivity.
Qed.

Lemma new_calls_after_scan (path : string) (report : json) (cs : list Call)
    (s s1 : Sys) :
  calls s1 = calls s -> new_calls s (after_scan path report cs s1) = cs.
Proof.
  intros E. unfold new_calls, after_scan. cbn. rewrite E.
  apply drop_app_length.
Qed.

(** The contract of a resumed scan, from the closed form of its loop. *)
Lemma resumed_after_scan (process : string -> M (json * bool))
    (files : list string) (path : string) (data report : json) (s s0 s1 : Sys) :
  regular process ->
  fs s0 !! path = Some [Doc data] ->
  forallb loadable (report_entries data) = true ->
  calls s1 = calls s ->
  report_entries report = map (out true (existing_of true path s0) process) files ->
  resumed files path (report_entries data) s
    (after_scan path report
       (flat_map (made_calls true (existing_of true path s0) process) files) s1).
Proof.
  intros Hreg Hd Hl Hcalls Hentries. exists report. split; [|split].
  - cbn. apply lookup_insert_eq.
  - rewrite Hentries. apply length_map.
  - intros i p prev Hi Hprior.
    rewrite (new_calls_after_scan _ _ _ _ _ Hcalls).
    assert (Hex : existing_of true path s0 !! p = Some prev).
    { rewrite (existing_of_prior path s0 data p Hd Hl). exact Hprior. }
    split; intros Herr.
    + assert (Hre : reused true (existing_of true path s0) p = Some prev).
      { unfold reused. rewrite Hex, Herr. reflexivity. }
      split.
      * rewrite Hentries, map_lookup, Hi.
        change (Some (out true (existing_of true path s0) process p)
                = Some (JObj prev)).
        unfold out. rewrite Hre. reflexivity.
      * intros c Hc Hp.
        destruct (made_calls_spec _ _ _ _ _ Hreg Hc) as [_ Hnone].
        rewrite Hp, Hre in Hnone. discriminate.
    + apply (made_calls_fresh true _ process files p Hreg).
      * eapply list_elem_of_lookup_2. exact Hi.
      * unfold reused. rewrite Hex, Herr. reflexivity.
Qed.

(** Discovery leaves a report alone that is not its debug log. *)
Lemma report_after_discovery (W : World) (directory path : string) (s : Sys) :
  path <> debug_log_path W (normalize W directory) ->
  fs (after_discovery W directory s) !! path = fs s !! path.
Proof.
  intros Hp. rewrite after_discovery_fs. apply with_debug_log_other. exact Hp.
Qed.

(** C3, as the code has it.  A batch scan run with [skip_existing] on a
    disk that holds a prior report (one the indexing loop reads to its
    end, and whose reusable entries have a [segments_found] that is a
    number), at a path other than that of the debug log which discovery
    rewrites before the report is read: every discovered file whose
    prior entry has no ["error"] gets that very entry at its place in the
    new results and no backend call is made on it; every discovered file
    whose prior entry has an ["error"] is processed again.  This holds of
    [run_batch_vad_scan], which returns, and of [run_batch_scanner]. *)
Theorem resume_reuses_clean_entries (W : World) (directory : string)
    (threshold : json) (use_vad : bool) (report_path : option string)
    (model : option Model) (s : Sys) (data : json) :
  let files := discovered W directory in
  let path := resolve W report_path in
  path <> debug_log_path W (normalize W directory) ->
  fs s !! path = Some [Doc data] ->
  forallb loadable (report_entries data) = true ->
  resumable files (report_entries data) = true ->
  (model = None -> whisper_init W "tiny.en" = None) ->
  (exists s',
      run_batch_vad_scan W directory threshold report_path true s = Ok tt s'
      /\ resumed files path (report_entries data) s s')
  /\ resumed files path (report_entries data) s
       (res_sys (run_batch_scanner W directory use_vad report_path model true s)).
Proof.
  intros files path Hpath Hd Hl Hr Hinit.
  set (s0 := after_discovery W directory s).
  assert (Hd0 : fs s0 !! path = Some [Doc data]).
  { subst s0. rewrite (report_after_discovery W directory path s Hpath). exact Hd. }
  pose proof (resumable_countable path s0 data files Hd0 Hl Hr) as Hc.
  split.
  - eexists. split.
    + apply (run_batch_vad_scan_closed W directory threshold report_path true s Hc).
    + apply (resumed_after_scan (vad_entry W threshold) files path data _ s s0 s0);
        auto using vad_entry_regular.
      apply after_discovery_calls.
  - rewrite (run_batch_scanner_closed W directory use_vad report_path model
               true s Hinit Hc).
    apply (resumed_after_scan _ files path data _ s s0);
      auto using scan_entry_regular.
    destruct model; cbn [calls]; apply after_discovery_calls.
Qed.

Lemma resume_reuses_clean_entries_witness :
  let W := Sample.world ["a.mp4"; "bad.mp4"] in
  exists s',
    run_batch_vad_scan W "/d" (JNum (1 # 2)) (Some "/r.json") true
      Sample.with_report = Ok tt s'
    /\ resumed ["/d/a.mp4"; "/d/bad.mp4"] "/r.json"
         (report_entries Sample.prior_report) Sample.with_report s'.
Proof.
  cbn zeta.
  exact (proj1 (resume_reuses_clean_entries
                  (Sample.world ["a.mp4"; "bad.mp4"]) "/d" (JNum (1 # 2)) true
                  (Some "/r.json") None Sample.with_report Sample.prior_report
                  ltac:(discriminate) ltac:(reflexivity) ltac:(reflexivity)
                  ltac:(reflexivity) ltac:(reflexivity))).
Defined.

(** C3 as stated fails: the prior report lies where discovery writes its
    debug log, [/scan_debug.log] for the directory [/d].  It holds an
    entry without error for [/d/a.mp4], which is discovered; the scan,
    run with [skip_existing], makes a backend call on that file all the
    same, and the entry it saves for the file is not the prior one. *)
Lemma resume_loses_report_at_debug_log :
  let W := Sample.world ["a.mp4"] in
  let s := mkSys {[ "/scan_debug.log" := [Doc Sample.prior_report] ]} [] [] [] O in
  let s' := res_sys (run_batch_vad_scan W "/d" (JNum (1 # 2))
                       (Some "/scan_debug.log") true s) in
  discovered W "/d" = ["/d/a.mp4"]
  /\ prior_entry "/d/a.mp4" (report_entries Sample.prior_report)
     = Some Sample.clean_a
  /\ has_key "error" Sample.clean_a = false
  /\ new_calls s s' = [VadScan "/d/a.mp4"]
  /\ exists report,
       fs s' !! "/scan_debug.log" = Some [Doc report]
       /\ JObj Sample.clean_a ∉ report_entries report.
Proof.
  cbn zeta. split; [reflexivity|]. split; [reflexivity|]. split; [reflexivity|].
  split; [vm_compute; reflexivity|].
  eexists. split; [vm_compute; reflexivity|].
  intros H. cbn in H.
  apply elem_of_cons in H as [H | H]; [discriminate H|]. inversion H.
Qed.

(** ** The shape of the entries *)

Lemma vad_entry_shape (W : World) (threshold : json) (p : string) :
  entry_for p (entry_of (vad_entry W threshold) p).1
              (entry_of (vad_entry W threshold) p).2.
Proof.
  unfold entry_of, vad_entry, try_except, run_vad_scan.
  unfold mbind, M_bind, bind, mret, M_ret, ret. cbn.
  destruct (silero_vad W p threshold) as [msg | [[|t ts] total]]; cbn;
    eexists; (split; [reflexivity | split; [reflexivity|]]); cbn;
    try discriminate; reflexivity.
Qed.

Lemma cluster_nonempty_count (segments : list Segment) (T : Q) (b : Block)
    (bs : list Block) (n : nat) :
  cluster_segments segments T = (b :: bs, n) -> exists k, n = S k.
Proof.
  intros E. pose proof (ClustererFacts.cluster_count segments T) as Hn.
  rewrite E in Hn. cbn in Hn.
  destruct segments as [|s rest]; [discriminate E|].
  exists (length rest). exact Hn.
Qed.

Lemma scan_entry_shape (W : World) (m : Model) (use_vad : bool) (p : string) :
  entry_for p (entry_of (scan_entry W m use_vad) p).1
              (entry_of (scan_entry W m use_vad) p).2.
Proof.
  unfold entry_of, scan_entry, try_except, transcribe.
  unfold mbind, M_bind, bind, mret, M_ret, ret. cbn.
  destruct (whisper_transcribe W m p _) as [msg | [segments duration]]; cbn.
  - eexists; (split; [reflexivity | split; [reflexivity|]]); cbn. discriminate.
  - destruct (cluster_segments _ _) as [[|b bs] n] eqn:E; cbn.
    + eexists; (split; [reflexivity | split; [reflexivity|]]). reflexivity.
    + destruct (cluster_nonempty_count _ _ _ _ _ E) as [k ->].
      eexists; (split; [reflexivity | split; [reflexivity|]]). reflexivity.
Qed.

Lemma existing_of_names (skip_existing : bool) (path : string) (s : Sys)
    (p : string) (d : dict) :
  existing_of skip_existing path s !! p = Some d ->
  get "file" d = Some (JStr p).
Proof.
  unfold existing_of. intros H.
  destruct skip_existing; [|rewrite lookup_empty in H; discriminate].
  destruct (fs s !! path) as [[|[l|data] [|? ?]]|];
    try (rewrite lookup_empty in H; discriminate).
  rewrite index_report_entries in H.
  destruct (index_items_names _ _ _ _ H) as [H0 | H1]; [|exact H1].
  rewrite lookup_empty in H0. discriminate.
Qed.

Lemma reused_inv (skip_existing : bool) (existing : gmap string dict)
    (p : string) (prev : dict) :
  reused skip_existing existing p = Some prev ->
  skip_existing = true /\ existing !! p = Some prev
  /\ has_key "error" prev = false.
Proof.
  unfold reused. destruct skip_existing; [|discriminate].
  destruct (existing !! p) as [d|]; [|discriminate].
  destruct (has_key "error" d) eqn:E; [discriminate|].
  intros [= <-]. auto.
Qed.

Lemma countableb_spec (skip_existing : bool) (existing : gmap string dict)
    (files : list string) :
  countableb skip_existing existing files = true
  <-> countable skip_existing existing files.
Proof.
  unfold countableb, countable. rewrite forallb_forall. split.
  - intros H p prev Hp Hr. apply list_elem_of_In in Hp. specialize (H p Hp).
    rewrite Hr in H. unfold has_voice_count in H.
    destruct (voice_of prev); [eauto | discriminate].
  - intros H p Hp. apply list_elem_of_In in Hp.
    destruct (reused skip_existing existing p) as [prev|] eqn:Hr; [|reflexivity].
    destruct (H p prev Hp Hr) as [v Hv]. unfold has_voice_count. rewrite Hv.
    reflexivity.
Qed.

(** In a resumed scan the entry put out for a file names that file. *)
Lemma out_entry_for (skip_existing : bool) (path : string) (s : Sys)
    (process : string -> M (json * bool)) (files : list string) (p : string) :
  (forall q, entry_for q (entry_of process q).1 (entry_of process q).2) ->
  countable skip_existing (existing_of skip_existing path s) files ->
  p ∈ files ->
  entry_for p (out skip_existing (existing_of skip_existing path s) process p)
              (voiced skip_existing (existing_of skip_existing path s) process p).
Proof.
  intros Hshape Hc Hp. unfold out, voiced.
  destruct (reused _ _ p) as [prev|] eqn:Hr; [|apply Hshape].
  destruct (reused_inv _ _ _ _ Hr) as (_ & Hex & Herr).
  destruct (Hc p prev Hp Hr) as [v Hv].
  exists prev. split; [reflexivity|]. split.
  - eapply existing_of_names. exact Hex.
  - intros _. rewrite Hv. reflexivity.
Qed.

(** ** What the saved report contains *)

Lemma Forall2_map_r {A B} (P : A -> B -> Prop) (f : A -> B) (l : list A) :
  (forall x, x ∈ l -> P x (f x)) -> Forall2 P l (map f l).
Proof.
  induction l as [|x l IH]; intros H; cbn; constructor.
  - apply H. left.
  - apply IH. intros y Hy. apply H. right. exact Hy.
Qed.

(** The calls of a resumed loop are made on the files processed anew. *)
Lemma made_calls_retried (process : string -> M (json * bool))
    (existing : gmap string dict) (prior : list json) (files : list string) :
  regular process ->
  (forall p, existing !! p = prior_entry p prior) ->
  map call_path (flat_map (made_calls true existing process) files)
  = retried files prior.
Proof.
  intros Hreg Hex. unfold retried.
  induction files as [|p files IH]; [reflexivity|].
  cbn [flat_map List.filter]. rewrite map_app, IH.
  unfold made_calls at 1, reused. rewrite Hex.
  destruct (Hreg p empty_sys) as [_ (c & Hc & Hpath)].
  destruct (prior_entry p prior) as [prev|].
  - destruct (has_key "error" prev); [rewrite Hc; cbn; rewrite Hpath|];
      reflexivity.
  - rewrite Hc. cbn. rewrite Hpath. reflexivity.
Qed.

Lemma follows_after_scan (process : string -> M (json * bool))
    (files : list string) (path : string) (data report : json) (s s0 s1 : Sys) :
  regular process ->
  (forall q, entry_for q (entry_of process q).1 (entry_of process q).2) ->
  fs s0 !! path = Some [Doc data] ->
  forallb loadable (report_entries data) = true ->
  countable true (existing_of true path s0) files ->
  calls s1 = calls s ->
  report_entries report = map (out true (existing_of true path s0) process) files ->
  follows_discovery files path (report_entries data)
    (fun p => (entry_of process p).1) s
    (after_scan path report
       (flat_map (made_calls true (existing_of true path s0) process) files) s1).
Proof.
  intros Hreg Hshape Hd Hl Hc Hcalls Hentries. exists report.
  assert (Hall : Forall2 (fun p r =>
                  exists d, r = JObj d /\ get "file" d = Some (JStr p)
                    /\ match prior_entry p (report_entries data) with
                       | Some prev =>
                           if has_key "error" prev
                           then r = (entry_of process p).1 else d = prev
                       | None => r = (entry_of process p).1
                       end)
               files (report_entries report)).
  { rewrite Hentries. apply Forall2_map_r. intros p Hp.
    destruct (out_entry_for true path s0 process files p Hshape Hc Hp)
      as (d & Hd1 & Hd2 & _).
    exists d. split; [exact Hd1|]. split; [exact Hd2|].
    unfold out in *. unfold reused in *.
    rewrite (existing_of_prior path s0 data p Hd Hl) in *.
    destruct (prior_entry p (report_entries data)) as [prev|]; [|reflexivity].
    destruct (has_key "error" prev); [reflexivity | congruence]. }
  split; [cbn; apply lookup_insert_eq|]. split; [exact Hall|]. split.
  - intros d q Hq Hnot Hin.
    apply list_elem_of_lookup in Hin as [i Hi].
    destruct (Forall2_lookup_r _ _ _ _ _ Hall Hi) as (p & Hp & d' & E & Hf & _).
    injection E as ->. rewrite Hq in Hf. injection Hf as ->.
    apply Hnot. eapply list_elem_of_lookup_2. exact Hp.
  - rewrite (new_calls_after_scan _ _ _ _ _ Hcalls).
    apply made_calls_retried; [exact Hreg|].
    intros p. apply (existing_of_prior path s0 data p Hd Hl).
Qed.

(** C4, as the code has it.  After a resumed batch scan whose prior
    report is not the debug log of the discovery, the saved report has
    exactly one entry per currently discovered file, in discovery order:
    the prior entry, untouched, for a file whose prior entry has no
    error, and for every other discovered file the entry that the scan
    makes for it from a backend call; the backend is called once on each
    of these files, in order, and on no other.  Nothing else is kept: a
    prior entry of a file outside the discovery result is not in the
    saved report. *)
Theorem resume_report_follows_discovery (W : World) (directory : string)
    (threshold : json) (use_vad : bool) (report_path : option string)
    (model : option Model) (s : Sys) (data : json) :
  let files := discovered W directory in
  let path := resolve W report_path in
  let m := match model with
           | Some m => m
           | None => mkModel "tiny.en" (length (constructed s))
           end in
  path <> debug_log_path W (normalize W directory) ->
  fs s !! path = Some [Doc data] ->
  forallb loadable (report_entries data) = true ->
  resumable files (report_entries data) = true ->
  (model = None -> whisper_init W "tiny.en" = None) ->
  (exists s',
      run_batch_vad_scan W directory threshold report_path true s = Ok tt s'
      /\ follows_discovery files path (report_entries data)
           (fun p => (entry_of (vad_entry W threshold) p).1) s s')
  /\ follows_discovery files path (report_entries data)
       (fun p => (entry_of (scan_entry W m use_vad) p).1) s
       (res_sys (run_batch_scanner W directory use_vad report_path model true s)).
Proof.
  intros files path m Hpath Hd Hl Hr Hinit.
  set (s0 := after_discovery W directory s).
  assert (Hd0 : fs s0 !! path = Some [Doc data]).
  { subst s0. rewrite (report_after_discovery W directory path s Hpath). exact Hd. }
  pose proof (resumable_countable path s0 data files Hd0 Hl Hr) as Hc.
  split.
  - eexists. split.
    + apply (run_batch_vad_scan_closed W directory threshold report_path true s Hc).
    + apply (follows_after_scan (vad_entry W threshold) files path data _ s s0 s0);
        auto using vad_entry_shape, vad_entry_regular.
      apply after_discovery_calls.
  - rewrite (run_batch_scanner_closed W directory use_vad report_path model
               true s Hinit Hc).
    apply (follows_after_scan (scan_entry W m use_vad) files path data _ s s0);
      [apply scan_entry_regular | apply scan_entry_shape | exact Hd0 | exact Hl
      | exact Hc | | reflexivity].
    destruct model; cbn [calls]; apply after_discovery_calls.
Qed.

Lemma resume_report_follows_discovery_witness :
  let W := Sample.world ["a.mp4"; "bad.mp4"] in
  exists s',
    run_batch_vad_scan W "/d" (JNum (1 # 2)) (Some "/r.json") true
      Sample.with_report = Ok tt s'
    /\ follows_discovery ["/d/a.mp4"; "/d/bad.mp4"] "/r.json"
         (report_entries Sample.prior_report)
         (fun p => (entry_of (vad_entry W (JNum (1 # 2))) p).1)
         Sample.with_report s'.
Proof.
  cbn zeta.
  exact (proj1 (resume_report_follows_discovery
                  (Sample.world ["a.mp4"; "bad.mp4"]) "/d" (JNum (1 # 2)) true
                  (Some "/r.json") None Sample.with_report Sample.prior_report
                  ltac:(discriminate) ltac:(reflexivity) ltac:(reflexivity)
                  ltac:(reflexivity) ltac:(reflexivity))).
Defined.

(** C4 as stated fails: the prior report holds an entry for [/d/old.mp4],
    the directory now holds [a.mp4] and [bad.mp4] only, and the report
    saved by the resumed scan has lost that entry. *)
Lemma resume_drops_undiscovered_entry :
  let W := Sample.world ["a.mp4"; "bad.mp4"] in
  let s' := res_sys (run_batch_vad_scan W "/d" (JNum (1 # 2)) (Some "/r.json")
                       true Sample.with_report) in
  exists report,
    fs s' !! "/r.json" = Some [Doc report]
    /\ ~ (forall r, r ∈ report_entries Sample.prior_report ->
                    r ∈ report_entries report).
Proof.
  cbn zeta. eexists. split; [vm_compute; reflexivity|].
  intros H. specialize (H (JObj Sample.clean_old)).
  assert (Hin : JObj Sample.clean_old ∈ report_entries Sample.prior_report).
  { cbn. right. right. left. }
  specialize (H Hin). cbn in H.
  apply elem_of_cons in H as [H | H]; [discriminate H|].
  apply elem_of_cons in H as [H | H]; [discriminate H|].
  inversion H.
Qed.

(** ** Running the VAD scan twice *)

(** Indexing a list of entries that name their files: each file finds
    its entry. *)
Lemma index_items_map (o : string -> json) (files : list string) :
  (forall q, q ∈ files -> exists d, o q = JObj d /\ get "file" d = Some (JStr q)) ->
  forall acc p, p ∈ files ->
    index_items (map o files) acc !! p = Some (as_dict (o p)).
Proof.
  induction files as [|q rest IH]; intros Ho acc p Hp; [inversion Hp|].
  cbn [map index_items].
  destruct (Ho q ltac:(left)) as (d & Hd & Hf). rewrite Hd, Hf.
  destruct (decide (p ∈ rest)) as [Hin | Hnot].
  - apply IH; [|exact Hin]. intros q' Hq'. apply Ho. right. exact Hq'.
  - apply elem_of_cons in Hp as [-> | Hp]; [|contradiction].
    assert (Hl : forallb loadable (map o rest) = true).
    { apply forallb_forall. intros r Hr. apply in_map_iff in Hr as (q' & <- & Hq').
      apply list_elem_of_In in Hq'.
      destruct (Ho q' ltac:(right; exact Hq')) as (d' & Hd' & Hf').
      rewrite Hd'. cbn. rewrite Hf'. reflexivity. }
    rewrite (index_items_prior _ Hl).
    assert (Hnone : prior_entry q (map o rest) = None).
    { clear -Hnot Ho. induction rest as [|q' rest IH]; [reflexivity|].
      cbn [map prior_entry]. rewrite IH.
      - destruct (Ho q' ltac:(right; left)) as (d' & Hd' & Hf').
        rewrite Hd'. unfold names. rewrite Hf'. cbn.
        destruct (String.eqb_spec q q') as [->|_]; [|reflexivity].
        exfalso. apply Hnot. left.
      - intros x Hx. apply Ho. apply elem_of_cons in Hx as [-> | Hx];
          [left | right; right; exact Hx].
      - intros E. apply Hnot. right. exact E. }
    rewrite Hnone, lookup_insert_eq, Hd. reflexivity.
Qed.

Lemma flat_map_nil {A B} (f : A -> list B) (l : list A) :
  (forall x, x ∈ l -> f x = []) -> flat_map f l = [].
Proof.
  induction l as [|x l IH]; intros H; [reflexivity|]. cbn.
  rewrite (H x ltac:(left)), IH; [reflexivity|].
  intros y Hy. apply H. right. exact Hy.
Qed.

Lemma map_ext_elem {A B} (f g : A -> B) (l : list A) :
  (forall x, x ∈ l -> f x = g x) -> map f l = map g l.
Proof.
  intros H. apply map_ext_in. intros x Hx. apply H, list_elem_of_In, Hx.
Qed.

(** A report that lies where the debug log is written is never read
    back: what [load_existing] finds there after discovery is the log. *)
Lemma existing_at_debug_log (W : World) (directory : string) (skip : bool)
    (s : Sys) (chunks : list Chunk) :
  debug_log W directory = Some chunks ->
  existing_of skip (debug_log_path W (normalize W directory))
    (after_discovery W directory s) = ∅.
Proof.
  intros E. unfold existing_of. destruct skip; [|reflexivity].
  rewrite after_discovery_fs, (with_debug_log_self _ _ _ _ E).
  destruct (discovery_split W directory)
    as [(_ & _ & Hn & _) | (_ & _ & chunks' & E' & Hl & _)]; [congruence|].
  rewrite E in E'. injection E' as <-.
  destruct chunks as [|[l|j] [|? ?]]; try reflexivity.
  inversion Hl as [|? ? [l Hj] _]. discriminate.
Qed.

(** C9.  Run [run_batch_vad_scan] with [skip_existing] and let it return
    with a report that records no error; run it again with the same
    arguments on the disk the first run left.  The second run returns and
    saves a report that differs from the first in its ["date"] at most:
    same [directory], [total_files], [files_with_voice], [results],
    [scan_model] and [vad_threshold].  It makes no backend call, unless
    the report lies where discovery writes its debug log. *)
Theorem resume_twice_same_report (W : World) (directory : string)
    (threshold : json) (report_path : option string) (s s1 : Sys)
    (report1 : json) :
  let path := resolve W report_path in
  run_batch_vad_scan W directory threshold report_path true s = Ok tt s1 ->
  fs s1 !! path = Some [Doc report1] ->
  error_free report1 = true ->
  exists s2 report2,
    run_batch_vad_scan W directory threshold report_path true s1 = Ok tt s2
    /\ fs s2 !! path = Some [Doc report2]
    /\ same_but_date report1 report2
    /\ (path <> debug_log_path W (normalize W directory) ->
        new_calls s1 s2 = []).
Proof.
  intros path Hrun Hstored Hfree.
  set (files := discovered W directory).
  set (process := vad_entry W threshold).
  set (s0 := after_discovery W directory s).
  set (existing := existing_of true path s0).
  (* the first run got through its loop *)
  assert (Hc : countable true existing files).
  { destruct (countableb true existing files) eqn:E.
    - apply countableb_spec. exact E.
    - destruct (run_batch_vad_scan_raises W directory threshold report_path true s)
        as (msg & s' & Hr).
      + intros Hc. apply countableb_spec in Hc.
        fold path s0 existing files in Hc. congruence.
      + rewrite Hr in Hrun. discriminate. }
  set (o := out true existing process).
  set (v := voiced true existing process).
  set (n := fold_left count_voice (map v files) O).
  pose proof (run_batch_vad_scan_closed W directory threshold report_path true s Hc)
    as Hclosed.
  cbn zeta in Hclosed. fold files path s0 existing process o v n in Hclosed.
  rewrite Hclosed in Hrun. clear Hclosed. injection Hrun as <-.
  unfold after_scan in Hstored. cbn [fs] in Hstored.
  rewrite lookup_insert_eq in Hstored. injection Hstored as <-.
  assert (Hent : forall p, p ∈ files -> entry_for p (o p) (v p)).
  { intros p Hp.
    apply (out_entry_for true path s0 process files p); auto.
    intros q. apply vad_entry_shape. }
  assert (Hnoerr : forall p, p ∈ files -> has_key "error" (as_dict (o p)) = false).
  { intros p Hp. unfold error_free in Hfree. rewrite forallb_forall in Hfree.
    specialize (Hfree (o p)).
    destruct (Hent p Hp) as (d & Hd & _).
    rewrite Hd in *. cbn [as_dict]. apply negb_true_iff. apply Hfree.
    rewrite <- Hd. change (In (o p) (map o files)).
    apply in_map. apply list_elem_of_In. exact Hp. }
  (* what the second run finds on disk *)
  set (report1 := vad_report (isoformat W (clock s)) directory threshold
                    (length files) n (map o files)).
  set (s1 := after_scan path report1 _ s0).
  set (s1' := after_discovery W directory s1).
  set (existing2 := existing_of true path s1').
  assert (Hcases :
    (path = debug_log_path W (normalize W directory) /\ existing2 = existing)
    \/ (forall p, p ∈ files -> existing2 !! p = Some (as_dict (o p)))).
  { destruct (decide (path = debug_log_path W (normalize W directory)))
      as [Hlog | Hlog];
      [destruct (debug_log W directory) as [chunks|] eqn:Hdl|].
    - left. split; [exact Hlog|]. subst existing existing2 s1' s0.
      rewrite Hlog, !(existing_at_debug_log W directory true _ chunks Hdl).
      reflexivity.
    - right. intros p Hp. subst existing2 s1'. unfold existing_of.
      rewrite after_discovery_fs. unfold with_debug_log. rewrite Hdl.
      subst s1. unfold after_scan. cbn [fs]. rewrite lookup_insert_eq.
      change (index_report report1) with (index_items (map o files) ∅).
      apply index_items_map; [|exact Hp].
      intros q Hq. destruct (Hent q Hq) as (d & Hd & Hf & _). eauto.
    - right. intros p Hp. subst existing2 s1'. unfold existing_of.
      rewrite (report_after_discovery W directory path s1 Hlog).
      subst s1. unfold after_scan. cbn [fs]. rewrite lookup_insert_eq.
      change (index_report report1) with (index_items (map o files) ∅).
      apply index_items_map; [|exact Hp].
      intros q Hq. destruct (Hent q Hq) as (d & Hd & Hf & _). eauto. }
  assert (Hvoice : forall p, p ∈ files -> voice_of (as_dict (o p)) = Some (v p)).
  { intros p Hp. destruct (Hent p Hp) as (d & Hd & _ & Hv).
    pose proof (Hnoerr p Hp) as Hn. rewrite Hd in *. cbn [as_dict] in *. auto. }
  assert (Hsame :
    countable true existing2 files
    /\ map (out true existing2 process) files = map o files
    /\ map (voiced true existing2 process) files = map v files
    /\ (path <> debug_log_path W (normalize W directory) ->
        flat_map (made_calls true existing2 process) files = [])).
  { destruct Hcases as [[Hlog ->] | Hex2].
    - split; [exact Hc|]. split; [reflexivity|]. split; [reflexivity|].
      intros Hne. contradiction.
    - assert (Hre2 : forall p, p ∈ files ->
                       reused true existing2 p = Some (as_dict (o p))).
      { intros p Hp. unfold reused. rewrite (Hex2 p Hp), (Hnoerr p Hp).
        reflexivity. }
      split; [|split; [|split]].
      + intros p prev Hp Hr. rewrite (Hre2 p Hp) in Hr. injection Hr as <-.
        rewrite (Hvoice p Hp). eauto.
      + apply map_ext_elem. intros p Hp. unfold out at 1. rewrite (Hre2 p Hp).
        destruct (Hent p Hp) as (d & Hd & _). rewrite Hd. reflexivity.
      + apply map_ext_elem. intros p Hp. unfold voiced at 1.
        rewrite (Hre2 p Hp), (Hvoice p Hp). reflexivity.
      + intros _. apply flat_map_nil. intros p Hp. unfold made_calls.
        rewrite (Hre2 p Hp). reflexivity. }
  destruct Hsame as (Hc2 & Ho & Hv & Hcalls).
  pose proof (run_batch_vad_scan_closed W directory threshold report_path true s1
                Hc2) as Hrun2.
  cbn zeta in Hrun2. fold files path s1' existing2 process in Hrun2.
  rewrite Ho, Hv in Hrun2. fold n in Hrun2.
  set (report2 := vad_report (isoformat W (clock s1)) directory threshold
                    (length files) n (map o files)) in Hrun2.
  eexists _, report2.
  split; [exact Hrun2|]. split; [|split].
  - unfold after_scan. cbn [fs]. apply lookup_insert_eq.
  - exists (isoformat W (clock s)), (isoformat W (clock s1)). eexists.
    split; reflexivity.
  - intros Hne. rewrite (Hcalls Hne). apply new_calls_after_scan.
    apply after_discovery_calls.
Qed.

Lemma resume_twice_same_report_witness :
  let W := Sample.world ["a.mp4"; "c.MKV"] in
  let run := run_batch_vad_scan W "/d" (JNum (1 # 2)) (Some "/r.json") true in
  exists s1 s2 report1 report2,
    run Sample.blank = Ok tt s1 /\ fs s1 !! "/r.json" = Some [Doc report1]
    /\ run s1 = Ok tt s2 /\ fs s2 !! "/r.json" = Some [Doc report2]
    /\ same_but_date report1 report2.
Proof.
  cbn zeta.
  set (W := Sample.world ["a.mp4"; "c.MKV"]).
  set (s1 := res_sys (run_batch_vad_scan W "/d" (JNum (1 # 2)) (Some "/r.json")
                        true Sample.blank)).
  assert (H1 : run_batch_vad_scan W "/d" (JNum (1 # 2)) (Some "/r.json") true
                 Sample.blank = Ok tt s1) by (vm_compute; reflexivity).
  set (report1 := match fs s1 !! "/r.json" with
                  | Some [Doc j] => j
                  | _ => JNull
                  end).
  assert (H2 : fs s1 !! "/r.json" = Some [Doc report1]) by (vm_compute; reflexivity).
  assert (H3 : error_free report1 = true) by (vm_compute; reflexivity).
  destruct (resume_twice_same_report W "/d" (JNum (1 # 2)) (Some "/r.json")
              Sample.blank s1 report1 H1 H2 H3) as (s2 & report2 & R & F & S & _).
  exists s1, s2, report1, report2. auto.
Defined.

End BatchFacts.


(* ===================================================================== *)
(** * Properties of [run_transcriber] *)
(* ===================================================================== *)
Module TranscriberFacts.
Import Json Path Env Clusterer Transcriber.
Local Open Scope string_scope.

(** C10.  Call [run_transcriber] with [skip_existing] when the transcript
    path it computes already exists.  Whatever the backend does, no file
    is created, overwritten or appended to: the file map is unchanged.
    And when the model is available and the backend returns, the function
    returns the empty list after exactly one transcription call on the
    requested window, made before the existence test. *)
Theorem skip_existing_leaves_transcript (W : World) (file_path : string)
    (start end_ : Q) (model : option Model) (model_name : string)
    (output_dir : option string) (s : Sys) :
  let path := out_path file_path model_name output_dir in
  let m := match model with
           | Some m => m
           | None => mkModel model_name (length (constructed s))
           end in
  let opts := mkOpts 5 true None (Some (start, end_)) in
  let r := run_transcriber W file_path start end_ model model_name output_dir
             true s in
  is_Some (fs s !! path) ->
  fs (res_sys r) = fs s
  /\ ((model = None -> whisper_init W model_name = None) ->
      (exists result, whisper_transcribe W m file_path opts = inr result) ->
      exists s', r = Ok [] s'
                 /\ calls s' = (calls s ++ [Transcribe m file_path opts])%list).
Proof.
  intros path m opts r Hex. subst r.
  unfold run_transcriber. fold path.
  unfold mbind, M_bind, bind, mret, M_ret, ret.
  assert (Hfound : forall s0, fs s0 = fs s ->
            path_exists path s0 = Ok true s0).
  { intros s0 E. unfold path_exists. rewrite E.
    rewrite bool_decide_eq_true_2 by exact Hex. reflexivity. }
  destruct model as [m0|]; cbn [new_model].
  - unfold transcribe. fold opts. subst m.
    destruct (whisper_transcribe W m0 file_path opts) as [msg | [segments d]] eqn:Ht.
    + split; [reflexivity|]. intros _ [result E]. discriminate E.
    + rewrite Hfound by reflexivity. cbn [andb]. split; [reflexivity|].
      intros _ _. eexists. repeat split; reflexivity.
  - unfold new_model.
    destruct (whisper_init W model_name) as [msg|] eqn:Hi.
    + split; [reflexivity|]. intros Hn. specialize (Hn eq_refl). discriminate Hn.
    + unfold transcribe. cbn [fs constructed calls stdout clock]. fold opts m.
      destruct (whisper_transcribe W m file_path opts) as [msg | [segments d]] eqn:Ht.
      * split; [reflexivity|]. intros _ [result E]. discriminate E.
      * rewrite Hfound by reflexivity. cbn [andb]. split; [reflexivity|].
        intros _ _. eexists. repeat split; reflexivity.
Qed.

Lemma skip_existing_leaves_transcript_witness :
  let W := Sample.world [] in
  let s := mkSys {[ "/d/a_transcript_large_v3.txt" := [Line "kept"] ]} [] [] [] O in
  let r := run_transcriber W "/d/a.mp4" 0 5 None "large-v3" None true s in
  out_path "/d/a.mp4" "large-v3" None = "/d/a_transcript_large_v3.txt"
  /\ fs (res_sys r) = fs s
  /\ exists s', r = Ok [] s'.
Proof.
  cbn zeta.
  set (s := mkSys {[ "/d/a_transcript_large_v3.txt" := [Line "kept"] ]} [] [] [] O).
  assert (Hex : is_Some (fs s !! out_path "/d/a.mp4" "large-v3" None)).
  { vm_compute. eauto. }
  destruct (skip_existing_leaves_transcript (Sample.world []) "/d/a.mp4" 0 5 None
              "large-v3" None s Hex) as [Hfs Hret].
  split; [reflexivity|]. split; [exact Hfs|].
  destruct Hret as (s' & E & _).
  - intros _. reflexivity.
  - eexists. reflexivity.
  - exists s'. exact E.
Defined.

(** Without [skip_existing] the same call appends a section to the
    existing transcript. *)
Example appends_without_skip :
  let W := Sample.world [] in
  let s := mkSys {[ "/d/a_transcript_large_v3.txt" := [Line "kept"] ]} [] [] [] O in
  fs (res_sys (run_transcriber W "/d/a.mp4" 0 5 None "large-v3" None false s))
     !! "/d/a_transcript_large_v3.txt"
  = Some [Line "kept"; Line "--- Transcription [0.0s - 0.0s] ---";
          Line "Source: /d/a.mp4"; Line "[0.0 - 0.0] hello"; Line EmptyString].
Proof. vm_compute. reflexivity. Qed.

End TranscriberFacts.

(* ===================================================================== *)
(** * Properties of the command server *)
(* ===================================================================== *)
Module ServerFacts.
Import Json Path Env Discovery Server.
Import ServerSpec DiscoveryFacts.
Local Open Scope string_scope.

(** ** Engine functions that neither build a model nor print *)

Lemma quiet_ret {A} (a : A) : quiet (mret a).
Proof. intros s. split; reflexivity. Qed.

Lemma quiet_raise {A} (msg : string) : quiet (@raise A msg).
Proof. intros s. split; reflexivity. Qed.

Lemma quiet_bind {A B} (m : M A) (k : A -> M B) :
  quiet m -> (forall a, quiet (k a)) -> quiet (m ≫= k).
Proof.
  intros Hm Hk s. unfold mbind, M_bind, bind.
  destruct (Hm s) as [H1 H2]. destruct (m s) as [a s'|msg s']; cbn in *.
  - destruct (Hk a s') as [H3 H4]. split; congruence.
  - split; assumption.
Qed.

Lemma quiet_try {A} (m : M A) (h : string -> M A) :
  quiet m -> (forall msg, quiet (h msg)) -> quiet (try_except m h).
Proof.
  intros Hm Hh s. unfold try_except.
  destruct (Hm s) as [H1 H2]. destruct (m s) as [a s'|msg s']; cbn in *.
  - split; assumption.
  - destruct (Hh msg s') as [H3 H4]. split; congruence.
Qed.

Lemma quiet_path_exists (p : string) : quiet (path_exists p).
Proof. intros s. split; reflexivity. Qed.

Lemma quiet_json_load (p : string) : quiet (json_load p).
Proof. intros s. split; reflexivity. Qed.

Lemma quiet_json_dump (p : string) (j : json) : quiet (json_dump p j).
Proof. intros s. split; reflexivity. Qed.

Lemma quiet_write_file (p : string) (c : list Chunk) : quiet (write_file p c).
Proof. intros s. split; reflexivity. Qed.

Lemma quiet_append_file (p : string) (c : list Chunk) : quiet (append_file p c).
Proof. intros s. split; reflexivity. Qed.

Lemma quiet_now (W : World) : quiet (now W).
Proof. intros s. split; reflexivity. Qed.

Lemma quiet_transcribe (W : World) (m : Model) (p : string) (o : TranscribeOpts) :
  quiet (transcribe W m p o).
Proof.
  intros s. unfold transcribe. destruct (whisper_transcribe W m p o); split; reflexivity.
Qed.

Lemma quiet_run_vad_scan (W : World) (p : string) (t : json) :
  quiet (run_vad_scan W p t).
Proof.
  intros s. unfold run_vad_scan.
  destruct (silero_vad W p t) as [msg|[ts d]]; split; reflexivity.
Qed.

Create HintDb quiet.
#[local] Hint Resolve quiet_ret quiet_raise quiet_path_exists quiet_json_load
  quiet_json_dump quiet_write_file quiet_append_file quiet_now quiet_transcribe
  quiet_run_vad_scan : quiet.

Ltac quiet_step :=
  first [ apply quiet_bind; [|intros ?]
        | apply quiet_try; [|intros ?]
        | solve [auto with quiet]
        | match goal with
          | |- quiet (match ?x with _ => _ end) => destruct x
          | |- quiet (let '(_, _) := ?x in _) => destruct x
          end ].

Lemma quiet_load_existing (skip : bool) (p : string) :
  quiet (Batch.load_existing skip p).
Proof. unfold Batch.load_existing. repeat quiet_step. Qed.

Lemma quiet_vad_entry (W : World) (t : json) (p : string) :
  quiet (Batch.vad_entry W t p).
Proof. unfold Batch.vad_entry. repeat quiet_step. Qed.

Lemma quiet_scan_entry (W : World) (m : Model) (v : bool) (p : string) :
  quiet (Batch.scan_entry W m v p).
Proof. unfold Batch.scan_entry. repeat quiet_step. Qed.

Lemma quiet_visit (skip : bool) (ex : gmap string dict)
    (process : string -> M (json * bool)) (acc : list json * nat) (p : string) :
  (forall q, quiet (process q)) -> quiet (Batch.visit skip ex process acc p).
Proof.
  intros Hp. unfold Batch.visit. destruct acc as [results n].
  assert (Hfresh : quiet ('(entry, voiced) ← process p;
            mret ((results ++ [entry])%list, Batch.count_voice n voiced))).
  { apply quiet_bind; [apply Hp | intros [e v]; apply quiet_ret]. }
  destruct (if skip then ex !! p else None) as [prev|]; [|exact Hfresh].
  destruct (negb (has_key "error" prev)); [|exact Hfresh].
  destruct (gt_zero _); auto with quiet.
Qed.

Lemma quiet_scan_loop (skip : bool) (ex : gmap string dict)
    (process : string -> M (json * bool)) (files : list string) :
  (forall q, quiet (process q)) ->
  forall acc, quiet (Batch.scan_loop skip ex process files acc).
Proof.
  intros Hp. induction files as [|p rest IH]; intros acc; cbn [Batch.scan_loop].
  - apply quiet_ret.
  - apply quiet_bind; [apply quiet_visit; exact Hp | intros acc'; apply IH].
Qed.

(** ** Engine functions that print what discovery prints *)

Lemma prints_bind_quiet {A B} (ls : list Out) (m : M A) (k : A -> M B) :
  prints ls m -> (forall a, quiet (k a)) -> prints ls (m ≫= k).
Proof.
  intros Hm Hk s. unfold mbind, M_bind, bind.
  destruct (Hm s) as [H1 H2]. destruct (m s) as [a s'|msg s']; cbn in *.
  - destruct (Hk a s') as [H3 H4]. split; congruence.
  - split; assumption.
Qed.

Lemma prints_find_media_files (W : World) (d : string) :
  prints (discovery_lines W d) (find_media_files W d).
Proof.
  intros s. rewrite find_media_files_eq. cbn [res_sys].
  rewrite after_discovery_closed. split; reflexivity.
Qed.

Lemma prints_run_batch_vad_scan (W : World) (d : string) (t : json)
    (r : option string) (skip : bool) :
  prints (discovery_lines W d) (Batch.run_batch_vad_scan W d t r skip).
Proof.
  unfold Batch.run_batch_vad_scan.
  apply prints_bind_quiet; [apply prints_find_media_files | intros files].
  apply quiet_bind; [apply quiet_load_existing | intros ex].
  apply quiet_bind;
    [apply quiet_scan_loop; intros q; apply quiet_vad_entry | intros [results n]].
  repeat quiet_step.
Qed.

(** Given a model, the batch scanner builds none. *)
Lemma prints_run_batch_scanner (W : World) (d : string) (v : bool)
    (r : option string) (m : Model) (skip : bool) :
  prints (discovery_lines W d) (Batch.run_batch_scanner W d v r (Some m) skip).
Proof.
  unfold Batch.run_batch_scanner.
  apply prints_bind_quiet; [apply prints_find_media_files | intros files].
  apply quiet_bind; [apply quiet_ret | intros m'].
  apply quiet_bind; [apply quiet_load_existing | intros ex].
  apply quiet_bind;
    [apply quiet_scan_loop; intros q; apply quiet_scan_entry | intros [results n]].
  apply quiet_bind; [apply quiet_now | intros date].
  apply quiet_bind; [apply quiet_json_dump | intros _].
  destruct (forallb _ _); auto with quiet.
Qed.

Lemma emit_errors_eq (lines : list string) (s : Sys) :
  emit_errors lines s
  = Ok tt (mkSys (fs s) (constructed s) (calls s)
                 (stdout s ++ error_lines lines) (clock s)).
Proof.
  revert s. induction lines as [|l rest IH]; intros s.
  - cbn. rewrite app_nil_r. destruct s; reflexivity.
  - cbn [emit_errors]. unfold mbind, M_bind, bind, emit. rewrite IH.
    cbn [fs constructed calls stdout clock error_lines map].
    rewrite <- app_assoc. reflexivity.
Qed.

Lemma prints_emit_errors (lines : list string) :
  prints (error_lines lines) (emit_errors lines).
Proof. intros s. rewrite emit_errors_eq. split; reflexivity. Qed.

(** ** The model that serves the backend calls *)

Lemma served_by_refl (mdl : Model) (s s' : Sys) :
  calls s' = calls s -> served_by mdl s s'.
Proof. intros E. exists []. rewrite app_nil_r. split; [exact E | constructor]. Qed.

Lemma served_by_trans (mdl : Model) (s1 s2 s3 : Sys) :
  served_by mdl s1 s2 -> served_by mdl s2 s3 -> served_by mdl s1 s3.
Proof.
  intros (cs & E1 & H1) (cs' & E2 & H2). exists (cs ++ cs')%list. split.
  - rewrite E2, E1, app_assoc. reflexivity.
  - apply Forall_app. auto.
Qed.

Lemma runs_on_still {A} (mdl : Model) (m : M A) :
  (forall s, calls (res_sys (m s)) = calls s) -> runs_on mdl m.
Proof. intros H s. apply served_by_refl, H. Qed.

Lemma runs_on_bind {A B} (mdl : Model) (m : M A) (k : A -> M B) :
  runs_on mdl m -> (forall a, runs_on mdl (k a)) -> runs_on mdl (m ≫= k).
Proof.
  intros Hm Hk s. unfold mbind, M_bind, bind. specialize (Hm s).
  destruct (m s) as [a s'|msg s']; cbn in *; [|exact Hm].
  eapply served_by_trans; [exact Hm | apply Hk].
Qed.

Lemma runs_on_try {A} (mdl : Model) (m : M A) (h : string -> M A) :
  runs_on mdl m -> (forall msg, runs_on mdl (h msg)) ->
  runs_on mdl (try_except m h).
Proof.
  intros Hm Hh s. unfold try_except. specialize (Hm s).
  destruct (m s) as [a s'|msg s']; cbn in *; [exact Hm|].
  eapply served_by_trans; [exact Hm | apply Hh].
Qed.

Lemma runs_on_ret {A} (mdl : Model) (a : A) : runs_on mdl (mret a).
Proof. apply runs_on_still. reflexivity. Qed.

Lemma runs_on_bind_ret {A B} (mdl : Model) (a : A) (k : A -> M B) :
  runs_on mdl (k a) -> runs_on mdl (mret a ≫= k).
Proof. intros H s. exact (H s). Qed.

Lemma runs_on_raise {A} (mdl : Model) (msg : string) : runs_on mdl (@raise A msg).
Proof. apply runs_on_still. reflexivity. Qed.

Lemma runs_on_transcribe (W : World) (mdl : Model) (p : string)
    (o : TranscribeOpts) :
  runs_on mdl (transcribe W mdl p o).
Proof.
  intros s. exists [Transcribe mdl p o]. split.
  - unfold transcribe. destruct (whisper_transcribe W mdl p o); reflexivity.
  - repeat constructor. exists p, o. reflexivity.
Qed.

Lemma runs_on_find_media_files (W : World) (mdl : Model) (d : string) :
  runs_on mdl (find_media_files W d).
Proof.
  apply runs_on_still. intros s. rewrite find_media_files_eq.
  apply after_discovery_calls.
Qed.

Lemma runs_on_load_existing (mdl : Model) (skip : bool) (p : string) :
  runs_on mdl (Batch.load_existing skip p).
Proof.
  apply runs_on_still. intros s.
  rewrite BatchFacts.load_existing_eq. reflexivity.
Qed.

Lemma runs_on_scan_entry (W : World) (mdl : Model) (v : bool) (p : string) :
  runs_on mdl (Batch.scan_entry W mdl v p).
Proof.
  unfold Batch.scan_entry.
  apply runs_on_try; [|intros msg; apply runs_on_ret].
  apply runs_on_bind; [apply runs_on_transcribe | intros [segments duration]].
  destruct (Clusterer.cluster_segments _ _) as [[|b bs] n]; apply runs_on_ret.
Qed.

Lemma runs_on_visit (mdl : Model) (skip : bool) (ex : gmap string dict)
    (process : string -> M (json * bool)) (acc : list json * nat) (p : string) :
  (forall q, runs_on mdl (process q)) ->
  runs_on mdl (Batch.visit skip ex process acc p).
Proof.
  intros Hp. unfold Batch.visit. destruct acc as [results n].
  assert (Hfresh : runs_on mdl ('(entry, voiced) ← process p;
            mret ((results ++ [entry])%list, Batch.count_voice n voiced))).
  { apply runs_on_bind; [apply Hp | intros [e v]; apply runs_on_ret]. }
  destruct (if skip then ex !! p else None) as [prev|]; [|exact Hfresh].
  destruct (negb (has_key "error" prev)); [|exact Hfresh].
  destruct (gt_zero _); [apply runs_on_ret | apply runs_on_raise].
Qed.

Lemma runs_on_scan_loop (mdl : Model) (skip : bool) (ex : gmap string dict)
    (process : string -> M (json * bool)) (files : list string) :
  (forall q, runs_on mdl (process q)) ->
  forall acc, runs_on mdl (Batch.scan_loop skip ex process files acc).
Proof.
  intros Hp. induction files as [|p rest IH]; intros acc; cbn [Batch.scan_loop].
  - apply runs_on_ret.
  - apply runs_on_bind; [apply runs_on_visit; exact Hp | intros acc'; apply IH].
Qed.

(** The batch scanner makes its backend calls on the model it is given. *)
Lemma runs_on_run_batch_scanner (W : World) (d : string) (v : bool)
    (r : option string) (mdl : Model) (skip : bool) :
  runs_on mdl (Batch.run_batch_scanner W d v r (Some mdl) skip).
Proof.
  unfold Batch.run_batch_scanner.
  apply runs_on_bind; [apply runs_on_find_media_files | intros files].
  apply runs_on_bind_ret.
  apply runs_on_bind; [apply runs_on_load_existing | intros ex].
  apply runs_on_bind;
    [apply runs_on_scan_loop; intros q; apply runs_on_scan_entry
    | intros [results n]].
  apply runs_on_bind; [apply runs_on_still; reflexivity | intros date].
  apply runs_on_bind; [apply runs_on_still; reflexivity | intros _].
  destruct (forallb _ _); [apply runs_on_ret | apply runs_on_raise].
Qed.

(** The transcriber makes its backend call on the model it is given. *)
Lemma runs_on_run_transcriber (W : World) (p : string) (a b : Q) (mdl : Model)
    (name : string) (o : option string) (skip : bool) :
  runs_on mdl (Transcriber.run_transcriber W p a b (Some mdl) name o skip).
Proof.
  unfold Transcriber.run_transcriber.
  apply runs_on_bind_ret.
  apply runs_on_bind; [apply runs_on_transcribe | intros [segs dur]].
  apply runs_on_bind; [apply runs_on_still; reflexivity | intros found].
  destruct (skip && found)%bool; [apply runs_on_ret|].
  apply runs_on_bind; [apply runs_on_still; reflexivity | intros found'].
  apply runs_on_bind;
    [destruct found'; apply runs_on_still; reflexivity | intros _].
  apply runs_on_ret.
Qed.

(** Given a model, the transcriber builds none. *)
Lemma quiet_run_transcriber (W : World) (p : string) (a b : Q) (m : Model)
    (name : string) (o : option string) (skip : bool) :
  quiet (Transcriber.run_transcriber W p a b (Some m) name o skip).
Proof.
  unfold Transcriber.run_transcriber.
  apply quiet_bind; [apply quiet_ret | intros m'].
  apply quiet_bind; [apply quiet_transcribe | intros [segs dur]].
  apply quiet_bind; [apply quiet_path_exists | intros found].
  destruct (skip && found)%bool; [apply quiet_ret|].
  apply quiet_bind; [apply quiet_path_exists | intros found'].
  apply quiet_bind; [destruct found'; auto with quiet | intros _].
  apply quiet_ret.
Qed.

(** ** Pieces of the loop body *)

Lemma silent_bind {A B} (m : SM A) (k : A -> SM B) :
  silent m -> (forall a, silent (k a)) -> silent (m ≫= k).
Proof.
  intros Hm Hk st s. unfold mbind, SM_bind. specialize (Hm st s).
  destruct (m st s) as [a st' s'|msg st' s']; cbn in *; [|exact Hm].
  rewrite (Hk a st' s'). exact Hm.
Qed.

Lemma slot_kept_bind {A B} (m : SM A) (k : A -> SM B) :
  slot_kept m -> (forall a, slot_kept (k a)) -> slot_kept (m ≫= k).
Proof.
  intros Hm Hk st s. unfold mbind, SM_bind. destruct (Hm st s) as [H1 H2].
  destruct (m st s) as [a st' s'|msg st' s']; cbn in *; [|auto].
  destruct (Hk a st' s') as [H3 H4]. split; congruence.
Qed.

Lemma silent_ret {A} (a : A) : silent (mret a : SM A).
Proof. intros st s. reflexivity. Qed.
Lemma slot_kept_ret {A} (a : A) : slot_kept (mret a : SM A).
Proof. intros st s. split; reflexivity. Qed.
Lemma silent_throw {A} (msg : string) : silent (@throw A msg).
Proof. intros st s. reflexivity. Qed.
Lemma slot_kept_throw {A} (msg : string) : slot_kept (@throw A msg).
Proof. intros st s. split; reflexivity. Qed.
Lemma silent_locals : silent locals.
Proof. intros st s. reflexivity. Qed.
Lemma slot_kept_locals : slot_kept locals.
Proof. intros st s. split; reflexivity. Qed.

Lemma silent_call {A} (m : M A) : quiet m -> silent (call m).
Proof.
  intros Hm st s. unfold call. destruct (Hm s) as [_ H].
  destruct (m s); exact H.
Qed.

Lemma slot_kept_call {A} (m : M A) :
  (forall s, constructed (res_sys (m s)) = constructed s) -> slot_kept (call m).
Proof.
  intros Hm st s. unfold call. specialize (Hm s).
  destruct (m s); split; auto.
Qed.

Lemma slot_kept_quiet {A} (m : M A) : quiet m -> slot_kept (call m).
Proof. intros Hm. apply slot_kept_call. intros s. apply Hm. Qed.

Lemma slot_kept_prints {A} (ls : list Out) (m : M A) :
  prints ls m -> slot_kept (call m).
Proof. intros Hm. apply slot_kept_call. intros s. apply Hm. Qed.

Lemma slot_kept_emit (o : Out) : slot_kept (call (emit o)).
Proof. apply slot_kept_call. intros s. reflexivity. Qed.

Lemma silent_need_str (v : option json) (e : string) : silent (need_str v e).
Proof. intros st s. destruct v as [[]|]; reflexivity. Qed.
Lemma slot_kept_need_str (v : option json) (e : string) : slot_kept (need_str v e).
Proof. intros st s. destruct v as [[]|]; split; reflexivity. Qed.
Lemma silent_opt_path (v : option json) : silent (opt_path v).
Proof. intros st s. destruct v as [[]|]; reflexivity. Qed.
Lemma slot_kept_opt_path (v : option json) : slot_kept (opt_path v).
Proof. intros st s. destruct v as [[]|]; split; reflexivity. Qed.
Lemma silent_opt_dir (v : option json) : silent (opt_dir v).
Proof.
  intros st s. unfold opt_dir.
  destruct v as [[]|]; try reflexivity; destruct (truthy _); reflexivity.
Qed.
Lemma slot_kept_opt_dir (v : option json) : slot_kept (opt_dir v).
Proof.
  intros st s. unfold opt_dir.
  destruct v as [[]|]; try (split; reflexivity);
    destruct (truthy _); split; reflexivity.
Qed.
Lemma silent_need_num (v : option json) : silent (need_num v).
Proof. intros st s. destruct v as [[]|]; reflexivity. Qed.
Lemma slot_kept_need_num (v : option json) : slot_kept (need_num v).
Proof. intros st s. destruct v as [[]|]; split; reflexivity. Qed.

Lemma still_need_str (v : option json) (e : string) : still (need_str v e).
Proof. intros st s. destruct v as [[]|]; split; reflexivity. Qed.
Lemma still_opt_path (v : option json) : still (opt_path v).
Proof. intros st s. destruct v as [[]|]; split; reflexivity. Qed.
Lemma still_opt_dir (v : option json) : still (opt_dir v).
Proof.
  intros st s. unfold opt_dir.
  destruct v as [[]|]; try (split; reflexivity);
    destruct (truthy _); split; reflexivity.
Qed.
Lemma still_need_num (v : option json) : still (need_num v).
Proof. intros st s. destruct v as [[]|]; split; reflexivity. Qed.

Lemma serves_bind_still {A B} (m : SM A) (k : A -> SM B) :
  still m -> (forall a, serves (k a)) -> serves (m ≫= k).
Proof.
  intros Hm Hk st s. unfold mbind, SM_bind. destruct (Hm st s) as [H1 H2].
  destruct (m st s) as [a st' s'|msg st' s']; cbn in *.
  - subst st'. eapply served_by_trans; [apply served_by_refl, H2 | apply Hk].
  - apply served_by_refl, H2.
Qed.

(** A call of an engine function on the model in the slot, followed by
    the completion line. *)
Lemma serves_call_slot {A} (x : Model -> M A) (o : Out) :
  (forall mdl, runs_on mdl (x mdl)) ->
  serves (st ← locals; call (x (current_model st));; call (emit o);; mret true).
Proof.
  intros Hx st s. unfold mbind, SM_bind, locals, call.
  specialize (Hx (current_model st) s).
  destruct (x (current_model st) s) as [a s'|msg s']; cbn in *; exact Hx.
Qed.

(** ** The model slot *)

Lemma ensure_model_same (W : World) (name : string) (st : State) (s : Sys) :
  current_model_name st = name ->
  ensure_model W (JStr name) st s = Done tt st s.
Proof.
  intros E. unfold ensure_model, mbind, SM_bind, locals. cbn.
  rewrite E, String.eqb_refl. reflexivity.
Qed.

Lemma ensure_model_other (W : World) (name : string) (st : State) (s : Sys) :
  current_model_name st <> name ->
  ensure_model W (JStr name) st s
  = match whisper_init W name with
    | None => Done tt (mkState (scanner_model st)
                         (mkModel name (length (constructed s))) name)
                   (built name s)
    | Some msg => Thrown msg st s
    end.
Proof.
  intros E. unfold ensure_model, mbind, SM_bind, locals. cbn.
  apply String.eqb_neq in E. rewrite E.
  unfold call, new_model. destruct (whisper_init W name); reflexivity.
Qed.

Lemma silent_ensure_model (W : World) (v : json) : silent (ensure_model W v).
Proof.
  intros st s. unfold ensure_model, mbind, SM_bind, locals. cbn.
  destruct (is_str (current_model_name st) v); [reflexivity|].
  destruct v; try reflexivity. cbn. unfold call, new_model.
  destruct (whisper_init W s0); reflexivity.
Qed.

(** "Ensure model" makes no backend call. *)
Lemma ensure_model_calls (W : World) (v : json) (st : State) (s : Sys) :
  calls (flow_sys (ensure_model W v st s)) = calls s.
Proof.
  unfold ensure_model, mbind, SM_bind, locals. cbn.
  destruct (is_str (current_model_name st) v); [reflexivity|].
  destruct v; try reflexivity. cbn. unfold call, new_model.
  destruct (whisper_init W s0); reflexivity.
Qed.

Lemma slot_kept_scan_rest (W : World) (cmd : dict) : slot_kept (scan_rest W cmd).
Proof.
  unfold scan_rest.
  apply slot_kept_bind; [apply slot_kept_need_str | intros directory].
  apply slot_kept_bind; [apply slot_kept_opt_path | intros report_path].
  apply slot_kept_bind; [apply slot_kept_locals | intros st].
  apply slot_kept_bind;
    [eapply slot_kept_prints, prints_run_batch_scanner | intros _].
  apply slot_kept_bind; [apply slot_kept_emit | intros _]. apply slot_kept_ret.
Qed.

Lemma slot_kept_transcribe_rest (W : World) (cmd : dict) :
  slot_kept (transcribe_rest W cmd).
Proof.
  unfold transcribe_rest.
  apply slot_kept_bind; [apply slot_kept_need_num | intros start].
  apply slot_kept_bind; [apply slot_kept_need_num | intros end_].
  apply slot_kept_bind; [apply slot_kept_need_str | intros file_path].
  apply slot_kept_bind; [apply slot_kept_opt_dir | intros output_dir].
  apply slot_kept_bind; [apply slot_kept_locals | intros st].
  apply slot_kept_bind;
    [apply slot_kept_quiet, quiet_run_transcriber | intros _].
  apply slot_kept_bind; [apply slot_kept_emit | intros _]. apply slot_kept_ret.
Qed.

Lemma serves_scan_rest (W : World) (cmd : dict) : serves (scan_rest W cmd).
Proof.
  unfold scan_rest.
  apply serves_bind_still; [apply still_need_str | intros directory].
  apply serves_bind_still; [apply still_opt_path | intros report_path].
  apply (serves_call_slot
           (fun mdl => Batch.run_batch_scanner W directory _ report_path
                         (Some mdl) false)).
  intros mdl. apply runs_on_run_batch_scanner.
Qed.

Lemma serves_transcribe_rest (W : World) (cmd : dict) :
  serves (transcribe_rest W cmd).
Proof.
  unfold transcribe_rest.
  apply serves_bind_still; [apply still_need_num | intros start].
  apply serves_bind_still; [apply still_need_num | intros end_].
  apply serves_bind_still; [apply still_need_str | intros file_path].
  apply serves_bind_still; [apply still_opt_dir | intros output_dir].
  apply (serves_call_slot
           (fun mdl => Transcriber.run_transcriber W file_path start end_
                         (Some mdl) Transcriber.default_model_name output_dir _)).
  intros mdl. apply runs_on_run_transcriber.
Qed.

(** The [except] clause of the loop keeps the slot. *)
Lemma slot_kept_handler (msg : string) :
  slot_kept (call (emit (Fail ("[ERROR] " ++ msg)));; mret true).
Proof.
  apply slot_kept_bind; [apply slot_kept_emit | intros _]. apply slot_kept_ret.
Qed.

Lemma dispatch_asks_for (W : World) (cmd : dict) (name : string) :
  asks_for cmd name ->
  exists rest, slot_kept rest /\ serves rest
               /\ dispatch W cmd = (ensure_model W (JStr name);; rest).
Proof.
  intros [[Ha ->] | [Ha Hm]].
  - exists (scan_rest W cmd).
    split; [apply slot_kept_scan_rest|]. split; [apply serves_scan_rest|].
    unfold dispatch. rewrite Ha. reflexivity.
  - exists (transcribe_rest W cmd).
    split; [apply slot_kept_transcribe_rest|].
    split; [apply serves_transcribe_rest|].
    unfold dispatch. rewrite Ha, Hm. reflexivity.
Qed.

Lemma catch_after {A} (m : SM unit) (rest : SM A) (h : string -> SM A)
    (st : State) (s : Sys) :
  slot_kept rest -> (forall msg, slot_kept (h msg)) ->
  flow_state (catch (m;; rest) h st s) = flow_state (m st s)
  /\ constructed (flow_sys (catch (m;; rest) h st s))
     = constructed (flow_sys (m st s)).
Proof.
  intros Hrest Hh. unfold catch, mbind, SM_bind.
  destruct (m st s) as [[] st' s'|msg st' s']; cbn.
  - destruct (Hrest st' s') as [H1 H2].
    destruct (rest st' s') as [b st2 s2|msg st2 s2]; cbn in *; [auto|].
    destruct (Hh msg st2 s2) as [H3 H4]. split; congruence.
  - apply (Hh msg st' s').
Qed.

(** What follows [m] runs on the model that [m] leaves in the slot; when
    [m] raises, no backend call is made. *)
Lemma catch_serves {A} (m : SM unit) (rest : SM A) (msg_of : string -> Out)
    (a : A) (st : State) (s : Sys) :
  calls (flow_sys (m st s)) = calls s -> serves rest ->
  let f := catch (m;; rest) (fun msg => call (emit (msg_of msg));; mret a) st s in
  served_by (current_model (flow_state (m st s))) s (flow_sys f)
  /\ (forall msg st' s', m st s = Thrown msg st' s' -> calls (flow_sys f) = calls s).
Proof.
  intros Hm Hrest f. subst f. unfold catch, mbind, SM_bind.
  destruct (m st s) as [[] st' s'|msg st' s'] eqn:E; cbn in *.
  - split; [|intros; discriminate].
    specialize (Hrest st' s').
    assert (Hs : served_by (current_model st') s (flow_sys (rest st' s'))).
    { eapply served_by_trans; [apply served_by_refl, Hm | exact Hrest]. }
    destruct (rest st' s') as [b st2 s2|msg st2 s2]; cbn in *; exact Hs.
  - split; [apply served_by_refl, Hm | intros; exact Hm].
Qed.

Lemma handle_after_ensure (W : World) (line : string) (cmd : dict)
    (name : string) (st : State) (s : Sys) :
  json_loads W line = Some (JObj cmd) -> asks_for cmd name ->
  let e := ensure_model W (JStr name) st s in
  let f := handle_line W line st s in
  flow_state f = flow_state e
  /\ constructed (flow_sys f) = constructed (flow_sys e)
  /\ served_by (current_model (flow_state e)) s (flow_sys f)
  /\ (forall msg st' s', e = Thrown msg st' s' -> calls (flow_sys f) = calls s).
Proof.
  intros Hl Hask e f. subst e f. unfold handle_line. rewrite Hl.
  destruct (dispatch_asks_for W cmd name Hask) as (rest & Hrest & Hserves & ->).
  destruct (catch_after (ensure_model W (JStr name)) rest
              (fun msg => call (emit (Fail ("[ERROR] " ++ msg)));; mret true)
              st s Hrest slot_kept_handler) as [H1 H2].
  destruct (catch_serves (ensure_model W (JStr name)) rest
              (fun msg => Fail ("[ERROR] " ++ msg)) true st s
              (ensure_model_calls W _ st s) Hserves) as [H3 H4].
  auto.
Qed.

(** C7, as the code has it.  The loop keeps one speech model in its
    slot, [current_model], recorded under [current_model_name].  For a
    [scan] or [transcribe] command: when the model it asks for is the
    recorded one, no model is constructed, the local variables stay as
    they are, and every backend call of the command is made on the model
    in the slot; when the names differ and the construction succeeds,
    exactly one model is constructed, it replaces the one in the slot,
    the recorded name becomes the requested one, and every backend call
    of the command is made on the new model; when the construction
    raises, the local variables stay as they are and no backend call is
    made.  In every case [scanner_model], the model loaded at the start,
    stays referenced. *)
Theorem model_slot_reloads_on_name_change (W : World) (line : string)
    (cmd : dict) (name : string) (st : State) (s : Sys) :
  json_loads W line = Some (JObj cmd) ->
  asks_for cmd name ->
  let f := handle_line W line st s in
  let fresh := mkModel name (length (constructed s)) in
  (current_model_name st = name ->
     flow_state f = st /\ constructed (flow_sys f) = constructed s
     /\ served_by (current_model st) s (flow_sys f))
  /\ (current_model_name st <> name -> whisper_init W name = None ->
     flow_state f = mkState (scanner_model st) fresh name
     /\ constructed (flow_sys f) = (constructed s ++ [name])%list
     /\ served_by fresh s (flow_sys f))
  /\ (current_model_name st <> name -> whisper_init W name <> None ->
     flow_state f = st /\ constructed (flow_sys f) = constructed s
     /\ calls (flow_sys f) = calls s)
  /\ scanner_model (flow_state f) = scanner_model st.
Proof.
  intros Hl Hask f fresh.
  destruct (handle_after_ensure W line cmd name st s Hl Hask) as (H1 & H2 & H3 & H4).
  fold f in H1, H2, H3, H4.
  assert (Hsame : current_model_name st = name ->
            flow_state f = st /\ constructed (flow_sys f) = constructed s
            /\ served_by (current_model st) s (flow_sys f)).
  { intros E. rewrite (ensure_model_same W name st s E) in H1, H2, H3. auto. }
  assert (Hother : current_model_name st <> name -> whisper_init W name = None ->
            flow_state f = mkState (scanner_model st) fresh name
            /\ constructed (flow_sys f) = (constructed s ++ [name])%list
            /\ served_by fresh s (flow_sys f)).
  { intros E Hi. rewrite (ensure_model_other W name st s E), Hi in H1, H2, H3.
    auto. }
  assert (Hfail : current_model_name st <> name -> whisper_init W name <> None ->
            flow_state f = st /\ constructed (flow_sys f) = constructed s
            /\ calls (flow_sys f) = calls s).
  { intros E Hi. rewrite (ensure_model_other W name st s E) in H1, H2, H4.
    destruct (whisper_init W name) as [msg|]; [|congruence].
    split; [exact H1|]. split; [exact H2|]. eapply H4. reflexivity. }
  split; [exact Hsame|]. split; [exact Hother|]. split; [exact Hfail|].
  destruct (String.eqb_spec (current_model_name st) name) as [E | E].
  - destruct (Hsame E) as [-> _]. reflexivity.
  - destruct (whisper_init W name) as [msg|] eqn:Hi.
    + destruct (Hfail E ltac:(discriminate)) as [-> _]. reflexivity.
    + destruct (Hother E eq_refl) as [-> _]. reflexivity.
Qed.

Lemma model_slot_reloads_on_name_change_witness :
  let cmd := [("action", JStr "transcribe"); ("file", JStr "/d/a.mp4");
              ("start", JNum 0); ("end", JNum 5)] in
  let W := Sample.answering (Sample.world []) cmd in
  let tiny := mkModel "tiny.en" 0 in
  let st := mkState tiny tiny "tiny.en" in
  let s := mkSys ∅ ["tiny.en"] [] [] O in
  let f := handle_line W "go" st s in
  flow_state f = mkState tiny (mkModel "large-v3" 1) "large-v3"
  /\ constructed (flow_sys f) = ["tiny.en"; "large-v3"]
  /\ served_by (mkModel "large-v3" 1) s (flow_sys f).
Proof.
  cbn zeta.
  refine (proj1 (proj2 (model_slot_reloads_on_name_change _ "go"
                   [("action", JStr "transcribe"); ("file", JStr "/d/a.mp4");
                    ("start", JNum 0); ("end", JNum 5)] "large-v3"
                   (mkState (mkModel "tiny.en" 0) (mkModel "tiny.en" 0) "tiny.en")
                   (mkSys ∅ ["tiny.en"] [] [] O) _ _)) _ _).
  - reflexivity.
  - right. split; reflexivity.
  - discriminate.
  - reflexivity.
Defined.

(** C7 as stated fails: the cache does not hold at most one loaded model.
    The server starts with [tiny.en] in [scanner_model] and in the slot.
    After a [transcribe] command the slot holds [large-v3] while
    [scanner_model] still refers to the first model: two loaded models.
    A [scan] command that follows constructs [tiny.en] a second time
    while the first one is still referenced: three constructions for two
    names, and again two loaded models. *)
Lemma two_models_stay_loaded :
  let W := Sample.world [] in
  let tiny := mkModel "tiny.en" 0 in
  let st := mkState tiny tiny "tiny.en" in
  let s := built "tiny.en" Sample.blank in
  new_model W "tiny.en" Sample.blank = Ok tiny s
  /\ loaded (flow_state (serve W ["transcribe"] st s))
     = [tiny; mkModel "large-v3" 1]
  /\ loaded (flow_state (serve W ["transcribe"; "scan"] st s))
     = [tiny; mkModel "tiny.en" 2]
  /\ constructed (res_sys (run_server W ["transcribe"; "scan"] Sample.blank))
     = ["tiny.en"; "large-v3"; "tiny.en"].
Proof. cbn zeta. repeat split; vm_compute; reflexivity. Qed.

(** ** Constructions happen nowhere else *)

Lemma prints_run_analyze (W : World) (cmd : json) :
  prints (error_lines (analyze_errors W cmd)) (run_analyze W cmd).
Proof.
  unfold run_analyze.
  apply prints_bind_quiet; [apply prints_emit_errors | intros _].
  destruct (analyze_raises W cmd); auto with quiet.
Qed.

Lemma slot_kept_run_semantic_search (W : World) (d q m t : json) :
  slot_kept (call (run_semantic_search W d q m t)).
Proof.
  apply slot_kept_call. intros s. unfold run_semantic_search.
  destruct (negb (embedder_installed W)); [reflexivity|].
  destruct (embedder_init W m); [reflexivity|].
  destruct (find_transcripts W d t) as [msg|[|f fs]]; try reflexivity.
  destruct (transcript_chunks W (f :: fs)); [reflexivity|].
  destruct (embed_rank W q _); reflexivity.
Qed.

Lemma slot_kept_run_detect_meetings (W : World) (d t c : json) :
  slot_kept (call (run_detect_meetings W d t c)).
Proof.
  apply slot_kept_call. intros s. unfold run_detect_meetings.
  destruct (find_transcripts W d t) as [msg|[|f fs]]; try reflexivity.
  apply prints_emit_errors.
Qed.

Lemma slot_kept_run_analyze (W : World) (cmd : json) :
  slot_kept (call (run_analyze W cmd)).
Proof. eapply slot_kept_prints, prints_run_analyze. Qed.

Ltac slot_kept_chain :=
  repeat first
    [ apply slot_kept_ret
    | apply slot_kept_bind; [|intros ?]
    | apply slot_kept_emit
    | apply slot_kept_need_str
    | apply slot_kept_opt_path
    | apply slot_kept_run_semantic_search
    | apply slot_kept_run_detect_meetings
    | apply slot_kept_run_analyze
    | eapply slot_kept_prints, prints_run_batch_vad_scan ].

(** Every branch of the chain either keeps the slot, or is one of the
    two that start with "ensure model". *)
Lemma dispatch_cases (W : World) (cmd : dict) :
  slot_kept (dispatch W cmd)
  \/ exists v rest,
       slot_kept rest /\ dispatch W cmd = (ensure_model W v;; rest)
       /\ ((get "action" cmd = Some (JStr "scan") /\ v = JStr "tiny.en")
           \/ (get "action" cmd = Some (JStr "transcribe")
               /\ v = get_default "model" (JStr "large-v3") cmd)).
Proof.
  unfold dispatch.
  destruct (get "action" cmd) as [[| | |a| |]|] eqn:Ha; cbn [is_str];
    try (left; apply slot_kept_ret).
  destruct (String.eqb_spec "ping" a) as [<-|_]; [left; slot_kept_chain|].
  destruct (String.eqb_spec "scan" a) as [<-|_].
  { right. exists (JStr "tiny.en"), (scan_rest W cmd).
    split; [apply slot_kept_scan_rest|]. split; [reflexivity|]. left. auto. }
  destruct (String.eqb_spec "vad_scan" a) as [<-|_]; [left; slot_kept_chain|].
  destruct (String.eqb_spec "transcribe" a) as [<-|_].
  { right. exists (get_default "model" (JStr "large-v3") cmd), (transcribe_rest W cmd).
    split; [apply slot_kept_transcribe_rest|]. split; [reflexivity|]. right. auto. }
  destruct (String.eqb_spec "semantic_search" a) as [<-|_]; [left; slot_kept_chain|].
  destruct (String.eqb_spec "analyze" a) as [<-|_]; [left; slot_kept_chain|].
  destruct (String.eqb_spec "detect_meetings" a) as [<-|_]; [left; slot_kept_chain|].
  destruct (String.eqb_spec "exit" a) as [<-|_]; left; apply slot_kept_ret.
Qed.

Lemma slot_kept_catch {A} (m : SM A) (h : string -> SM A) :
  slot_kept m -> (forall msg, slot_kept (h msg)) -> slot_kept (catch m h).
Proof.
  intros Hm Hh st s. unfold catch. destruct (Hm st s) as [H1 H2].
  destruct (m st s) as [a st' s'|msg st' s']; cbn in *; [auto|].
  destruct (Hh msg st' s') as [H3 H4]. split; congruence.
Qed.

(** A line of input leaves the local variables and the list of
    constructions as they are, unless it is a [scan] or [transcribe]
    command that asks for a model under another name than the recorded
    one: then exactly one model is constructed and takes the slot. *)
Lemma construction_only_on_name_change (W : World) (line : string)
    (st : State) (s : Sys) :
  let f := handle_line W line st s in
  (flow_state f = st /\ constructed (flow_sys f) = constructed s)
  \/ exists cmd name,
       json_loads W line = Some (JObj cmd) /\ asks_for cmd name
       /\ current_model_name st <> name
       /\ flow_state f = mkState (scanner_model st)
                           (mkModel name (length (constructed s))) name
       /\ constructed (flow_sys f) = (constructed s ++ [name])%list.
Proof.
  intros f. subst f. unfold handle_line.
  destruct (json_loads W line) as [cmd|] eqn:Hl;
    [|left; apply (slot_kept_bind _ _ (slot_kept_emit _) (fun _ => slot_kept_ret true))].
  assert (Hthrow : forall st s,
            flow_state (catch (throw "AttributeError")
               (fun msg => call (emit (Fail ("[ERROR] " ++ msg)));; mret true) st s) = st
            /\ constructed (flow_sys (catch (throw "AttributeError")
               (fun msg => call (emit (Fail ("[ERROR] " ++ msg)));; mret true) st s))
               = constructed s).
  { apply slot_kept_catch; [apply slot_kept_throw | exact slot_kept_handler]. }
  destruct cmd as [| | | | |d]; try (left; apply Hthrow).
  destruct (dispatch_cases W d) as [Hk | (v & rest & Hrest & -> & Hv)].
  - left. apply slot_kept_catch; [exact Hk | exact slot_kept_handler].
  - destruct (catch_after (ensure_model W v) rest
                (fun msg => call (emit (Fail ("[ERROR] " ++ msg)));; mret true)
                st s Hrest slot_kept_handler) as [H1 H2].
    rewrite H1, H2.
    assert (Hnostr : (forall name, v <> JStr name) ->
              ensure_model W v st s = Thrown "TypeError" st s).
    { intros Hn. unfold ensure_model, mbind, SM_bind, locals.
      destruct v; try reflexivity. exfalso. eapply Hn. reflexivity. }
    destruct v as [| | |name| |] eqn:Ev;
      try (left; rewrite Hnostr by discriminate; split; reflexivity).
    assert (Hask : asks_for d name).
    { destruct Hv as [[Ha E] | [Ha E]]; [left | right]; split; auto; congruence. }
    destruct (String.eqb_spec (current_model_name st) name) as [E | E].
    + left. rewrite (ensure_model_same W name st s E). split; reflexivity.
    + rewrite (ensure_model_other W name st s E).
      destruct (whisper_init W name) as [msg|]; [left; split; reflexivity|].
      right. exists d, name. repeat split; auto.
Qed.

(** ** Lines of the protocol *)



(** ** The response lines of a command *)

Lemma responds_bind {A} (ways : list (list Out)) (j : json) (m : SM A)
    (k : A -> SM bool) :
  [] ∈ ways -> silent m -> (forall a, responds ways j (k a)) ->
  responds ways j (m ≫= k).
Proof.
  intros Hnil Hm Hk st s. unfold mbind, SM_bind. specialize (Hm st s).
  destruct (m st s) as [a st' s'|msg st' s']; cbn in *.
  - destruct (Hk a st' s') as (pre & Hpre & H). exists pre. split; [exact Hpre|].
    rewrite Hm in H. exact H.
  - exists []. split; [exact Hnil|]. rewrite app_nil_r. exact Hm.
Qed.

Lemma responds_bind_ret {A} (ways : list (list Out)) (j : json) (a : A)
    (k : A -> SM bool) :
  responds ways j (k a) -> responds ways j (mret a ≫= k).
Proof. intros H st s. exact (H st s). Qed.

Lemma responds_call {A} (ways : list (list Out)) (j : json) (x : M A) :
  (forall s, exists pre, pre ∈ ways
               /\ stdout (res_sys (x s)) = (stdout s ++ pre)%list) ->
  responds ways j (call x;; call (emit (Dump j));; mret true).
Proof.
  intros Hx st s. destruct (Hx s) as (pre & Hpre & H). exists pre.
  split; [exact Hpre|]. unfold mbind, SM_bind, call.
  destruct (x s) as [a s'|msg s']; cbn in *; [|exact H].
  split; [reflexivity|]. rewrite H, <- app_assoc. reflexivity.
Qed.

Lemma responds_prints {A} (ways : list (list Out)) (j : json) (ls : list Out)
    (x : M A) :
  ls ∈ ways -> prints ls x ->
  responds ways j (call x;; call (emit (Dump j));; mret true).
Proof.
  intros Hin Hx. apply responds_call. intros s. exists ls.
  split; [exact Hin | apply Hx].
Qed.

Lemma responds_quiet {A} (ways : list (list Out)) (j : json) (x : M A) :
  [] ∈ ways -> quiet x ->
  responds ways j (call x;; call (emit (Dump j));; mret true).
Proof.
  intros Hin Hx. apply responds_call. intros s. exists [].
  split; [exact Hin|]. rewrite app_nil_r. apply Hx.
Qed.

Lemma responds_run_semantic_search (W : World) (cmd : dict) :
  responds (callee_lines W "semantic_search" cmd) (complete "semantic_search")
    (call (run_semantic_search W
             (get_default "directory" (JStr ".") cmd)
             (get_default "query" (JStr EmptyString) cmd)
             (get_default "embed_model" (JStr "all-MiniLM-L6-v2") cmd)
             (get_default "transcript_dir" JNull cmd));;
     call (emit (Dump (complete "semantic_search")));; mret true).
Proof.
  apply responds_call. intros s. unfold run_semantic_search, callee_lines.
  cbn [String.eqb Ascii.eqb Bool.eqb orb].
  destruct (negb (embedder_installed W)).
  { eexists. split; [right; left|].
    unfold mbind, M_bind, bind, emit. cbn. rewrite <- app_assoc. reflexivity. }
  destruct (embedder_init W _) as [msg|].
  { eexists. split; [right; right; left|]. reflexivity. }
  destruct (find_transcripts W _ _) as [msg|[|f fs]].
  - exists []. split; [left|]. cbn. rewrite app_nil_r. reflexivity.
  - eexists. split; [right; right; right; left|]. reflexivity.
  - destruct (transcript_chunks W (f :: fs)).
    + eexists. split; [right; right; right; left|]. reflexivity.
    + exists []. split; [left|]. rewrite app_nil_r.
      destruct (embed_rank W _ _); reflexivity.
Qed.

Lemma responds_run_detect_meetings (W : World) (cmd : dict) :
  responds (callee_lines W "detect_meetings" cmd) (complete "detect_meetings")
    (call (run_detect_meetings W
             (get_default "directory" (JStr ".") cmd)
             (get_default "transcript_dir" JNull cmd)
             (JObj cmd));;
     call (emit (Dump (complete "detect_meetings")));; mret true).
Proof.
  apply responds_call. intros s. unfold run_detect_meetings, callee_lines.
  cbn [String.eqb Ascii.eqb Bool.eqb orb].
  destruct (find_transcripts W _ _) as [msg|[|f fs]].
  - exists []. split; [left|]. cbn. rewrite app_nil_r. reflexivity.
  - eexists. split; [right; left|]. reflexivity.
  - eexists. split; [right; right; left|]. apply prints_emit_errors.
Qed.

(** Each answered action prints what its function prints, then the
    answer of the loop. *)
Lemma dispatch_responds (W : World) (cmd : dict) (a : string) :
  get "action" cmd = Some (JStr a) -> a ∈ answered ->
  responds (callee_lines W a cmd) (reply a) (dispatch W cmd).
Proof.
  intros Ha Hin. unfold dispatch. rewrite Ha. unfold answered in Hin.
  repeat (apply elem_of_cons in Hin as [-> | Hin]); [| | | | | | | inversion Hin];
    cbn [is_str String.eqb Ascii.eqb Bool.eqb reply].
  - intros st s. exists []. split; [left|]. split; reflexivity.
  - assert (Hnil : [] ∈ callee_lines W "scan" cmd).
    { unfold callee_lines. cbn [String.eqb Ascii.eqb Bool.eqb orb].
      destruct (get "directory" cmd) as [[]|]; left. }
    apply responds_bind; [exact Hnil | apply silent_ensure_model | intros _].
    destruct (get "directory" cmd) as [[| | |directory| |]|] eqn:Hd;
      try (intros st s; exists []; split; [exact Hnil|];
           cbn; rewrite app_nil_r; reflexivity).
    cbn [need_str]. apply responds_bind_ret.
    apply responds_bind; [exact Hnil | apply silent_opt_path | intros report_path].
    apply responds_bind; [exact Hnil | apply silent_locals | intros st].
    eapply responds_prints; [|apply prints_run_batch_scanner].
    unfold callee_lines. cbn [String.eqb Ascii.eqb Bool.eqb orb].
    rewrite Hd. right. left.
  - assert (Hnil : [] ∈ callee_lines W "vad_scan" cmd).
    { unfold callee_lines. cbn [String.eqb Ascii.eqb Bool.eqb orb].
      destruct (get "directory" cmd) as [[]|]; left. }
    destruct (get "directory" cmd) as [[| | |directory| |]|] eqn:Hd;
      try (intros st s; exists []; split; [exact Hnil|];
           cbn; rewrite app_nil_r; reflexivity).
    cbn [need_str]. apply responds_bind_ret.
    apply responds_bind; [exact Hnil | apply silent_opt_path | intros report_path].
    eapply responds_prints; [|apply prints_run_batch_vad_scan].
    unfold callee_lines. cbn [String.eqb Ascii.eqb Bool.eqb orb].
    rewrite Hd. right. left.
  - assert (Hnil : [] ∈ callee_lines W "transcribe" cmd) by left.
    apply responds_bind; [exact Hnil | apply silent_ensure_model | intros _].
    apply responds_bind; [exact Hnil | apply silent_need_num | intros start].
    apply responds_bind; [exact Hnil | apply silent_need_num | intros end_].
    apply responds_bind; [exact Hnil | apply silent_need_str | intros file_path].
    apply responds_bind; [exact Hnil | apply silent_opt_dir | intros output_dir].
    apply responds_bind; [exact Hnil | apply silent_locals | intros st].
    apply responds_quiet; [exact Hnil | apply quiet_run_transcriber].
  - apply responds_run_semantic_search.
  - eapply responds_prints; [|apply prints_run_analyze]. left.
  - apply responds_run_detect_meetings.
Qed.

(** A command outside the eight actions is dropped without a line. *)
Lemma unknown_action_no_response (W : World) (line : string) (cmd : dict)
    (a : string) (st : State) (s : Sys) :
  json_loads W line = Some (JObj cmd) ->
  get "action" cmd = Some (JStr a) ->
  a ∉ known ->
  handle_line W line st s = Done true st s.
Proof.
  intros Hl Ha Hn. unfold handle_line. rewrite Hl. unfold catch, dispatch.
  rewrite Ha. cbn [is_str].
  repeat match goal with
         | |- context [String.eqb ?x a] =>
             destruct (String.eqb_spec x a) as [<-|_];
             [exfalso; apply Hn; unfold known, answered; cbn [app];
              repeat constructor|]
         end.
  reflexivity.
Qed.

(** C5, as the code has it.  A command whose action is one of [ping],
    [scan], [vad_scan], [transcribe], [semantic_search], [analyze] and
    [detect_meetings] ends with one terminal response line, and the loop
    goes on: the bare JSON object of the action (the [pong] object for
    [ping], the [complete] object naming the action for the others)
    exactly when the handling of the command gets to its end, the error
    line of the [except] clause, with the message of the exception,
    exactly when it raises.  Before that line come the response lines
    that the function called for the command prints itself, if any:
    none for [ping] and [transcribe], and none for [scan] and [vad_scan]
    when the discovery does not fail; for these the terminal line is the
    only response line.  An [exit] command gets no line and ends the
    loop; a command whose action is none of the eight gets no line, and
    the loop goes on. *)
Theorem command_ends_with_one_response (W : World) (line : string) (cmd : dict)
    (a : string) (st : State) (s : Sys) :
  json_loads W line = Some (JObj cmd) ->
  get "action" cmd = Some (JStr a) ->
  let f := handle_line W line st s in
  (a ∈ answered ->
     exists pre,
       pre ∈ callee_lines W a cmd
       /\ match dispatch W cmd st s with
          | Done _ st' s' =>
              f = Done true st' s'
              /\ stdout s' = (stdout s ++ pre ++ [Dump (reply a)])%list
          | Thrown msg st' s' =>
              f = Done true st' (printed (Fail ("[ERROR] " ++ msg)) s')
              /\ stdout s' = (stdout s ++ pre)%list
          end)
  /\ (a = "ping" \/ a = "transcribe" -> callee_lines W a cmd = [[]])
  /\ (a = "scan" \/ a = "vad_scan" ->
      (forall directory, get "directory" cmd = Some (JStr directory) ->
                         discovery_ok W directory = true) ->
      forall pre, pre ∈ callee_lines W a cmd -> pre = [])
  /\ (a = "exit" -> f = Done false st s)
  /\ (a ∉ known -> f = Done true st s).
Proof.
  intros Hl Ha f. split; [|split; [|split; [|split]]].
  - intros Hin. subst f. unfold handle_line. rewrite Hl. unfold catch.
    destruct (dispatch_responds W cmd a Ha Hin st s) as (pre & Hpre & H).
    exists pre. split; [exact Hpre|].
    destruct (dispatch W cmd st s) as [b st' s'|msg st' s'].
    + destruct H as [-> Hj]. auto.
    + split; [reflexivity | exact H].
  - intros [-> | ->]; reflexivity.
  - intros Hscan Hok pre Hpre.
    assert (Hways : callee_lines W a cmd
                    = match get "directory" cmd with
                      | Some (JStr directory) => [[]; discovery_lines W directory]
                      | _ => [[]]
                      end).
    { destruct Hscan as [-> | ->]; reflexivity. }
    rewrite Hways in Hpre.
    destruct (get "directory" cmd) as [[| | |directory| |]|] eqn:Hd;
      try (apply list_elem_of_singleton in Hpre; exact Hpre).
    destruct (discovery_ok_spec W directory (Hok directory eq_refl))
      as (_ & _ & Hlines).
    rewrite Hlines in Hpre.
    apply elem_of_cons in Hpre as [-> | Hpre]; [reflexivity|].
    apply list_elem_of_singleton in Hpre. exact Hpre.
  - intros ->. subst f. unfold handle_line. rewrite Hl. unfold catch, dispatch.
    rewrite Ha. reflexivity.
  - intros Hn. apply (unknown_action_no_response W line cmd a st s Hl Ha Hn).
Qed.

Lemma command_ends_with_one_response_witness :
  let cmd := [("action", JStr "vad_scan"); ("directory", JStr "/d")] in
  let W := Sample.answering (Sample.world ["a.mp4"]) cmd in
  exists st' s',
    handle_line W "go" (mkState (mkModel "tiny.en" 0) (mkModel "tiny.en" 0) "tiny.en")
      Sample.blank
    = Done true st' s'
    /\ stdout s' = [Dump (complete "vad_scan")].
Proof.
  cbn zeta.
  destruct (command_ends_with_one_response
              (Sample.answering (Sample.world ["a.mp4"])
                 [("action", JStr "vad_scan"); ("directory", JStr "/d")])
              "go" [("action", JStr "vad_scan"); ("directory", JStr "/d")]
              "vad_scan"
              (mkState (mkModel "tiny.en" 0) (mkModel "tiny.en" 0) "tiny.en")
              Sample.blank ltac:(reflexivity) ltac:(reflexivity))
    as (Hans & _ & Hscan & _).
  destruct (Hans ltac:(right; right; left)) as (pre & Hpre & H).
  assert (Hnil : pre = []).
  { apply (Hscan ltac:(right; reflexivity)); [|exact Hpre].
    intros directory [= <-]. reflexivity. }
  subst pre.
  destruct (dispatch _ _ _ _) as [b st' s'|msg st' s'] eqn:E.
  - exists st', s'. destruct H as [H1 H2]. split; [exact H1 | exact H2].
  - vm_compute in E. discriminate E.
Defined.

(** ** Where a command does not get exactly one response *)

(** C5 as stated fails.  In a world without transcripts, from a blank
    start: a [semantic_search] command gets two completion lines (one
    printed by [run_semantic_search], one by the loop), so does a
    [detect_meetings] command; a command whose action is not one of the
    eight gets no line at all, and neither does [exit]. *)
Lemma responses_per_command_differ :
  let W := Sample.world [] in
  let lines_of input := stdout (res_sys (run_server W input Sample.blank)) in
  lines_of ["semantic_search"]
  = [Dump (complete_empty "semantic_search"); Dump (complete "semantic_search")]
  /\ lines_of ["detect_meetings"]
     = [Dump (complete_empty "detect_meetings"); Dump (complete "detect_meetings")]
  /\ lines_of ["reindex"] = []
  /\ lines_of ["exit"] = []
  /\ length (lines_of ["semantic_search"]) <> 1%nat
  /\ length (lines_of ["reindex"]) <> 1%nat
  /\ length (lines_of ["exit"]) <> 1%nat.
Proof. repeat split; vm_compute; (reflexivity || discriminate). Qed.

(** The same for any world: when the embedding model loads and no
    transcript file is found, the [semantic_search] branch prints two
    completion lines. *)
Lemma semantic_search_answers_twice (W : World) (line : string) (cmd : dict)
    (st : State) (s : Sys) :
  json_loads W line = Some (JObj cmd) ->
  get "action" cmd = Some (JStr "semantic_search") ->
  embedder_installed W = true ->
  embedder_init W (get_default "embed_model" (JStr "all-MiniLM-L6-v2") cmd) = None ->
  find_transcripts W (get_default "directory" (JStr ".") cmd)
                     (get_default "transcript_dir" JNull cmd) = inr [] ->
  stdout (flow_sys (handle_line W line st s))
  = (stdout s ++ [Dump (complete_empty "semantic_search");
                  Dump (complete "semantic_search")])%list.
Proof.
  intros Hl Ha Hi Hm Hf. unfold handle_line. rewrite Hl.
  unfold catch, dispatch. rewrite Ha. cbn [is_str String.eqb Ascii.eqb Bool.eqb].
  unfold mbind, SM_bind, call, run_semantic_search.
  rewrite Hi, Hm, Hf. cbn. rewrite <- app_assoc. reflexivity.
Qed.

(** When [run_analyze] prints error lines and returns, the command gets
    those lines and a completion line after them. *)
Lemma analyze_errors_then_complete (W : World) (line : string) (cmd : dict)
    (st : State) (s : Sys) :
  json_loads W line = Some (JObj cmd) ->
  get "action" cmd = Some (JStr "analyze") ->
  analyze_raises W (JObj cmd) = None ->
  stdout (flow_sys (handle_line W line st s))
  = (stdout s ++ error_lines (analyze_errors W (JObj cmd))
     ++ [Dump (complete "analyze")])%list.
Proof.
  intros Hl Ha Hr. unfold handle_line. rewrite Hl.
  unfold catch, dispatch. rewrite Ha. cbn [is_str String.eqb Ascii.eqb Bool.eqb].
  unfold mbind at 1, SM_bind at 1, call at 1, run_analyze.
  unfold mbind at 1, M_bind at 1, bind at 1.
  rewrite emit_errors_eq, Hr. cbn. rewrite ?app_assoc. reflexivity.
Qed.

End ServerFacts.

(* ===================================================================== *)
(** * More properties of [cluster_segments] *)
(* ===================================================================== *)
Module ClusterShapeFacts.
Import PyNum PyNumFacts Clusterer ClustererSpec ClustererFacts ClusterShape.

(** ** Counting the blocks *)

Lemma splits_open (T : Q) (st : LoopState) (s : Segment) :
  ~ last_end st == -1 ->
  splits T st s = fgtb (fsub (seg_start s) (last_end st)) T.
Proof.
  intros H. unfold splits. apply eqb_false in H. rewrite H. reflexivity.
Qed.

(** From a state with an open block, the loop closes one block per wide
    gap, and leaves a block open. *)
Lemma fold_block_count (T : Q) (segments : list Segment) :
  Forall no_sentinel segments ->
  forall st, ~ current_start st == -1 -> ~ last_end st == -1 ->
    let st' := fold_left (loop_body T) segments st in
    length (blocks st')
    = (length (blocks st) + gaps_after T (last_end st) segments)%nat
    /\ ~ current_start st' == -1.
Proof.
  induction 1 as [|s rest [Hs He] _ IH]; intros st Hcs Hle; cbn.
  - split; [lia | exact Hcs].
  - destruct (IH (loop_body T st s)) as [IH1 IH2].
    + apply loop_body_open. exact Hs.
    + rewrite loop_body_last_end. exact He.
    + split; [|exact IH2]. rewrite IH1, loop_body_last_end.
      unfold loop_body. rewrite (splits_open T st s Hle).
      destruct (fgtb (fsub (seg_start s) (last_end st)) T); cbn.
      * rewrite length_app. cbn. lia.
      * lia.
Qed.

Lemma cluster_length (T : Q) (s : Segment) (rest : list Segment) :
  Forall no_sentinel (s :: rest) ->
  length (cluster_segments (s :: rest) T).1 = S (wide_gaps T (s :: rest)).
Proof.
  intros H. apply Forall_cons in H as [[Hs He] Hrest].
  unfold cluster_segments. cbn [fold_left wide_gaps].
  destruct (fold_block_count T rest Hrest (loop_body T init s)) as [H1 H2].
  - apply loop_body_open. exact Hs.
  - rewrite loop_body_last_end. exact He.
  - cbn zeta in H1, H2. unfold finish. apply eqb_false in H2. rewrite H2.
    cbn [negb fst]. rewrite length_app, H1, loop_body_last_end.
    change (blocks (loop_body T init s)) with (@nil Block). cbn. lia.
Qed.

Lemma gaps_after_anti (T1 T2 : Q) (segments : list Segment) :
  T1 <= T2 -> forall t,
  (gaps_after T2 t segments <= gaps_after T1 t segments)%nat.
Proof.
  intros HT. induction segments as [|s rest IH]; intros t; cbn; [lia|].
  specialize (IH (seg_end s)).
  destruct (fgtb (fsub (seg_start s) t) T2) eqn:E2.
  - rewrite (fgtb_anti _ T1 T2 HT E2). lia.
  - destruct (fgtb (fsub (seg_start s) t) T1); lia.
Qed.

(** X1.  For a non-empty list of segments none of whose times is the
    sentinel [-1] (every list of real timestamps is such), the number of
    blocks is one more than the number of gaps between consecutive
    segments that the code finds strictly wider than the threshold, the
    gap being the double that [segment.start - last_end] evaluates to.
    So a threshold wider than every gap gives a single block, and a list
    without segments gives none. *)
Theorem cluster_block_count (T : Q) (segments : list Segment) :
  Forall no_sentinel segments ->
  length (cluster_segments segments T).1
  = match segments with
    | [] => O
    | _ :: _ => S (wide_gaps T segments)
    end.
Proof.
  intros H. destruct segments as [|s rest]; [reflexivity|].
  apply cluster_length. exact H.
Qed.

Lemma cluster_block_count_witness :
  let segments := [mkSegment 0 5; mkSegment 10 15; mkSegment 400 410] in
  Forall no_sentinel segments
  /\ wide_gaps 180 segments = 1%nat
  /\ length (cluster_segments segments 180).1 = 2%nat.
Proof.
  cbn zeta.
  assert (H : Forall no_sentinel
                [mkSegment 0 5; mkSegment 10 15; mkSegment 400 410]).
  { repeat constructor; cbn; intros E; inversion E. }
  split; [exact H|]. split; [reflexivity|].
  exact (cluster_block_count 180 _ H).
Defined.

(** X2.  Raising the threshold never gives more blocks: for segments free
    of the sentinel, the clustering under a threshold [T2] has at most as
    many blocks as under a smaller threshold [T1]. *)
Theorem cluster_threshold_monotone (T1 T2 : Q) (segments : list Segment) :
  Forall no_sentinel segments -> T1 <= T2 ->
  (length (cluster_segments segments T2).1
   <= length (cluster_segments segments T1).1)%nat.
Proof.
  intros H HT. destruct segments as [|s rest]; [exact (le_n O)|].
  rewrite !cluster_length by exact H. cbn [wide_gaps].
  pose proof (gaps_after_anti T1 T2 rest HT (seg_end s)). lia.
Qed.

Lemma cluster_threshold_monotone_witness :
  let segments := [mkSegment 0 5; mkSegment 10 15; mkSegment 400 410] in
  (length (cluster_segments segments 180).1
   <= length (cluster_segments segments 3).1)%nat
  /\ length (cluster_segments segments 3).1 = 3%nat.
Proof.
  cbn zeta. split; [|reflexivity].
  apply cluster_threshold_monotone.
  - repeat constructor; cbn; intros E; inversion E.
  - unfold Qle. cbn. lia.
Defined.

(** ** Cutting the input at a wide gap *)

Lemma loop_body_extends (T : Q) (pre : list Block) (st st' : LoopState)
    (s : Segment) :
  extends pre st st' -> extends pre (loop_body T st s) (loop_body T st' s).
Proof.
  intros (Hb & Hc & Hl). unfold loop_body, splits. rewrite Hb, Hc, Hl.
  destruct (negb (eqb (last_end st') (-1))
            && fgtb (fsub (seg_start s) (last_end st')) T);
    cbn; repeat split; auto.
  rewrite <- app_assoc. reflexivity.
Qed.

Lemma fold_extends (T : Q) (pre : list Block) (segments : list Segment) :
  forall st st', extends pre st st' ->
    extends pre (fold_left (loop_body T) segments st)
                (fold_left (loop_body T) segments st').
Proof.
  induction segments as [|s rest IH]; intros st st' H; cbn; [exact H|].
  apply IH, loop_body_extends, H.
Qed.

Lemma finish_extends (pre : list Block) (st st' : LoopState) :
  extends pre st st' -> (finish st).1 = pre ++ (finish st').1.
Proof.
  intros (Hb & Hc & Hl). unfold finish. rewrite Hb, Hc, Hl.
  destruct (negb (eqb (current_start st') (-1))); cbn; [|reflexivity].
  rewrite <- app_assoc. reflexivity.
Qed.

(** X3.  Clustering is local to the stretches between wide gaps.  When
    the gap from the end of the segment [a] to the start of the segment
    [b] that follows it, as the double that [b.start - a.end] evaluates
    to, is greater than the threshold, the blocks of the whole list are
    the blocks of the part up to [a] followed by the blocks of the part
    from [b] on, and the counts add up.  ([a] and [b] free of the
    sentinel.) *)
Theorem cluster_cut_at_wide_gap (T : Q) (xs ys : list Segment) (a b : Segment) :
  no_sentinel a -> no_sentinel b ->
  fgtb (fsub (seg_start b) (seg_end a)) T = true ->
  cluster_segments (xs ++ a :: b :: ys) T
  = ((cluster_segments (xs ++ [a]) T).1 ++ (cluster_segments (b :: ys) T).1,
     ((cluster_segments (xs ++ [a]) T).2 + (cluster_segments (b :: ys) T).2)%nat).
Proof.
  intros [Ha1 Ha2] [Hb1 Hb2] Hgap.
  rewrite (surjective_pairing (cluster_segments (xs ++ a :: b :: ys) T)).
  f_equal; [|rewrite !cluster_count, !length_app; cbn; lia].
  unfold cluster_segments.
  replace (xs ++ a :: b :: ys) with ((xs ++ [a]) ++ b :: ys)
    by (rewrite <- app_assoc; reflexivity).
  rewrite (fold_left_app _ (xs ++ [a])). cbn [fold_left].
  destruct (fold_snoc_state T xs a init Ha1) as [Hle Hcs]. cbn zeta in Hle, Hcs.
  set (stx := fold_left (loop_body T) (xs ++ [a]) init) in *.
  apply finish_extends, fold_extends.
  assert (Hfin : (finish stx).1
                 = blocks stx ++ [mkBlock (round2 (current_start stx))
                                          (round2 (last_end stx))]).
  { unfold finish. apply eqb_false in Hcs. rewrite Hcs. reflexivity. }
  rewrite Hfin. unfold extends, loop_body.
  assert (Hsp : splits T stx b = true).
  { rewrite splits_open by (rewrite Hle; exact Ha2).
    rewrite Hle. exact Hgap. }
  apply eqb_false in Hcs. rewrite Hsp, Hcs. cbn.
  rewrite app_nil_r. repeat split; reflexivity.
Qed.

Lemma cluster_cut_at_wide_gap_witness :
  cluster_segments [mkSegment 0 5; mkSegment 10 15; mkSegment 400 410] 180
  = ((cluster_segments [mkSegment 0 5; mkSegment 10 15] 180).1
       ++ (cluster_segments [mkSegment 400 410] 180).1, 3%nat).
Proof.
  apply (cluster_cut_at_wide_gap 180 [mkSegment 0 5] [] (mkSegment 10 15)
           (mkSegment 400 410)).
  - split; cbn; intros E; inversion E.
  - split; cbn; intros E; inversion E.
  - vm_compute. reflexivity.
Defined.

(** A gap that is wider than the threshold before rounding, and equal to
    it as the double the subtraction gives, does not cut: the segments
    [0 .. 0.3] and [180.3 .. 181], times being the nearest doubles, make
    one block under the threshold 180. *)
Example rounded_gap_does_not_cut :
  let a := mkSegment 0 (5404319552844595 # 18014398509481984) in
  let b := mkSegment (3171871143808205 # 17592186044416) 181 in
  180 < seg_start b - seg_end a
  /\ fgtb (fsub (seg_start b) (seg_end a)) 180 = false
  /\ wide_gaps 180 [a; b] = O
  /\ length (cluster_segments [a; b] 180).1 = 1%nat.
Proof. cbn zeta. repeat split; vm_compute; reflexivity. Qed.

(** ** The blocks span the segments *)

Lemma shape_first_segment (T : Q) (s0 : Segment) :
  0 <= seg_start s0 -> seg_start s0 <= seg_end s0 ->
  Shape s0 [s0] (loop_body T init s0).
Proof.
  intros H0 Hs.
  change (loop_body T init s0) with (mkLoop [] (seg_start s0) (seg_end s0) 1).
  constructor; cbn; auto.
  - exists s0. auto.
  - intros s Hin. apply list_elem_of_singleton in Hin as ->.
    right. split; apply Qle_refl.
Qed.

Lemma shape_step (T : Q) (s0 : Segment) (seen : list Segment) (st : LoopState)
    (s : Segment) :
  Shape s0 seen st -> last_end st <= seg_start s -> seg_start s <= seg_end s ->
  Shape s0 (seen ++ [s]) (loop_body T st s).
Proof.
  intros [[Hcs0 Hcsle] _ Hwf Hfirst Hcov] Hle Hs.
  assert (Hopen : eqb (current_start st) (-1) = false).
  { apply eqb_false. intros E. rewrite E in Hcs0. lra. }
  unfold loop_body. rewrite Hopen.
  destruct (splits T st s); constructor; cbn.
  - split; lra.
  - exists s. split; [apply last_snoc | reflexivity].
  - apply Forall_app. split; [exact Hwf|]. repeat constructor. cbn.
    apply round2_mono. exact Hcsle.
  - destruct (blocks st) as [|b bs]; cbn; [rewrite Hfirst; reflexivity | exact Hfirst].
  - intros s' Hin. apply elem_of_app in Hin as [Hin | Hin].
    + left. destruct (Hcov s' Hin) as [(b & Hb & Hc) | [H1 H2]].
      * exists b. split; [apply elem_of_app; left; exact Hb | exact Hc].
      * eexists. split; [apply elem_of_app; right; left|].
        split; cbn; apply round2_mono; assumption.
    + apply list_elem_of_singleton in Hin as ->. right. split; apply Qle_refl.
  - split; lra.
  - exists s. split; [apply last_snoc | reflexivity].
  - exact Hwf.
  - exact Hfirst.
  - intros s' Hin. apply elem_of_app in Hin as [Hin | Hin].
    + destruct (Hcov s' Hin) as [H | [H1 H2]]; [left; exact H | right].
      split; [exact H1 | lra].
    + apply list_elem_of_singleton in Hin as ->. right. split; lra.
Qed.

Lemma fold_shape (T : Q) (s0 : Segment) (segments : list Segment) :
  forall seen st, Shape s0 seen st -> chrono_from (last_end st) segments ->
    Shape s0 (seen ++ segments) (fold_left (loop_body T) segments st).
Proof.
  induction segments as [|s rest IH]; intros seen st HS Hch; cbn [fold_left].
  - rewrite app_nil_r. exact HS.
  - destruct Hch as (H1 & H2 & H3).
    replace (seen ++ s :: rest) with ((seen ++ [s]) ++ rest)
      by (rewrite <- app_assoc; reflexivity).
    apply IH; [apply shape_step; assumption|].
    rewrite loop_body_last_end. exact H3.
Qed.

(** The loop on a timeline ends in a good shape. *)
Lemma cluster_shape (T : Q) (s0 : Segment) (rest : list Segment) :
  timeline (s0 :: rest) ->
  Shape s0 (s0 :: rest) (fold_left (loop_body T) (s0 :: rest) init).
Proof.
  intros (H0 & Hs & Hrest). cbn [fold_left].
  apply (fold_shape T s0 rest [s0]); [apply shape_first_segment; assumption|].
  rewrite loop_body_last_end. exact Hrest.
Qed.

Lemma finish_open (st : LoopState) :
  0 <= current_start st ->
  (finish st).1 = blocks st ++ [mkBlock (round2 (current_start st))
                                        (round2 (last_end st))].
Proof.
  intros H. unfold finish.
  assert (E : eqb (current_start st) (-1) = false).
  { apply eqb_false. intros E. rewrite E in H. lra. }
  rewrite E. reflexivity.
Qed.

(** X4.  On a timeline (chronologically sorted timestamps, none
    negative) that starts with the segment [s0]: every block has
    [start <= end]; the first block starts where the first segment starts
    and the last block ends where the last segment ends, both rounded to
    two decimals. *)
Theorem cluster_blocks_span_timeline (T : Q) (s0 : Segment) (rest : list Segment) :
  timeline (s0 :: rest) ->
  let found := (cluster_segments (s0 :: rest) T).1 in
  Forall (fun b => blk_start b <= blk_end b) found
  /\ (exists b, head found = Some b /\ blk_start b = round2 (seg_start s0))
  /\ (exists b s, last found = Some b /\ last (s0 :: rest) = Some s
                  /\ blk_end b = round2 (seg_end s)).
Proof.
  intros Ht found. subst found. unfold cluster_segments.
  destruct (cluster_shape T s0 rest Ht) as [[Hcs0 Hcsle] (s & Hlast & Hend) Hwf Hfirst _].
  set (st := fold_left (loop_body T) (s0 :: rest) init) in *.
  rewrite (finish_open st Hcs0). clearbody st. split; [|split].
  - apply Forall_app. split; [exact Hwf|]. repeat constructor. cbn.
    apply round2_mono. exact Hcsle.
  - destruct (blocks st) as [|b bs]; cbn.
    + eexists. split; [reflexivity|]. cbn. rewrite Hfirst. reflexivity.
    + exists b. split; [reflexivity | exact Hfirst].
  - eexists. exists s. split; [apply last_snoc|]. split; [exact Hlast|].
    cbn. rewrite Hend. reflexivity.
Qed.

Lemma cluster_blocks_span_timeline_witness :
  let found :=
    (cluster_segments [mkSegment 0 5; mkSegment 10 15; mkSegment 400 410] 180).1 in
  Forall (fun b => blk_start b <= blk_end b) found
  /\ found = [mkBlock 0 15; mkBlock 400 410].
Proof.
  cbn zeta. split; [|reflexivity].
  refine (proj1 (cluster_blocks_span_timeline 180 (mkSegment 0 5)
                   [mkSegment 10 15; mkSegment 400 410] _)).
  cbn. repeat split; unfold Qle; cbn; lia.
Defined.

(** X5.  No speech is lost: on a timeline, every segment lies inside one
    of the blocks - the block starts no later than the segment and ends no
    earlier, all times rounded to two decimals. *)
Theorem cluster_covers_every_segment (T : Q) (segments : list Segment) (s : Segment) :
  timeline segments -> s ∈ segments ->
  exists b, b ∈ (cluster_segments segments T).1 /\ covers b s.
Proof.
  intros Ht Hin. destruct segments as [|s0 rest]; [inversion Hin|].
  unfold cluster_segments.
  destruct (cluster_shape T s0 rest Ht) as [[Hcs0 Hcsle] _ _ _ Hcov].
  set (st := fold_left (loop_body T) (s0 :: rest) init) in *.
  rewrite (finish_open st Hcs0). clearbody st.
  destruct (Hcov s Hin) as [(b & Hb & Hc) | [H1 H2]].
  - exists b. split; [apply elem_of_app; left; exact Hb | exact Hc].
  - eexists. split; [apply elem_of_app; right; left|].
    split; cbn; apply round2_mono; assumption.
Qed.

Lemma cluster_covers_every_segment_witness :
  exists b,
    b ∈ (cluster_segments [mkSegment 0 5; mkSegment 10 15; mkSegment 400 410] 180).1
    /\ covers b (mkSegment 10 15).
Proof.
  apply cluster_covers_every_segment.
  - cbn. repeat split; unfold Qle; cbn; lia.
  - right. left.
Defined.

End ClusterShapeFacts.

(* ===================================================================== *)
(** * More properties of [find_media_files] *)
(* ===================================================================== *)
Module DiscoveryEdgeFacts.
Import Path PathFacts Env Discovery.
Local Open Scope string_scope.

(** ** A trailing quote on the directory argument *)

Lemma drop_last_snoc (s : string) (c : ascii) :
  drop_last (s ++ String c EmptyString) = s.
Proof.
  induction s as [|a s IH]; [reflexivity|].
  change (drop_last (String a (s ++ String c EmptyString)) = String a s).
  cbn [drop_last].
  destruct (s ++ String c EmptyString) as [|b t] eqn:E.
  - destruct s; discriminate E.
  - rewrite <- IH. reflexivity.
Qed.

(** X6.  A trailing double quote on the directory argument (an artifact
    of command-line quoting) is dropped before anything else is done with
    it: discovery under [directory] followed by a quote is discovery
    under [directory], in what it returns, writes and prints.  One quote
    is dropped, so [directory] itself is taken not to end with one. *)
Theorem discovery_ignores_trailing_quote (W : World) (directory : string) :
  endswith directory dquote = false ->
  find_media_files W (directory ++ dquote) = find_media_files W directory.
Proof.
  intros H. unfold find_media_files.
  assert (E : normalize W (directory ++ dquote) = normalize W directory).
  { unfold normalize. rewrite endswith_app, H.
    rewrite (drop_last_snoc directory (ascii_of_nat 34) : drop_last (directory ++ dquote) = _).
    reflexivity. }
  rewrite E. reflexivity.
Qed.

Lemma discovery_ignores_trailing_quote_witness :
  find_media_files (Sample.world ["c.MKV"; "b.txt"; "a.mp4"]) ("/d" ++ dquote)
    Sample.blank
  = find_media_files (Sample.world ["c.MKV"; "b.txt"; "a.mp4"]) "/d" Sample.blank
  /\ discovered (Sample.world ["c.MKV"; "b.txt"; "a.mp4"]) ("/d" ++ dquote)
     = ["/d/a.mp4"; "/d/c.MKV"].
Proof.
  split.
  - rewrite (discovery_ignores_trailing_quote _ "/d" ltac:(reflexivity)).
    reflexivity.
  - unfold discovered.
    rewrite (discovery_ignores_trailing_quote _ "/d" ltac:(reflexivity)).
    reflexivity.
Defined.

(** ** Letter case *)

Lemma lower_char_keeps (c : ascii) :
  c = "."%char \/ c = "/"%char ->
  forall a, Ascii.eqb (lower_char a) c = Ascii.eqb a c.
Proof.
  intros [-> | ->] a; destruct a as [[] [] [] [] [] [] [] []]; reflexivity.
Qed.

Lemma rsplit_lower (c : ascii) (s : string) :
  (forall a, Ascii.eqb (lower_char a) c = Ascii.eqb a c) ->
  rsplit c (lower s)
  = match rsplit c s with
    | Some (x, y) => Some (lower x, lower y)
    | None => None
    end.
Proof.
  intros Hc. induction s as [|a s IH]; [reflexivity|].
  cbn [lower rsplit]. rewrite IH, Hc.
  destruct (rsplit c s) as [[x y]|]; [reflexivity|].
  destruct (Ascii.eqb a c); reflexivity.
Qed.

Lemma all_char_lower (c : ascii) (s : string) :
  (forall a, Ascii.eqb (lower_char a) c = Ascii.eqb a c) ->
  all_char c (lower s) = all_char c s.
Proof.
  intros Hc. induction s as [|a s IH]; [reflexivity|].
  cbn [lower all_char]. rewrite IH, Hc. reflexivity.
Qed.

Lemma splitext_name_lower (name : string) :
  (splitext_name (lower name)).2 = lower (splitext_name name).2.
Proof.
  unfold splitext_name.
  rewrite (rsplit_lower "." name (lower_char_keeps _ (or_introl eq_refl))).
  destruct (rsplit "." name) as [[root ext]|]; [|reflexivity].
  rewrite (all_char_lower "." root (lower_char_keeps _ (or_introl eq_refl))).
  destruct (all_char "." root); reflexivity.
Qed.

(** Lowering a name lowers its extension. *)
Lemma splitext_lower (p : string) :
  (splitext (lower p)).2 = lower (splitext p).2.
Proof.
  unfold splitext.
  rewrite (rsplit_lower "/" p (lower_char_keeps _ (or_intror eq_refl))).
  destruct (rsplit "/" p) as [[before name]|]; [|apply splitext_name_lower].
  pose proof (splitext_name_lower name) as H.
  destruct (splitext_name (lower name)), (splitext_name name). exact H.
Qed.

Lemma is_ascii_lower (s : string) : is_ascii (lower s) = is_ascii s.
Proof.
  induction s as [|a s IH]; [reflexivity|].
  cbn [lower is_ascii]. rewrite IH. f_equal.
  destruct a as [[] [] [] [] [] [] [] []]; reflexivity.
Qed.

(** [str.lower] of a string depends on the string with its ASCII letters
    lowered only. *)
Lemma str_lower_lower (W : World) (s t : string) :
  lower s = lower t -> str_lower W s = str_lower W t.
Proof.
  intros E. unfold str_lower.
  rewrite <- (is_ascii_lower s), <- (is_ascii_lower t), E. reflexivity.
Qed.

(** X7.  Whether a file is taken as media does not depend on the case of
    its letters: two names that are equal up to (ASCII) letter case are
    both accepted or both ignored. *)
Theorem acceptance_ignores_case (W : World) (f g : string) :
  lower f = lower g -> accepted W f = accepted W g.
Proof.
  intros E. unfold accepted.
  rewrite (str_lower_lower W (splitext f).2 (splitext g).2); [reflexivity|].
  rewrite <- (splitext_lower f), <- (splitext_lower g), E. reflexivity.
Qed.

Lemma acceptance_ignores_case_witness :
  accepted (Sample.world []) "Clip.Mp4" = accepted (Sample.world []) "clip.mp4"
  /\ accepted (Sample.world []) "clip.mp4" = true.
Proof.
  split; [|reflexivity].
  apply acceptance_ignores_case. reflexivity.
Defined.

End DiscoveryEdgeFacts.

(* ===================================================================== *)
(** * More properties of the batch scans *)
(* ===================================================================== *)
Module BatchShapeFacts.
Import Json Path Env Discovery Clusterer Batch.
Import BatchSpec DiscoveryFacts BatchFacts BatchShape.
Local Open Scope string_scope.

(** ** A run that does not resume *)














(** ** What every saved report says *)

Lemma scanner_returns_inv (W : World) (directory : string) (use_vad : bool)
    (report_path : option string) (model : option Model) (skip_existing : bool)
    (s s' : Sys) :
  run_batch_scanner W directory use_vad report_path model skip_existing s = Ok tt s' ->
  (model = None -> whisper_init W "tiny.en" = None)
  /\ countable skip_existing
       (existing_of skip_existing (resolve W report_path)
          (after_discovery W directory s))
       (discovered W directory).
Proof.
  intros Hrun. unfold run_batch_scanner in Hrun. rewrite bind_discovery in Hrun.
  fold (resolve W report_path) in Hrun.
  set (s0 := after_discovery W directory s) in *.
  assert (Hinit : model = None -> whisper_init W "tiny.en" = None).
  { intros ->. destruct (whisper_init W "tiny.en") as [msg|] eqn:E; [|reflexivity].
    unfold mbind, M_bind, bind, new_model in Hrun. rewrite E in Hrun.
    discriminate Hrun. }
  split; [exact Hinit|].
  set (s1 := match model with
             | Some _ => s0
             | None => mkSys (fs s0) (constructed s0 ++ ["tiny.en"])
                             (calls s0) (stdout s0) (clock s0)
             end).
  set (m := match model with
            | Some m => m
            | None => mkModel "tiny.en" (length (constructed s0))
            end).
  assert (Hm : (match model with
                | None => new_model W "tiny.en"
                | Some m0 => mret m0
                end) s0 = Ok m s1).
  { subst m s1. destruct model as [m0|]; [reflexivity|].
    unfold new_model. rewrite (Hinit eq_refl). reflexivity. }
  rewrite (bind_ok _ _ _ _ _ Hm) in Hrun.
  rewrite (bind_ok _ _ _ _ _ (load_existing_eq skip_existing _ s1)) in Hrun.
  assert (Hex : existing_of skip_existing (resolve W report_path) s1
                = existing_of skip_existing (resolve W report_path) s0).
  { subst s1. destruct model; reflexivity. }
  rewrite Hex in Hrun.
  destruct (countableb skip_existing
              (existing_of skip_existing (resolve W report_path) s0)
              (discovered W directory)) eqn:Hc.
  - apply countableb_spec. exact Hc.
  - exfalso.
    assert (Hn : ~ countable skip_existing
                     (existing_of skip_existing (resolve W report_path) s0)
                     (discovered W directory)).
    { intros C. apply countableb_spec in C. congruence. }
    destruct (scan_loop_raises skip_existing _ (scan_entry W m use_vad)
                (scan_entry_regular W m use_vad) (discovered W directory)
                Hn ([], O) s1) as (msg & s2 & E).
    rewrite (bind_raised _ _ _ _ _ E) in Hrun. discriminate Hrun.
Qed.

Lemma vad_returns_inv (W : World) (directory : string) (threshold : json)
    (report_path : option string) (skip_existing : bool) (s s' : Sys) :
  run_batch_vad_scan W directory threshold report_path skip_existing s = Ok tt s' ->
  countable skip_existing
    (existing_of skip_existing (resolve W report_path)
       (after_discovery W directory s))
    (discovered W directory).
Proof.
  intros Hrun.
  destruct (countableb skip_existing
              (existing_of skip_existing (resolve W report_path)
                 (after_discovery W directory s))
              (discovered W directory)) eqn:Hc.
  - apply countableb_spec. exact Hc.
  - exfalso.
    destruct (run_batch_vad_scan_raises W directory threshold report_path
                skip_existing s) as (msg & s2 & E).
    + intros C. apply countableb_spec in C. congruence.
    + rewrite E in Hrun. discriminate Hrun.
Qed.

(** X10.  Whenever [run_batch_scanner] returns, the report it has saved
    gives ["custom"] as its [scan_model] - also when no model was passed
    in and the function loaded [tiny.en] itself: by the time the report
    is built, [model] is bound in both cases. *)
Theorem scanner_report_model_is_custom (W : World) (directory : string)
    (use_vad : bool) (report_path : option string) (model : option Model)
    (skip_existing : bool) (s s' : Sys) :
  run_batch_scanner W directory use_vad report_path model skip_existing s = Ok tt s' ->
  exists report,
    fs s' !! resolve W report_path = Some [Doc report]
    /\ member "scan_model" report = Some (JStr "custom").
Proof.
  intros Hrun.
  destruct (scanner_returns_inv _ _ _ _ _ _ _ _ Hrun) as [Hinit Hc].
  pose proof (run_batch_scanner_closed W directory use_vad report_path model
                skip_existing s Hinit Hc) as H.
  cbn zeta in H. rewrite Hrun in H. cbn [res_sys] in H. subst s'.
  eexists. split; [cbn; apply lookup_insert_eq | reflexivity].
Qed.

Lemma scanner_report_model_is_custom_witness :
  exists s' report,
    run_batch_scanner (Sample.world ["a.mp4"]) "/d" true (Some "/r.json") None false
      Sample.blank = Ok tt s'
    /\ fs s' !! "/r.json" = Some [Doc report]
    /\ member "scan_model" report = Some (JStr "custom").
Proof.
  set (r := run_batch_scanner (Sample.world ["a.mp4"]) "/d" true (Some "/r.json")
              None false Sample.blank).
  assert (H : r = Ok tt (res_sys r)) by (vm_compute; reflexivity).
  destruct (scanner_report_model_is_custom (Sample.world ["a.mp4"]) "/d" true
              (Some "/r.json") None false Sample.blank (res_sys r) H)
    as (report & H1 & H2).
  exists (res_sys r), report. auto.
Defined.

Lemma count_voice_fold {A} (v : A -> bool) (l : list A) (n : nat) :
  fold_left count_voice (map v l) n = (n + length (List.filter v l))%nat.
Proof.
  revert n. induction l as [|x l IH]; intros n; cbn; [lia|].
  rewrite IH. unfold count_voice. destruct (v x); cbn; lia.
Qed.

Lemma filter_map_length {A B} (f : A -> B) (P : B -> bool) (l : list A) :
  length (List.filter P (map f l)) = length (List.filter (fun x => P (f x)) l).
Proof.
  induction l as [|x l IH]; [reflexivity|]. cbn.
  destruct (P (f x)); cbn; rewrite IH; reflexivity.
Qed.

Lemma filter_length_le {A} (P : A -> bool) (l : list A) :
  (length (List.filter P l) <= length l)%nat.
Proof.
  induction l as [|x l IH]; [cbn; lia|]. cbn. destruct (P x); cbn; lia.
Qed.

Lemma vad_entry_tells (W : World) (threshold : json) (p : string) :
  tells_voice (entry_of (vad_entry W threshold) p).1
  = (entry_of (vad_entry W threshold) p).2.
Proof.
  unfold entry_of, vad_entry, try_except, run_vad_scan.
  unfold mbind, M_bind, bind, mret, M_ret, ret. cbn.
  destruct (silero_vad W p threshold) as [msg | [[|t ts] total]]; reflexivity.
Qed.

Lemma scan_entry_tells (W : World) (m : Model) (use_vad : bool) (p : string) :
  tells_voice (entry_of (scan_entry W m use_vad) p).1
  = (entry_of (scan_entry W m use_vad) p).2.
Proof.
  unfold entry_of, scan_entry, try_except, transcribe.
  unfold mbind, M_bind, bind, mret, M_ret, ret. cbn.
  destruct (whisper_transcribe W m p _) as [msg | [segments duration]];
    [reflexivity|].
  destruct (cluster_segments _ _) as [[|b bs] n] eqn:E; [reflexivity|].
  destruct (cluster_nonempty_count _ _ _ _ _ E) as [k ->]. reflexivity.
Qed.

(** The loop counts a file as one with voice exactly when the entry it
    appends tells of voice. *)
Lemma out_tells (skip_existing : bool) (existing : gmap string dict)
    (process : string -> M (json * bool)) (p : string) :
  (forall q, tells_voice (entry_of process q).1 = (entry_of process q).2) ->
  tells_voice (out skip_existing existing process p)
  = voiced skip_existing existing process p.
Proof.
  intros H. unfold out, voiced.
  destruct (reused skip_existing existing p) as [prev|] eqn:Hr; [|apply H].
  destruct (reused_inv _ _ _ _ Hr) as (_ & _ & Herr).
  cbn. rewrite Herr. destruct (voice_of prev); reflexivity.
Qed.

Lemma voice_entries_out (skip_existing : bool) (existing : gmap string dict)
    (process : string -> M (json * bool)) (files : list string) :
  (forall q, tells_voice (entry_of process q).1 = (entry_of process q).2) ->
  fold_left count_voice (map (voiced skip_existing existing process) files) O
  = voice_entries (map (out skip_existing existing process) files).
Proof.
  intros H. rewrite count_voice_fold. unfold voice_entries.
  rewrite filter_map_length. cbn. f_equal.
  induction files as [|p rest IH]; [reflexivity|]. cbn.
  rewrite (out_tells _ _ _ p H), IH. reflexivity.
Qed.

(** X11.  The counters of a saved report agree with its entries.  When a
    batch scan ([run_batch_vad_scan] or [run_batch_scanner], resumed or
    not) returns, the report on disk has [total_files] equal to the
    number of its entries, and [files_with_voice] equal to the number of
    entries that record no error and have [segments_found > 0] - reused
    entries included; so [files_with_voice <= total_files]. *)
Theorem report_counters_match_entries (W : World) (directory : string)
    (threshold : json) (use_vad : bool) (report_path : option string)
    (model : option Model) (skip_existing : bool) (s s' : Sys) :
  run_batch_vad_scan W directory threshold report_path skip_existing s = Ok tt s'
  \/ run_batch_scanner W directory use_vad report_path model skip_existing s
     = Ok tt s' ->
  exists report,
    fs s' !! resolve W report_path = Some [Doc report]
    /\ member "total_files" report = Some (of_nat (length (report_entries report)))
    /\ member "files_with_voice" report
       = Some (of_nat (voice_entries (report_entries report)))
    /\ (voice_entries (report_entries report) <= length (report_entries report))%nat.
Proof.
  intros [Hrun | Hrun].
  - pose proof (vad_returns_inv _ _ _ _ _ _ _ Hrun) as Hc.
    pose proof (run_batch_vad_scan_closed W directory threshold report_path
                  skip_existing s Hc) as H.
    cbn zeta in H. rewrite Hrun in H. injection H as ->.
    eexists. split; [cbn; apply lookup_insert_eq|].
    cbn [report_entries vad_report get String.eqb Ascii.eqb Bool.eqb].
    split; [|split].
    + unfold member. cbn. rewrite length_map. reflexivity.
    + unfold member. cbn.
      rewrite (voice_entries_out _ _ _ _ (vad_entry_tells W threshold)). reflexivity.
    + apply filter_length_le.
  - destruct (scanner_returns_inv _ _ _ _ _ _ _ _ Hrun) as [Hinit Hc].
    pose proof (run_batch_scanner_closed W directory use_vad report_path model
                  skip_existing s Hinit Hc) as H.
    cbn zeta in H. rewrite Hrun in H. cbn [res_sys] in H. subst s'.
    eexists. split; [cbn; apply lookup_insert_eq|].
    cbn [report_entries scanner_report get String.eqb Ascii.eqb Bool.eqb].
    split; [|split].
    + unfold member. cbn. rewrite length_map. reflexivity.
    + unfold member. cbn.
      rewrite (voice_entries_out _ _ _ _ (scan_entry_tells W _ use_vad)). reflexivity.
    + apply filter_length_le.
Qed.

Lemma report_counters_match_entries_witness :
  exists s' report,
    run_batch_vad_scan (Sample.world ["a.mp4"; "bad.mp4"]) "/d" (JNum (1 # 2))
      (Some "/r.json") true Sample.with_report = Ok tt s'
    /\ fs s' !! "/r.json" = Some [Doc report]
    /\ member "total_files" report = Some (JNum 2)
    /\ member "files_with_voice" report = Some (JNum 1).
Proof.
  set (r := run_batch_vad_scan (Sample.world ["a.mp4"; "bad.mp4"]) "/d"
              (JNum (1 # 2)) (Some "/r.json") true Sample.with_report).
  assert (H : r = Ok tt (res_sys r)) by (vm_compute; reflexivity).
  destruct (report_counters_match_entries (Sample.world ["a.mp4"; "bad.mp4"]) "/d"
              (JNum (1 # 2)) true (Some "/r.json") None true Sample.with_report
              (res_sys r) (or_introl H))
    as (report & H1 & H2 & H3 & _).
  exists (res_sys r), report. split; [exact H|]. split; [exact H1|].
  assert (E : Some [Doc report] = fs (res_sys r) !! "/r.json") by (symmetry; exact H1).
  vm_compute in E. injection E as ->. split; reflexivity.
Defined.

(** ** Prior reports that cannot be used *)

Lemma scan_loop_nothing_indexed (process : string -> M (json * bool))
    (files : list string) :
  forall acc s,
    scan_loop true ∅ process files acc s = scan_loop false ∅ process files acc s.
Proof.
  induction files as [|p rest IH]; intros acc s; [reflexivity|].
  cbn [scan_loop]. unfold mbind, M_bind, bind.
  assert (E : visit true ∅ process acc p s = visit false ∅ process acc p s).
  { unfold visit. rewrite lookup_empty. reflexivity. }
  rewrite E. destruct (visit false ∅ process acc p s); [apply IH | reflexivity].
Qed.

Lemma bind_same {A B} (m m' : M A) (k : A -> M B) (s : Sys) :
  m s = m' s -> (m ≫= k) s = (m' ≫= k) s.
Proof. intros H. unfold mbind, M_bind, bind. rewrite H. reflexivity. Qed.

Lemma existing_of_unusable (path : string) (s : Sys) :
  (forall data, fs s !! path = Some [Doc data] -> report_entries data = []) ->
  existing_of true path s = ∅.
Proof.
  intros H. unfold existing_of.
  destruct (fs s !! path) as [[|[l|data] [|? ?]]|]; try reflexivity.
  rewrite index_report_entries, (H data eq_refl). reflexivity.
Qed.

(** X12.  A prior report that cannot be used is ignored without a word:
    when the file at the report path is missing, does not hold one JSON
    document, or holds a document without a list of ["results"] (or with
    an empty one), a batch scan run with [skip_existing] does exactly what
    it does without it. *)
Theorem unusable_report_means_fresh_scan (W : World) (directory : string)
    (threshold : json) (use_vad : bool) (report_path : option string)
    (model : option Model) (s : Sys) :
  (forall data, fs s !! resolve W report_path = Some [Doc data] ->
                report_entries data = []) ->
  run_batch_vad_scan W directory threshold report_path true s
  = run_batch_vad_scan W directory threshold report_path false s
  /\ run_batch_scanner W directory use_vad report_path model true s
     = run_batch_scanner W directory use_vad report_path model false s.
Proof.
  intros H0.
  set (s0 := after_discovery W directory s).
  assert (H : forall data, fs s0 !! resolve W report_path = Some [Doc data] ->
                           report_entries data = []).
  { intros data. subst s0. rewrite after_discovery_fs. unfold with_debug_log.
    destruct (discovery_split W directory)
      as [(_ & _ & -> & _) | (_ & _ & chunks & -> & Hl & _)]; [apply H0|].
    destruct (decide (resolve W report_path
                      = debug_log_path W (normalize W directory))) as [-> | Hne].
    - rewrite lookup_insert_eq. intros [= ->].
      inversion Hl as [|? ? [l Hj] _]. discriminate.
    - rewrite lookup_insert_ne by congruence. apply H0. }
  split.
  - unfold run_batch_vad_scan. rewrite !bind_discovery.
    fold (resolve W report_path). fold s0.
    rewrite !(bind_ok _ _ _ _ _ (load_existing_eq _ _ _)).
    rewrite (existing_of_unusable _ _ H).
    change (existing_of false (resolve W report_path) s0)
      with (∅ : gmap string dict).
    apply bind_same, scan_loop_nothing_indexed.
  - unfold run_batch_scanner. rewrite !bind_discovery.
    fold (resolve W report_path). fold s0.
    destruct (match model with
              | Some m => mret m
              | None => new_model W "tiny.en"
              end s0) as [m s1|msg s1] eqn:Hm;
      [|rewrite !(bind_raised _ _ _ _ _ Hm); reflexivity].
    rewrite !(bind_ok _ _ _ _ _ Hm).
    assert (Hfs : fs s1 = fs s0).
    { destruct model as [m0|].
      - injection Hm as _ <-. reflexivity.
      - unfold new_model in Hm. destruct (whisper_init W "tiny.en"); [discriminate|].
        injection Hm as _ <-. reflexivity. }
    rewrite !(bind_ok _ _ _ _ _ (load_existing_eq _ _ s1)).
    rewrite (existing_of_unusable _ s1) by (rewrite Hfs; exact H).
    change (existing_of false (resolve W report_path) s1) with (∅ : gmap string dict).
    apply bind_same, scan_loop_nothing_indexed.
Qed.

Lemma unusable_report_means_fresh_scan_witness :
  let W := Sample.world ["a.mp4"] in
  let s := mkSys {[ "/r.json" := [Line "not json"] ]} [] [] [] O in
  run_batch_vad_scan W "/d" (JNum (1 # 2)) (Some "/r.json") true s
  = run_batch_vad_scan W "/d" (JNum (1 # 2)) (Some "/r.json") false s.
Proof.
  cbn zeta.
  refine (proj1 (unusable_report_means_fresh_scan (Sample.world ["a.mp4"]) "/d"
                   (JNum (1 # 2)) true (Some "/r.json") None _ _)).
  intros data E. vm_compute in E. discriminate E.
Defined.

(** The loop writes no file. *)
Lemma scan_loop_keeps_files (skip_existing : bool) (existing : gmap string dict)
    (process : string -> M (json * bool)) (files : list string) :
  regular process ->
  forall acc s,
    fs (res_sys (scan_loop skip_existing existing process files acc s)) = fs s.
Proof.
  intros Hreg. induction files as [|p rest IH]; intros acc s; [reflexivity|].
  cbn [scan_loop]. unfold mbind, M_bind, bind.
  assert (Hv : fs (res_sys (visit skip_existing existing process acc p s)) = fs s).
  { destruct acc as [results n]. unfold visit.
    assert (Hfresh : fs (res_sys (('(entry, v) ← process p;
                mret ((results ++ [entry])%list, count_voice n v)) s)) = fs s).
    { rewrite (bind_ok _ _ _ _ _ (proj1 (Hreg p s))).
      destruct (entry_of process p). reflexivity. }
    destruct (if skip_existing then existing !! p else None) as [prev|];
      [|exact Hfresh].
    destruct (negb (has_key "error" prev)); [|exact Hfresh].
    destruct (gt_zero _); reflexivity. }
  destruct (visit skip_existing existing process acc p s) as [acc' s1|msg s1];
    cbn in Hv; [|exact Hv].
  rewrite IH. exact Hv.
Qed.

(** X13.  A reusable prior entry whose ["segments_found"] does not compare
    with [0] (a string, [null], a list) stops a resumed
    [run_batch_vad_scan]: the comparison raises outside every [try], the
    function raises, and no report is written - the prior report is as
    it was, and so is the rest of the disk but for the debug log of the
    discovery, whatever had been scanned before the entry was met.  (The
    prior report is not that debug log.) *)
Theorem resume_on_odd_count_saves_nothing (W : World) (directory : string)
    (threshold : json) (report_path : option string) (s : Sys) (data : json)
    (p : string) (prev : dict) :
  let files := discovered W directory in
  let path := resolve W report_path in
  path <> debug_log_path W (normalize W directory) ->
  fs s !! path = Some [Doc data] ->
  forallb loadable (report_entries data) = true ->
  p ∈ files ->
  prior_entry p (report_entries data) = Some prev ->
  has_key "error" prev = false ->
  voice_of prev = None ->
  exists msg s',
    run_batch_vad_scan W directory threshold report_path true s = Raised msg s'
    /\ fs s' = with_debug_log W directory (fs s)
    /\ fs s' !! path = Some [Doc data].
Proof.
  intros files path Hpath Hd Hl Hp Hprior Herr Hv.
  set (s0 := after_discovery W directory s).
  assert (Hd0 : fs s0 !! path = Some [Doc data]).
  { subst s0. rewrite (report_after_discovery W directory path s Hpath). exact Hd. }
  assert (Hn : ~ countable true (existing_of true path s0) files).
  { intros C. destruct (C p prev Hp) as [v E]; [|congruence].
    unfold reused. rewrite (existing_of_prior path s0 data p Hd0 Hl), Hprior, Herr.
    reflexivity. }
  unfold run_batch_vad_scan. rewrite bind_discovery. fold files s0.
  fold (resolve W report_path). fold path.
  rewrite (bind_ok _ _ _ _ _ (load_existing_eq true path s0)).
  destruct (scan_loop_raises true _ (vad_entry W threshold)
              (vad_entry_regular W threshold) files Hn ([], O) s0) as (msg & s' & E).
  exists msg, s'. split; [apply bind_raised; exact E|].
  pose proof (scan_loop_keeps_files true (existing_of true path s0)
                (vad_entry W threshold) files (vad_entry_regular W threshold)
                ([], O) s0) as Hfs.
  rewrite E in Hfs. cbn [res_sys] in Hfs. split.
  - rewrite Hfs. subst s0. apply after_discovery_fs.
  - rewrite Hfs. exact Hd0.
Qed.

Lemma resume_on_odd_count_saves_nothing_witness :
  let W := Sample.world ["a.mp4"; "b.mp4"] in
  let odd := [("file", JStr "/d/b.mp4"); ("segments_found", JStr "3")] in
  let s := mkSys {[ "/r.json" := [Doc (JObj [("results", JArr [JObj odd])])] ]}
                 [] [] [] O in
  exists msg s',
    run_batch_vad_scan W "/d" (JNum (1 # 2)) (Some "/r.json") true s = Raised msg s'
    /\ fs s' !! "/r.json" = fs s !! "/r.json"
    /\ calls s' = [VadScan "/d/a.mp4"].
Proof.
  intros W odd s.
  assert (Hd : fs s !! resolve W (Some "/r.json")
               = Some [Doc (JObj [("results", JArr [JObj odd])])])
    by (vm_compute; reflexivity).
  assert (Hp : "/d/b.mp4" ∈ discovered W "/d") by (vm_compute; right; left).
  destruct (resume_on_odd_count_saves_nothing W "/d" (JNum (1 # 2)) (Some "/r.json")
              s (JObj [("results", JArr [JObj odd])]) "/d/b.mp4" odd
              ltac:(discriminate) Hd ltac:(reflexivity) Hp ltac:(reflexivity)
              ltac:(reflexivity) ltac:(reflexivity))
    as (msg & s' & H1 & H2 & H3).
  exists msg, s'. split; [exact H1|].
  split; [exact (eq_trans H3 (eq_sym Hd))|].
  vm_compute in H1. injection H1 as _ <-. reflexivity.
Defined.

(** ** When discovery fails *)



End BatchShapeFacts.

(* ===================================================================== *)
(** * More properties of [run_transcriber] *)
(* ===================================================================== *)
Module TranscriberEdgeFacts.
Import Json Path PathFacts Env Clusterer Transcriber Transcripts DiskSpec.
Import BatchFacts.
Local Open Scope string_scope.

(** ** What a call leaves on disk *)

(** A call that returns has either skipped an existing transcript, or
    added its section to the transcript, after what the file held; it has
    changed nothing else on disk. *)
Lemma run_transcriber_outcome (W : World) (file_path : string) (start end_ : Q)
    (model : option Model) (model_name : string) (output_dir : option string)
    (skip_existing : bool) (s s' : Sys) (lines : list string) :
  let path := out_path file_path model_name output_dir in
  run_transcriber W file_path start end_ model model_name output_dir skip_existing s
  = Ok lines s' ->
  (skip_existing = true /\ is_Some (fs s !! path) /\ fs s' = fs s)
  \/ fs s' = <[path := (default [] (fs s !! path)
                        ++ section W file_path start end_ lines)%list]> (fs s).
Proof.
  intros path. unfold run_transcriber. fold path.
  unfold mbind, M_bind, bind, mret, M_ret, ret.
  assert (Hrest : forall (m : Model) (s1 : Sys), fs s1 = fs s ->
    match transcribe W m file_path (mkOpts 5 true None (Some (start, end_))) s1 with
    | Ok a0 s2 =>
        (let '(segments, _) := a0 in
         fun s0 : Sys =>
           match path_exists path s0 with
           | Ok a1 s3 =>
               (if skip_existing && a1
                then fun s4 : Sys => Ok [] s4
                else fun s4 : Sys =>
                  match path_exists path s4 with
                  | Ok a2 s5 =>
                      match (if a2 : bool
                             then append_file path
                                    (section W file_path start end_
                                       (map (text_line W) segments))
                             else write_file path
                                    (section W file_path start end_
                                       (map (text_line W) segments))) s5 with
                      | Ok _ s6 => Ok (map (text_line W) segments) s6
                      | Raised msg s6 => Raised msg s6
                      end
                  | Raised msg s5 => Raised msg s5
                  end) s3
           | Raised msg s3 => Raised msg s3
           end) s2
    | Raised msg s2 => Raised msg s2
    end = Ok lines s' ->
    (skip_existing = true /\ is_Some (fs s !! path) /\ fs s' = fs s)
    \/ fs s' = <[path := (default [] (fs s !! path)
                          ++ section W file_path start end_ lines)%list]> (fs s)).
  { intros m s1 Hfs. unfold transcribe.
    destruct (whisper_transcribe W m file_path _) as [msg | [segments d]];
      [intros E; discriminate E|].
    unfold path_exists. cbn [fs].
    destruct (bool_decide (is_Some (fs s1 !! path))) eqn:Hex.
    - destruct skip_existing; cbn [andb].
      + intros [= <- <-]. left. cbn. rewrite <- Hfs.
        apply bool_decide_eq_true_1 in Hex. auto.
      + cbn [fs]. rewrite Hex. unfold append_file. cbn. intros [= <- <-].
        right. cbn. rewrite Hfs. reflexivity.
    - rewrite andb_false_r. cbn [fs]. rewrite Hex.
      apply bool_decide_eq_false_1 in Hex.
      assert (Hnone : fs s1 !! path = None).
      { destruct (fs s1 !! path) eqn:E; [exfalso; apply Hex; eauto | reflexivity]. }
      unfold write_file. cbn. intros [= <- <-]. right. cbn.
      rewrite <- Hfs, Hnone. reflexivity. }
  destruct model as [m0|].
  - apply Hrest. reflexivity.
  - unfold new_model. destruct (whisper_init W model_name);
      [intros E; discriminate E|].
    apply Hrest. reflexivity.
Qed.

Lemma run_transcriber_returns (W : World) (file_path : string) (start end_ : Q)
    (model : option Model) (model_name : string) (output_dir : option string)
    (s s' : Sys) (lines : list string) :
  let path := out_path file_path model_name output_dir in
  run_transcriber W file_path start end_ model model_name output_dir false s
  = Ok lines s' ->
  fs s' = <[path := (default [] (fs s !! path)
                     ++ section W file_path start end_ lines)%list]> (fs s).
Proof.
  intros path H.
  destruct (run_transcriber_outcome _ _ _ _ _ _ _ _ _ _ _ H) as [[E _] | E];
    [discriminate E | exact E].
Qed.

(** After a call that returned, the transcript exists. *)
Lemma run_transcriber_leaves_transcript (W : World) (file_path : string)
    (start end_ : Q) (model : option Model) (model_name : string)
    (output_dir : option string) (skip_existing : bool) (s s' : Sys)
    (lines : list string) :
  run_transcriber W file_path start end_ model model_name output_dir skip_existing s
  = Ok lines s' ->
  is_Some (fs s' !! out_path file_path model_name output_dir).
Proof.
  intros H.
  destruct (run_transcriber_outcome _ _ _ _ _ _ _ _ _ _ _ H) as [(_ & Hex & E) | E];
    rewrite E; [exact Hex | rewrite lookup_insert_eq; eauto].
Qed.

(** X15.  Sections accumulate.  Two calls of [run_transcriber] without
    [skip_existing] for the same source file, model name and output
    directory (as for two blocks of one recording) leave one transcript
    that holds what the file held before, then the section of the first
    call, then the section of the second; no other file has changed. *)
Theorem transcript_sections_accumulate (W : World) (file_path model_name : string)
    (output_dir : option string) (model1 model2 : option Model)
    (start1 end1 start2 end2 : Q) (lines1 lines2 : list string) (s s1 s2 : Sys) :
  let path := out_path file_path model_name output_dir in
  run_transcriber W file_path start1 end1 model1 model_name output_dir false s
  = Ok lines1 s1 ->
  run_transcriber W file_path start2 end2 model2 model_name output_dir false s1
  = Ok lines2 s2 ->
  fs s2 = <[path := (default [] (fs s !! path)
                     ++ section W file_path start1 end1 lines1
                     ++ section W file_path start2 end2 lines2)%list]> (fs s).
Proof.
  intros path H1 H2.
  apply run_transcriber_returns in H1. apply run_transcriber_returns in H2.
  fold path in H1, H2. rewrite H2, H1, lookup_insert_eq. cbn.
  rewrite insert_insert_eq, <- app_assoc. reflexivity.
Qed.

Lemma transcript_sections_accumulate_witness :
  let W := Sample.world [] in
  exists lines1 lines2 s1 s2,
    run_transcriber W "/d/a.mp4" 0 5 None "large-v3" None false Sample.blank
    = Ok lines1 s1
    /\ run_transcriber W "/d/a.mp4" 400 410 None "large-v3" None false s1
       = Ok lines2 s2
    /\ fs s2 !! "/d/a_transcript_large_v3.txt"
       = Some (section W "/d/a.mp4" 0 5 lines1
               ++ section W "/d/a.mp4" 400 410 lines2)%list.
Proof.
  cbn zeta. set (W := Sample.world []).
  set (r1 := run_transcriber W "/d/a.mp4" 0 5 None "large-v3" None false Sample.blank).
  set (lines1 := match r1 with Ok l _ => l | Raised _ _ => [] end).
  assert (H1 : r1 = Ok lines1 (res_sys r1)) by (vm_compute; reflexivity).
  set (r2 := run_transcriber W "/d/a.mp4" 400 410 None "large-v3" None false
               (res_sys r1)).
  set (lines2 := match r2 with Ok l _ => l | Raised _ _ => [] end).
  assert (H2 : r2 = Ok lines2 (res_sys r2)) by (vm_compute; reflexivity).
  exists lines1, lines2, (res_sys r1), (res_sys r2).
  split; [exact H1|]. split; [exact H2|].
  rewrite (transcript_sections_accumulate W "/d/a.mp4" "large-v3" None None None
             0 5 400 410 lines1 lines2 Sample.blank (res_sys r1) (res_sys r2) H1 H2).
  rewrite lookup_insert_eq. reflexivity.
Defined.

(** ** Effects on the disk, piece by piece *)

Lemma keeps_files_ret {A} (a : A) : keeps_files (mret a).
Proof. intros s. reflexivity. Qed.

Lemma keeps_files_new_model (W : World) (name : string) :
  keeps_files (new_model W name).
Proof. intros s. unfold new_model. destruct (whisper_init W name); reflexivity. Qed.

Lemma keeps_files_model (W : World) (model : option Model) (name : string) :
  keeps_files (match model with
               | None => new_model W name
               | Some m => mret m
               end).
Proof. destruct model; [apply keeps_files_ret | apply keeps_files_new_model]. Qed.

Lemma keeps_files_transcribe (W : World) (m : Model) (p : string)
    (o : TranscribeOpts) :
  keeps_files (transcribe W m p o).
Proof.
  intros s. unfold transcribe. destruct (whisper_transcribe W m p o); reflexivity.
Qed.

Lemma keeps_files_path_exists (p : string) : keeps_files (path_exists p).
Proof. intros s. reflexivity. Qed.

Lemma keeps_files_bind {A B} (m : M A) (k : A -> M B) :
  keeps_files m -> (forall a, keeps_files (k a)) -> keeps_files (m ≫= k).
Proof.
  intros Hm Hk s. unfold mbind, M_bind, bind. specialize (Hm s).
  destruct (m s) as [a s1|msg s1]; cbn in *; [|exact Hm].
  rewrite (Hk a s1). exact Hm.
Qed.

Lemma raise_safe_bind {A B} (m : M A) (k : A -> M B) :
  keeps_files m -> (forall a, raise_safe (k a)) -> raise_safe (m ≫= k).
Proof.
  intros Hm Hk s msg s'. unfold mbind, M_bind, bind. specialize (Hm s).
  destruct (m s) as [a s1|msg1 s1]; cbn in Hm.
  - intros E. rewrite (Hk a s1 msg s' E). exact Hm.
  - intros [= _ <-]. exact Hm.
Qed.

Lemma keeps_files_raise_safe {A} (m : M A) : keeps_files m -> raise_safe m.
Proof. intros H s msg s' E. specialize (H s). rewrite E in H. exact H. Qed.

Lemma writes_only_keeps {A} (path : string) (m : M A) :
  keeps_files m -> writes_only path m.
Proof. intros H s p _. rewrite (H s). reflexivity. Qed.

Lemma writes_only_bind {A B} (path : string) (m : M A) (k : A -> M B) :
  writes_only path m -> (forall a, writes_only path (k a)) ->
  writes_only path (m ≫= k).
Proof.
  intros Hm Hk s p Hp. unfold mbind, M_bind, bind. specialize (Hm s p Hp).
  destruct (m s) as [a s1|msg s1]; cbn in *; [|exact Hm].
  rewrite (Hk a s1 p Hp). exact Hm.
Qed.

Lemma writes_only_write_file (path : string) (c : list Chunk) :
  writes_only path (write_file path c).
Proof. intros s p Hp. cbn. apply lookup_insert_ne. congruence. Qed.

Lemma writes_only_append_file (path : string) (c : list Chunk) :
  writes_only path (append_file path c).
Proof. intros s p Hp. cbn. apply lookup_insert_ne. congruence. Qed.

(** [run_transcriber] touches its transcript and no other file. *)
Lemma run_transcriber_writes_only (W : World) (file_path : string)
    (start end_ : Q) (model : option Model) (model_name : string)
    (output_dir : option string) (skip_existing : bool) :
  writes_only (out_path file_path model_name output_dir)
    (run_transcriber W file_path start end_ model model_name output_dir
       skip_existing).
Proof.
  unfold run_transcriber.
  apply writes_only_bind;
    [apply writes_only_keeps, keeps_files_model | intros m].
  apply writes_only_bind;
    [apply writes_only_keeps, keeps_files_transcribe | intros [segments d]].
  apply writes_only_bind;
    [apply writes_only_keeps, keeps_files_path_exists | intros found].
  destruct (skip_existing && found); [apply writes_only_keeps, keeps_files_ret|].
  apply writes_only_bind;
    [apply writes_only_keeps, keeps_files_path_exists | intros found'].
  apply writes_only_bind; [|intros _; apply writes_only_keeps, keeps_files_ret].
  destruct found'; [apply writes_only_append_file | apply writes_only_write_file].
Qed.

(** When [run_transcriber] raises, no file has changed. *)
Lemma run_transcriber_raise_safe (W : World) (file_path : string)
    (start end_ : Q) (model : option Model) (model_name : string)
    (output_dir : option string) (skip_existing : bool) :
  raise_safe (run_transcriber W file_path start end_ model model_name output_dir
                skip_existing).
Proof.
  unfold run_transcriber.
  apply raise_safe_bind; [apply keeps_files_model | intros m].
  apply raise_safe_bind; [apply keeps_files_transcribe | intros [segments d]].
  intros s msg s'. unfold mbind, M_bind, bind, mret, M_ret, ret, path_exists.
  cbn [fs]. destruct (skip_existing && _); [intros E; discriminate E|].
  destruct (bool_decide _); intros E; discriminate E.
Qed.

(** With [skip_existing] and the transcript there, no file changes. *)
Lemma run_transcriber_skip_keeps (W : World) (file_path : string)
    (start end_ : Q) (model : option Model) (model_name : string)
    (output_dir : option string) (s : Sys) :
  is_Some (fs s !! out_path file_path model_name output_dir) ->
  fs (res_sys (run_transcriber W file_path start end_ model model_name output_dir
                 true s)) = fs s.
Proof.
  intros Hex. unfold run_transcriber.
  unfold mbind, M_bind, bind, mret, M_ret, ret.
  assert (Hfound : forall s0, fs s0 = fs s ->
            path_exists (out_path file_path model_name output_dir) s0 = Ok true s0).
  { intros s0 E. unfold path_exists. rewrite E.
    rewrite bool_decide_eq_true_2 by exact Hex. reflexivity. }
  destruct model as [m0|].
  - unfold transcribe.
    destruct (whisper_transcribe W m0 file_path _) as [msg | [segments d]];
      [reflexivity|].
    rewrite Hfound by reflexivity. reflexivity.
  - unfold new_model.
    destruct (whisper_init W model_name) as [msg|]; [reflexivity|].
    unfold transcribe. cbn [fs constructed calls stdout clock].
    destruct (whisper_transcribe W _ file_path _) as [msg | [segments d]];
      [reflexivity|].
    rewrite Hfound by reflexivity. reflexivity.
Qed.

(** What a call of [run_transcriber] that returns has done to the disk:
    nothing, or one more section in its transcript - and with
    [skip_existing] the latter only when there was no transcript. *)
Lemma run_transcriber_sharp (W : World) (file_path : string) (start end_ : Q)
    (model : option Model) (model_name : string) (output_dir : option string)
    (skip_existing : bool) (s s' : Sys) (lines : list string) :
  let path := out_path file_path model_name output_dir in
  run_transcriber W file_path start end_ model model_name output_dir skip_existing s
  = Ok lines s' ->
  fs s' = fs s
  \/ ((skip_existing = true -> fs s !! path = None)
      /\ fs s' = <[path := (default [] (fs s !! path)
                            ++ section W file_path start end_ lines)%list]> (fs s)).
Proof.
  intros path H.
  destruct skip_existing, (fs s !! path) as [old|] eqn:Hold.
  - left.
    pose proof (run_transcriber_skip_keeps W file_path start end_ model model_name
                  output_dir s ltac:(fold path; rewrite Hold; eauto)) as K.
    rewrite H in K. exact K.
  - destruct (run_transcriber_outcome _ _ _ _ _ _ _ _ _ _ _ H) as [(_ & _ & E) | E];
      [left; exact E | right]. fold path in E. rewrite Hold in E. auto.
  - destruct (run_transcriber_outcome _ _ _ _ _ _ _ _ _ _ _ H) as [(_ & _ & E) | E];
      [left; exact E | right]. fold path in E. rewrite Hold in E.
    split; [discriminate | exact E].
  - destruct (run_transcriber_outcome _ _ _ _ _ _ _ _ _ _ _ H) as [(_ & _ & E) | E];
      [left; exact E | right]. fold path in E. rewrite Hold in E.
    split; [discriminate | exact E].
Qed.

(** X16.  [run_transcriber] writes nothing unless the transcription got
    to its end: when the call raises - the model cannot be constructed, or
    the backend fails on the file - no file has been created or changed,
    not even the header of a section. *)
Theorem failed_transcription_writes_nothing (W : World) (file_path : string)
    (start end_ : Q) (model : option Model) (model_name : string)
    (output_dir : option string) (skip_existing : bool) (s s' : Sys) (msg : string) :
  run_transcriber W file_path start end_ model model_name output_dir skip_existing s
  = Raised msg s' ->
  fs s' = fs s.
Proof.
  exact (run_transcriber_raise_safe W file_path start end_ model model_name output_dir
           skip_existing s msg s').
Qed.

Lemma failed_transcription_writes_nothing_witness :
  let W := Sample.world [] in
  let s := mkSys {[ "/d/bad_transcript_large_v3.txt" := [Line "kept"] ]} [] [] [] O in
  exists msg s',
    run_transcriber W "/d/bad.mp4" 0 5 None "large-v3" None false s = Raised msg s'
    /\ fs s' = fs s.
Proof.
  intros W s.
  set (r := run_transcriber W "/d/bad.mp4" 0 5 None "large-v3" None false s).
  assert (H : r = Raised "decode error" (res_sys r)) by (vm_compute; reflexivity).
  exists "decode error", (res_sys r). split; [exact H|].
  exact (failed_transcription_writes_nothing W "/d/bad.mp4" 0 5 None "large-v3" None
           false s (res_sys r) "decode error" H).
Defined.

End TranscriberEdgeFacts.

(* ===================================================================== *)
(** * Transcript names and the searches *)
(* ===================================================================== *)
Module TranscriptNameFacts.
Import Path PathFacts Transcriber Transcripts.
Local Open Scope string_scope.

(** ** Strings *)

Lemma endswith_inv (s t : string) :
  endswith s t = true -> exists p, s = p ++ t.
Proof.
  induction s as [|a s IH]; intros H.
  - destruct t; [|discriminate H]. exists EmptyString. reflexivity.
  - change (String.eqb (String a s) t || endswith s t = true) in H.
    apply orb_true_iff in H as [H | H].
    + apply String.eqb_eq in H. subst t. exists EmptyString. reflexivity.
    + destruct (IH H) as [p ->]. exists (String a p). reflexivity.
Qed.

Lemma endswith_app_l (a b t : string) :
  endswith b t = true -> endswith (a ++ b) t = true.
Proof.
  intros H. apply endswith_inv in H as [p ->].
  rewrite <- append_assoc'. apply endswith_app.
Qed.

(** Two ways of cutting one string: one of the two tails is a tail of the
    other. *)
Lemma append_eq_cases (A B C D : string) :
  A ++ B = C ++ D ->
  (exists E, C = A ++ E /\ B = E ++ D) \/ (exists E, A = C ++ E /\ D = E ++ B).
Proof.
  revert C. induction A as [|a A IH]; intros C H.
  - left. exists C. split; [reflexivity | exact H].
  - destruct C as [|c C].
    + right. exists (String a A). split; [reflexivity | symmetry; exact H].
    + injection H as -> H. destruct (IH C H) as [(E & -> & ->) | (E & -> & ->)].
      * left. exists E. split; reflexivity.
      * right. exists E. split; reflexivity.
Qed.

Lemma length_append' (a b : string) :
  String.length (a ++ b) = (String.length a + String.length b)%nat.
Proof. induction a as [|x a IH]; [reflexivity|]. exact (f_equal S IH). Qed.

Lemma append_cancel_r (a b c : string) : a ++ c = b ++ c -> a = b.
Proof.
  intros H. destruct (append_eq_cases a c b c H) as [(E & -> & HE) | (E & -> & HE)].
  - apply (f_equal String.length) in HE. rewrite length_append' in HE.
    destruct E; [rewrite append_nil_r'; reflexivity | cbn in HE; lia].
  - apply (f_equal String.length) in HE. rewrite length_append' in HE.
    destruct E; [rewrite append_nil_r'; reflexivity | cbn in HE; lia].
Qed.

Lemma prefix_nil (s : string) : String.prefix EmptyString s = true.
Proof. destruct s; reflexivity. Qed.

Lemma contains_app_l (n a b : string) :
  contains n b = true -> contains n (a ++ b) = true.
Proof.
  intros H. induction a as [|x a IH]; [exact H|].
  change (String.prefix n (String x (a ++ b)) || contains n (a ++ b) = true).
  rewrite IH. apply orb_true_r.
Qed.

(** ** Slashes *)

Lemma no_slash_rsplit (c : ascii) (s : string) :
  contains (String c EmptyString) s = false -> rsplit c s = None.
Proof.
  induction s as [|a s IH]; intros H; [reflexivity|].
  change (String.prefix (String c EmptyString) (String a s)
          || contains (String c EmptyString) s = false) in H.
  apply orb_false_iff in H as [H1 H2]. cbn [rsplit]. rewrite (IH H2).
  cbn in H1. destruct (ascii_dec c a) as [->|Hne].
  - rewrite prefix_nil in H1. discriminate H1.
  - destruct (Ascii.eqb_spec a c) as [->|_]; [contradiction | reflexivity].
Qed.

Lemma rsplit_replace_char (c x y : ascii) (s : string) :
  y <> c -> rsplit c s = None -> rsplit c (replace_char x y s) = None.
Proof.
  intros Hy. induction s as [|a s IH]; intros H; [reflexivity|].
  cbn [rsplit replace_char] in *.
  destruct (rsplit c s) as [[u v]|]; [discriminate H|]. rewrite (IH eq_refl).
  destruct (Ascii.eqb a c) eqn:Ea; [discriminate H|].
  destruct (Ascii.eqb a x); [|rewrite Ea; reflexivity].
  destruct (Ascii.eqb_spec y c); [contradiction | reflexivity].
Qed.

Lemma rsplit_append_tail (c : ascii) (X Y : string) :
  rsplit c Y = None ->
  rsplit c (X ++ Y)
  = match rsplit c X with
    | Some (a, b) => Some (a, b ++ Y)
    | None => None
    end.
Proof.
  intros HY. induction X as [|a X IH]; [exact HY|].
  change (rsplit c (String a (X ++ Y))
          = match rsplit c (String a X) with
            | Some (u, v) => Some (u, v ++ Y)
            | None => None
            end).
  cbn [rsplit]. rewrite IH.
  destruct (rsplit c X) as [[u v]|]; [reflexivity|].
  destruct (Ascii.eqb a c); reflexivity.
Qed.

Lemma basename_append (X Y : string) :
  rsplit "/" Y = None -> basename (X ++ Y) = basename X ++ Y.
Proof.
  intros H. unfold basename. rewrite (rsplit_append_tail "/" X Y H).
  destruct (rsplit "/" X) as [[u v]|]; reflexivity.
Qed.

Lemma basename_is_tail (p : string) : exists pre, p = pre ++ basename p.
Proof.
  unfold basename. destruct (rsplit "/" p) as [[u v]|] eqn:E.
  - exists (u ++ "/"). rewrite (rsplit_app _ _ _ _ E), append_assoc'. reflexivity.
  - exists EmptyString. reflexivity.
Qed.

(** ** The name of a transcript *)

(** Every transcript path of [run_transcriber] ends in
    [_transcript_<model>.txt]. *)
Lemma out_path_shape (file_path model_name : string) (output_dir : option string) :
  exists X,
    out_path file_path model_name output_dir
    = X ++ "_transcript_" ++ safe_model model_name ++ ".txt".
Proof.
  unfold out_path. destruct (given output_dir) as [d|]; [|eauto].
  unfold join.
  destruct (String.prefix "/" _); [eauto|].
  destruct (String.eqb d EmptyString || endswith d "/").
  - eexists. rewrite <- append_assoc'. reflexivity.
  - eexists. rewrite <- !append_assoc'. reflexivity.
Qed.

Lemma tail_after_underscore (A p S : string) :
  A ++ "_" ++ S = p ++ "transcript" -> endswith S "transcript" = true.
Proof.
  intros H.
  destruct (append_eq_cases A ("_" ++ S) p "transcript" H)
    as [(E & _ & HE) | (E & _ & HE)].
  - destruct E as [|e E]; [discriminate HE|].
    injection HE as _ HE. change (S = E ++ "transcript") in HE. subst S.
    apply endswith_app.
  - exfalso.
    repeat (destruct E as [|? E]; [discriminate HE|]; injection HE as _ HE).
    destruct E; discriminate HE.
Qed.

(** X17.  The two searches disagree on what a transcript is.  Take the
    name of the file [run_transcriber] writes for a model whose name has
    no slash and does not end in [transcript] (every Whisper size name is
    such): the walks of [run_semantic_search] and [run_detect_meetings]
    take it, the walk of [run_search_transcripts] does not - the text
    search wants names that end in [_transcript.txt], and these end in
    [_transcript_<model>.txt]. *)
Theorem text_search_misses_model_transcripts (file_path model_name : string)
    (output_dir : option string) :
  contains "/" model_name = false ->
  endswith (safe_model model_name) "transcript" = false ->
  let f := basename (out_path file_path model_name output_dir) in
  semantic_search_takes f = true /\ text_search_takes f = false.
Proof.
  intros Hslash Hend f. subst f.
  destruct (out_path_shape file_path model_name output_dir) as [X HX].
  split.
  - rewrite HX. unfold semantic_search_takes.
    assert (Hs : rsplit "/" (safe_model model_name) = None).
    { unfold safe_model. apply rsplit_replace_char; [discriminate|].
      apply rsplit_replace_char; [discriminate|].
      apply no_slash_rsplit. exact Hslash. }
    assert (HY : rsplit "/" ("_transcript_" ++ safe_model model_name ++ ".txt") = None).
    { change ("_transcript_" ++ safe_model model_name ++ ".txt")
        with (("_transcript_" ++ safe_model model_name) ++ ".txt") at 1.
      - rewrite (rsplit_append_tail "/" _ ".txt" eq_refl).
        rewrite (rsplit_append_tail "/" "_transcript_" _ Hs). reflexivity. }
    rewrite (basename_append X _ HY). apply andb_true_iff. split.
    + apply contains_app_l. reflexivity.
    + rewrite <- !append_assoc'. apply endswith_app.
  - unfold text_search_takes.
    destruct (endswith (basename _) "_transcript.txt") eqn:E; [|reflexivity].
    exfalso.
    destruct (basename_is_tail (out_path file_path model_name output_dir))
      as [pre Hpre].
    apply (endswith_app_l pre) in E. rewrite <- Hpre, HX in E.
    apply endswith_inv in E as [p Hp].
    change (X ++ "_transcript_" ++ safe_model model_name ++ ".txt")
      with (X ++ "_transcript" ++ "_" ++ safe_model model_name ++ ".txt") in Hp.
    change (p ++ "_transcript.txt") with (p ++ "_" ++ "transcript" ++ ".txt") in Hp.
    rewrite <- !append_assoc' in Hp. apply append_cancel_r in Hp.
    rewrite !append_assoc' in Hp.
    rewrite <- (append_assoc' p "_" "transcript") in Hp.
    rewrite <- (append_assoc' X "_transcript") in Hp.
    apply tail_after_underscore in Hp. congruence.
Qed.

Lemma text_search_misses_model_transcripts_witness :
  let f := basename (out_path "/d/a.mp4" "large-v3" None) in
  f = "a_transcript_large_v3.txt"
  /\ semantic_search_takes f = true /\ text_search_takes f = false.
Proof.
  cbn zeta. split; [reflexivity|].
  exact (text_search_misses_model_transcripts "/d/a.mp4" "large-v3" None
           ltac:(reflexivity) ltac:(reflexivity)).
Defined.

End TranscriptNameFacts.

(* ===================================================================== *)
(** * More properties of the command server *)
(* ===================================================================== *)
Module ServerShapeFacts.
Import Json Path Env Server ServerSpec ServerFacts ServerShape.
Import Discovery DiscoveryFacts Batch BatchSpec BatchFacts BatchShape BatchShapeFacts.
Import Transcriber DiskSpec TranscriberEdgeFacts.
Local Open Scope string_scope.

(** ** The loop as a whole *)

(** Handling a command-object only adds to what has been printed. *)
Lemma dispatch_grows (W : World) (cmd : dict) (st : State) (s : Sys) :
  exists out, stdout (flow_sys (dispatch W cmd st s)) = (stdout s ++ out)%list.
Proof.
  assert (Hnone : forall b : bool,
            exists out, stdout (flow_sys (Done b st s)) = (stdout s ++ out)%list).
  { intros b. exists []. cbn. rewrite app_nil_r. reflexivity. }
  destruct (get "action" cmd) as [[| | |a| |]|] eqn:Ha;
    try (unfold dispatch; rewrite Ha; cbn [is_str]; apply Hnone).
  destruct (decide (a ∈ answered)) as [Hin | Hout].
  - destruct (dispatch_responds W cmd a Ha Hin st s) as (pre & _ & H).
    destruct (dispatch W cmd st s) as [b st' s'|msg st' s']; cbn.
    + destruct H as [_ H]. eexists. exact H.
    + eexists. exact H.
  - unfold dispatch. rewrite Ha. cbn [is_str].
    repeat match goal with
           | |- context [String.eqb ?x a] =>
               destruct (String.eqb_spec x a) as [<-|_];
               [first [ solve [exfalso; apply Hout; unfold answered;
                               repeat constructor]
                      | apply Hnone ]|]
           end.
    apply Hnone.
Qed.

(** A line of input is always handled to the end: what it raises ends in
    the [except] clauses.  It only adds to what has been printed, and
    constructs one model at most. *)
Lemma handle_line_returns (W : World) (line : string) (st : State) (s : Sys) :
  exists go_on st' s' out,
    handle_line W line st s = Done go_on st' s'
    /\ stdout s' = (stdout s ++ out)%list
    /\ (length (constructed s') <= S (length (constructed s)))%nat.
Proof.
  assert (Hc : (length (constructed (flow_sys (handle_line W line st s)))
                <= S (length (constructed s)))%nat).
  { destruct (construction_only_on_name_change W line st s)
      as [[_ E] | (cmd & name & _ & _ & _ & _ & E)]; cbn zeta in E; rewrite E.
    - lia.
    - rewrite length_app. cbn. lia. }
  revert Hc. unfold handle_line. destruct (json_loads W line) as [cmd|].
  - unfold catch.
    assert (H : exists out,
              stdout (flow_sys (match cmd with
                                | JObj d => dispatch W d
                                | _ => throw "AttributeError"
                                end st s)) = (stdout s ++ out)%list).
    { destruct cmd; try apply dispatch_grows;
        exists []; cbn; rewrite app_nil_r; reflexivity. }
    destruct H as (out & E).
    destruct (match cmd with
              | JObj d => dispatch W d
              | _ => throw "AttributeError"
              end st s) as [b st' s'|msg st' s']; cbn in E |- *; intros Hc.
    + exists b, st', s', out. auto.
    + eexists true, st', _, (out ++ [Fail ("[ERROR] " ++ msg)])%list.
      split; [reflexivity|]. cbn. rewrite E, app_assoc. auto.
  - cbn. intros Hc. eexists true, st, _, [Fail "[ERROR] Invalid JSON command"].
    split; [reflexivity|]. cbn. auto.
Qed.

Lemma serve_returns (W : World) (input : list string) :
  forall st s,
    exists st' s' out,
      serve W input st s = Done tt st' s'
      /\ stdout s' = (stdout s ++ out)%list
      /\ (length (constructed s') <= length (constructed s) + length input)%nat.
Proof.
  induction input as [|line rest IH]; intros st s.
  - exists st, s, []. cbn. rewrite app_nil_r. split; [reflexivity|].
    split; [reflexivity | lia].
  - cbn [serve]. destruct (String.eqb line EmptyString).
    + exists st, s, []. cbn. rewrite app_nil_r.
      split; [reflexivity|]. split; [reflexivity | lia].
    + unfold mbind, SM_bind.
      destruct (handle_line_returns W line st s)
        as (go & st1 & s1 & out1 & E1 & O1 & L1).
      rewrite E1. destruct go.
      * destruct (IH st1 s1) as (st2 & s2 & out2 & E2 & O2 & L2).
        exists st2, s2, (out1 ++ out2)%list. split; [exact E2|].
        rewrite O2, O1, app_assoc. cbn [length]. split; [reflexivity | lia].
      * exists st1, s1, out1. split; [reflexivity|].
        split; [exact O1 | cbn [length]; lia].
Qed.

(** X18.  No command brings the server down.  Whatever the input lines
    are - not JSON, JSON that is not an object, unknown actions, missing
    or ill-typed fields - and whatever the backends do, [run_server]
    returns: every exception raised while a command is handled ends in
    the [except] clauses of the loop.  What it prints is added to what
    was printed before, and it constructs at most one speech model at
    the start and one per line of input. *)
Theorem server_never_raises (W : World) (input : list string) (s : Sys) :
  exists s' out,
    run_server W input s = Ok tt s'
    /\ stdout s' = (stdout s ++ out)%list
    /\ (length (new_models s s') <= 1 + length input)%nat.
Proof.
  unfold run_server, new_model, new_models.
  destruct (whisper_init W "tiny.en").
  - exists s, []. rewrite app_nil_r. split; [reflexivity|].
    split; [reflexivity|]. rewrite drop_all. cbn. lia.
  - match goal with
    | |- context [serve W input ?st ?s0] =>
        destruct (serve_returns W input st s0) as (st' & s' & out & E & O & L)
    end.
    rewrite E. exists s', out. cbn in O, L.
    split; [reflexivity|]. split; [exact O|].
    rewrite length_drop, length_app in *. cbn in L. lia.
Qed.

(** ** The [scan] command *)



(** ** The [transcribe] command *)

Lemma ensure_model_keeps_files (W : World) (v : json) (st : State) (s : Sys) :
  fs (flow_sys (ensure_model W v st s)) = fs s.
Proof.
  unfold ensure_model, mbind, SM_bind, locals. cbn.
  destruct (is_str (current_model_name st) v); [reflexivity|].
  destruct v; try reflexivity. cbn. unfold call, new_model.
  destruct (whisper_init W s0); reflexivity.
Qed.

Lemma opt_dir_outcome (cmd : dict) (st : State) (s : Sys) :
  opt_dir (get "output_dir" cmd) st s = Done (dir_of cmd) st s
  \/ exists msg, opt_dir (get "output_dir" cmd) st s = Thrown msg st s.
Proof.
  unfold opt_dir, dir_of.
  destruct (get "output_dir" cmd) as [[| | | | |]|]; cbn; auto;
    match goal with
    | |- context [if ?b then _ else _] => destruct b; eauto
    end.
Qed.

(** X20.  Through the server, a transcript is named after [large-v3]
    whatever model made it.  The loop passes the model in the slot but not
    its name, so [run_transcriber] builds the path from its default
    [model_name]: for a [transcribe] command on a file, with any ["model"]
    field, the only file that can change is
    [<file>_transcript_large_v3.txt] (in the ["output_dir"], when one is
    given), and when the command is answered by its completion line that
    file exists. *)
Theorem server_transcript_named_large_v3 (W : World) (line : string) (cmd : dict)
    (file_path : string) (start end_ : Q) (st : State) (s : Sys) :
  json_loads W line = Some (JObj cmd) ->
  get "action" cmd = Some (JStr "transcribe") ->
  get "file" cmd = Some (JStr file_path) ->
  get "start" cmd = Some (JNum start) ->
  get "end" cmd = Some (JNum end_) ->
  let path := out_path file_path "large-v3" (dir_of cmd) in
  let s' := flow_sys (handle_line W line st s) in
  (forall p, p <> path -> fs s' !! p = fs s !! p)
  /\ (stdout s' = (stdout s ++ [Dump (complete "transcribe")])%list ->
      is_Some (fs s' !! path)).
Proof.
  intros Hl Ha Hf Hs He path s'.
  set (skip := truthy (get_default "skip_existing" (JBool false) cmd)).
  assert (E : forall r, r = handle_line W line st s ->
            exists st1 s1,
              fs s1 = fs s /\ stdout s1 = stdout s
              /\ ((exists msg, r = Done true st1 (printed (Fail ("[ERROR] " ++ msg)) s1))
                  \/ r = match run_transcriber W file_path start end_
                               (Some (current_model st1)) default_model_name
                               (dir_of cmd) skip s1 with
                         | Ok _ s2 =>
                             Done true st1 (printed (Dump (complete "transcribe")) s2)
                         | Raised msg s2 =>
                             Done true st1 (printed (Fail ("[ERROR] " ++ msg)) s2)
                         end)).
  { intros r Hr.
    unfold handle_line in Hr. rewrite Hl in Hr. unfold catch, dispatch in Hr.
    rewrite Ha in Hr. cbn [is_str String.eqb Ascii.eqb Bool.eqb] in Hr.
    unfold mbind at 1, SM_bind at 1 in Hr.
    pose proof (ensure_model_keeps_files W
                  (get_default "model" (JStr "large-v3") cmd) st s) as Hfs1.
    pose proof (silent_ensure_model W
                  (get_default "model" (JStr "large-v3") cmd) st s) as Hout1.
    destruct (ensure_model W _ st s) as [[] st1 s1|msg st1 s1]; cbn in Hfs1, Hout1;
      exists st1, s1; (split; [exact Hfs1|]); (split; [exact Hout1|]);
      [|left; exists msg; exact Hr].
    rewrite Hs, He, Hf in Hr.
    unfold mbind at 1 2 3, SM_bind at 1 2 3, need_num, need_str, mret at 1 2 3,
      SM_ret at 1 2 3 in Hr.
    unfold mbind at 1, SM_bind at 1 in Hr.
    destruct (opt_dir_outcome cmd st1 s1) as [Hd | [msg Hd]]; rewrite Hd in Hr;
      [|left; exists msg; exact Hr].
    right. unfold mbind, SM_bind, locals, call, mret, SM_ret in Hr. fold skip in Hr.
    destruct (run_transcriber W file_path start end_ (Some (current_model st1))
                default_model_name (dir_of cmd) skip s1); exact Hr. }
  specialize (E _ eq_refl).
  destruct E as (st1 & s1 & Hfs1 & Hout1 & [[msg E] | E]); subst s'; rewrite E.
  { cbn. split.
    - intros p _. rewrite Hfs1. reflexivity.
    - rewrite Hout1. intros E'. apply app_inj_tail in E' as [_ E']. discriminate E'. }
  pose proof (run_transcriber_writes_only W file_path start end_
                (Some (current_model st1)) default_model_name (dir_of cmd) skip s1)
    as Hframe.
  pose proof (run_transcriber_leaves_transcript W file_path start end_
                (Some (current_model st1)) default_model_name (dir_of cmd) skip s1)
    as Hexists.
  destruct (run_transcriber W file_path start end_ (Some (current_model st1))
              default_model_name (dir_of cmd) skip s1) as [lines s2|msg s2];
    cbn in Hframe |- *.
  - split.
    + intros p Hp. rewrite (Hframe p Hp), Hfs1. reflexivity.
    + intros _. apply (Hexists s2 lines eq_refl).
  - split.
    + intros p Hp. rewrite (Hframe p Hp), Hfs1. reflexivity.
    + intros E'. apply app_inj_tail in E' as [_ E']. discriminate E'.
Qed.

Lemma server_transcript_named_large_v3_witness :
  let cmd := [("action", JStr "transcribe"); ("file", JStr "/d/a.mp4");
              ("start", JNum 0); ("end", JNum 5); ("model", JStr "small")] in
  let W := Sample.answering (Sample.world []) cmd in
  let st := mkState (mkModel "tiny.en" 0) (mkModel "tiny.en" 0) "tiny.en" in
  let s' := flow_sys (handle_line W "go" st Sample.blank) in
  out_path "/d/a.mp4" "large-v3" (dir_of cmd) = "/d/a_transcript_large_v3.txt"
  /\ constructed s' = ["small"]
  /\ is_Some (fs s' !! "/d/a_transcript_large_v3.txt")
  /\ fs s' !! "/d/a_transcript_small.txt" = None.
Proof.
  cbn zeta.
  destruct (server_transcript_named_large_v3
              (Sample.answering (Sample.world [])
                 [("action", JStr "transcribe"); ("file", JStr "/d/a.mp4");
                  ("start", JNum 0); ("end", JNum 5); ("model", JStr "small")])
              "go"
              [("action", JStr "transcribe"); ("file", JStr "/d/a.mp4");
               ("start", JNum 0); ("end", JNum 5); ("model", JStr "small")]
              "/d/a.mp4" 0 5
              (mkState (mkModel "tiny.en" 0) (mkModel "tiny.en" 0) "tiny.en")
              Sample.blank
              ltac:(reflexivity) ltac:(reflexivity) ltac:(reflexivity)
              ltac:(reflexivity) ltac:(reflexivity)) as [Hframe Hexists].
  split; [reflexivity|]. split; [vm_compute; reflexivity|]. split.
  - apply Hexists. vm_compute. reflexivity.
  - rewrite Hframe by (vm_compute; discriminate). vm_compute. reflexivity.
Defined.

End ServerShapeFacts.

(* ===================================================================== *)
(** * Properties of the whole-file transcriptions *)
(* ===================================================================== *)
Module FullTranscribeFacts.
Import Json Path PathFacts Env Clusterer Discovery Transcriber.
Import BatchSpec BatchFacts BatchShape DiskSpec TranscriberEdgeFacts.
Import TranscriptNameFacts FullTranscribe.
Local Open Scope string_scope.

(** ** [run_transcribe_file] run twice *)





(** ** The two ways of naming a transcript *)

Lemma append_cancel_l (a b c : string) : a ++ b = a ++ c -> b = c.
Proof.
  induction a as [|x a IH]; intros H; [exact H|]. injection H as H. exact (IH H).
Qed.

Lemma replace_char_absent (x y : ascii) (s : string) :
  rsplit x s = None -> replace_char x y s = s.
Proof.
  induction s as [|a s IH]; intros H; [reflexivity|].
  cbn [rsplit replace_char] in *.
  destruct (rsplit x s) as [[u v]|]; [discriminate H|].
  destruct (Ascii.eqb a x); [discriminate H|]. rewrite (IH eq_refl). reflexivity.
Qed.

Lemma rsplit_after_replace (x y : ascii) (s : string) :
  x <> y -> rsplit x (replace_char x y s) = None.
Proof.
  intros Hxy. induction s as [|a s IH]; [reflexivity|].
  cbn [rsplit replace_char]. rewrite IH.
  destruct (Ascii.eqb_spec a x) as [->|Hne].
  - destruct (Ascii.eqb_spec y x) as [->|_]; [contradiction | reflexivity].
  - destruct (Ascii.eqb_spec a x); [contradiction | reflexivity].
Qed.

Lemma rsplit_none_contains (c : ascii) (s : string) :
  rsplit c s = None -> contains (String c EmptyString) s = false.
Proof.
  induction s as [|a s IH]; intros H; [reflexivity|].
  cbn [rsplit] in H. destruct (rsplit c s) as [[u v]|]; [discriminate H|].
  destruct (Ascii.eqb_spec a c) as [->|Hne]; [discriminate H|].
  change (String.prefix (String c EmptyString) (String a s)
          || contains (String c EmptyString) s = false).
  rewrite (IH eq_refl), orb_false_r.
  change (String.prefix (String c EmptyString) (String a s))
    with (if ascii_dec c a then String.prefix "" s else false).
  destruct (ascii_dec c a) as [->|_]; [contradiction | reflexivity].
Qed.

Lemma prefix_slash_head (base u v : string) :
  String.prefix "/" (base ++ String "_" u) = String.prefix "/" (base ++ String "_" v).
Proof.
  destruct base as [|c base]; [reflexivity|].
  change (String.prefix "/" (String c (base ++ String "_" u))
          = String.prefix "/" (String c (base ++ String "_" v))).
  change (String.prefix "/" (String c (base ++ String "_" u)))
    with (if ascii_dec "/" c then String.prefix "" (base ++ String "_" u) else false).
  change (String.prefix "/" (String c (base ++ String "_" v)))
    with (if ascii_dec "/" c then String.prefix "" (base ++ String "_" v) else false).
  destruct (ascii_dec "/" c); [|reflexivity]. rewrite !prefix_nil. reflexivity.
Qed.

Lemma join_cancel (d base u v : string) :
  join d (base ++ String "_" u) = join d (base ++ String "_" v) -> u = v.
Proof.
  unfold join. rewrite (prefix_slash_head base u v).
  destruct (String.prefix "/" _).
  - intros H. apply append_cancel_l in H. injection H as H. exact H.
  - destruct (String.eqb d EmptyString || endswith d "/"); intros H.
    + apply append_cancel_l, append_cancel_l in H. injection H as H. exact H.
    + apply append_cancel_l, append_cancel_l, append_cancel_l in H.
      injection H as H. exact H.
Qed.

(** X22.  [run_transcribe_file] names its transcript otherwise than
    [run_transcriber] and [run_batch_transcribe_dir] do: it replaces the
    slashes of the model name, they replace its dots and dashes.  For a
    model name with a dot or a dash in it (and no slash or backslash -
    [large-v3], [tiny.en]) the two paths differ for every file and output
    directory, so the [skip_existing] of one never sees what the others
    wrote. *)
Theorem transcript_paths_differ (file_path model_name : string)
    (output_dir : option string) :
  contains "/" model_name = false ->
  contains (String backslash EmptyString) model_name = false ->
  contains "." model_name = true \/ contains "-" model_name = true ->
  FullTranscribe.out_path file_path model_name output_dir
  <> Transcriber.out_path file_path model_name output_dir.
Proof.
  intros Hs Hb Hdot E.
  assert (Hsafe : FullTranscribe.safe_model model_name = model_name).
  { unfold FullTranscribe.safe_model.
    rewrite (replace_char_absent "/" "_" model_name (no_slash_rsplit _ _ Hs)).
    apply replace_char_absent, no_slash_rsplit. exact Hb. }
  assert (Heq : model_name = Transcriber.safe_model model_name).
  { unfold FullTranscribe.out_path, Transcriber.out_path in E. rewrite Hsafe in E.
    destruct (given output_dir) as [d|].
    - apply join_cancel in E.
      change (String.append "transcript_" (model_name ++ ".txt")
              = String.append "transcript_" (Transcriber.safe_model model_name ++ ".txt"))
        in E.
      apply append_cancel_l, append_cancel_r in E. exact E.
    - apply append_cancel_l, append_cancel_l, append_cancel_r in E. exact E. }
  assert (Hnodot : rsplit "." model_name = None).
  { rewrite Heq. unfold Transcriber.safe_model.
    apply rsplit_replace_char; [discriminate|].
    apply rsplit_after_replace. discriminate. }
  assert (Hnodash : rsplit "-" model_name = None).
  { rewrite Heq. unfold Transcriber.safe_model.
    apply rsplit_after_replace. discriminate. }
  apply rsplit_none_contains in Hnodot, Hnodash.
  destruct Hdot as [H | H]; congruence.
Qed.

Lemma transcript_paths_differ_witness :
  FullTranscribe.out_path "/d/a.mp4" "large-v3" None = "/d/a_transcript_large-v3.txt"
  /\ Transcriber.out_path "/d/a.mp4" "large-v3" None = "/d/a_transcript_large_v3.txt"
  /\ FullTranscribe.out_path "/d/a.mp4" "large-v3" None
     <> Transcriber.out_path "/d/a.mp4" "large-v3" None.
Proof.
  split; [reflexivity|]. split; [reflexivity|].
  apply transcript_paths_differ; [reflexivity | reflexivity | right; reflexivity].
Defined.

(** ** [run_batch_transcribe_dir] *)





End FullTranscribeFacts.

(* ===================================================================== *)
(** * Properties of the transcription from a report *)
(* ===================================================================== *)

Module BatchTranscribeFacts.
Import Json Path Env Discovery Clusterer Batch BatchSpec BatchFacts BatchShape.
Import BatchShapeFacts Transcriber DiskSpec TranscriberEdgeFacts BatchTranscribe.
Local Open Scope string_scope.




(** Whether an entry is taken depends on its windows only. *)
Lemma has_blocks_asks (p : string) (bs : list Block) (r : json) (s : Sys) :
  asks p bs r ->
  has_blocks r s = Ok (match bs with [] => false | _ => true end) s.
Proof.
  intros (d & -> & _ & [[He ->] | [He Hb]]); unfold has_blocks.
  - rewrite He. reflexivity.
  - rewrite He. unfold get_default. rewrite Hb. destruct bs; reflexivity.
Qed.

(** The files the report asks windows for. *)
Lemma select_asks (plan : list (string * list Block)) (entries : list json) :
  Forall2 (fun pb r => asks pb.1 pb.2 r) plan entries ->
  exists voice_files,
    (forall s, select entries s = Ok voice_files s)
    /\ Forall2 (fun pb r => asks pb.1 pb.2 r /\ pb.2 <> [])
         (List.filter (fun pb => match pb.2 with [] => false | _ => true end) plan)
         voice_files.
Proof.
  induction 1 as [|[p bs] r plan entries Hr _ (vf & Hsel & Hvf)].
  - exists []. split; [reflexivity | constructor].
  - exists (if match bs with [] => false | _ => true end then r :: vf else vf).
    split.
    + intros s. cbn [select]. unfold mbind, M_bind, bind.
      rewrite (has_blocks_asks p bs r s Hr), Hsel. reflexivity.
    + cbn [List.filter snd]. cbn [fst snd] in Hr. destruct bs as [|b bs]; [exact Hvf|].
      constructor; [|exact Hvf]. split; [exact Hr | discriminate].
Qed.

Lemma count_blocks_asks (plan : list (string * list Block)) (voice_files : list json) :
  Forall2 (fun pb r => asks pb.1 pb.2 r /\ pb.2 <> []) plan voice_files ->
  exists total, forall s, count_blocks voice_files s = Ok total s.
Proof.
  induction 1 as [|[p bs] r plan vf [(d & -> & _ & [[_ ->] | [_ Hb]]) Hne] _
                    (total & Ht)].
  - exists O. reflexivity.
  - contradiction.
  - exists (length (map block_json bs) + total)%nat. intros s.
    cbn [snd] in Hb. cbn [count_blocks subscript]. rewrite Hb.
    unfold mbind at 1, M_bind, bind. cbn [mret M_ret ret len].
    unfold mbind, M_bind, bind, mret, M_ret, ret. rewrite Ht. reflexivity.
Qed.



Lemma filter_windows_sub {A B} (plan : list (A * list B)) (pb : A * list B) :
  pb ∈ List.filter (fun pb => match pb.2 with [] => false | _ => true end) plan ->
  pb ∈ plan.
Proof.
  intros Hin. apply list_elem_of_In. apply list_elem_of_In, filter_In in Hin.
  apply Hin.
Qed.












(** ** [skip_existing] and files with several blocks *)

Lemma transcribe_block_once (W : World) (m : Model) (model_name : string)
    (output_dir : option string) (plan0 : list (string * list Block))
    (p : string) (bs0 : list Block) (b : Block) (s0 s : Sys) :
  (p, bs0) ∈ plan0 -> b ∈ bs0 ->
  one_section_each W model_name output_dir plan0 s0 s ->
  exists s',
    transcribe_block W m model_name output_dir true (JStr p) (block_json b) s
    = Ok tt s'
    /\ one_section_each W model_name output_dir plan0 s0 s'.
Proof.
  intros Hp Hb R. unfold transcribe_block, block_json.
  change ((v ← subscript "start"
                 (JObj [("start", JNum (blk_start b)); ("end", JNum (blk_end b))]);
           format_1f v) : M Q)
    with (mret (blk_start b) : M Q).
  change ((v ← subscript "end"
                 (JObj [("start", JNum (blk_start b)); ("end", JNum (blk_end b))]);
           format_1f v) : M Q)
    with (mret (blk_end b) : M Q).
  unfold try_except. unfold mbind, M_bind, bind, mret, M_ret, ret.
  destruct (run_transcriber W p (blk_start b) (blk_end b) (Some m) model_name
              output_dir true s) as [lines s1 | msg s1] eqn:E.
  - exists s1. split; [reflexivity|].
    destruct (run_transcriber_sharp _ _ _ _ _ _ _ _ _ _ _ E) as [K | [Hnone K]].
    + intros q. rewrite K. apply R.
    + specialize (Hnone eq_refl). rewrite Hnone in K. cbn [default app] in K.
      intros q. destruct (decide (q = out_path p model_name output_dir)) as [->|Hq].
      * right. destruct (R (out_path p model_name output_dir)) as [Rq | (_ & Rq)].
        -- split; [congruence|]. exists p, bs0, b, lines.
           rewrite K, lookup_insert_eq. auto.
        -- destruct Rq as (? & ? & ? & ? & _ & _ & _ & Rq). congruence.
      * rewrite K, lookup_insert_ne by congruence. apply R.
  - exists s1. split; [reflexivity|].
    intros q. rewrite (run_transcriber_raise_safe _ _ _ _ _ _ _ _ _ _ _ E). apply R.
Qed.

Lemma blocks_loop_once (W : World) (m : Model) (model_name : string)
    (output_dir : option string) (plan0 : list (string * list Block))
    (p : string) (bs0 : list Block) (s0 : Sys) (bs : list Block) :
  (p, bs0) ∈ plan0 -> (forall b, b ∈ bs -> b ∈ bs0) ->
  forall n s,
  one_section_each W model_name output_dir plan0 s0 s ->
  exists s',
    blocks_loop W m model_name output_dir true (JStr p) (map block_json bs) n s
    = Ok (n + length bs)%nat s'
    /\ one_section_each W model_name output_dir plan0 s0 s'.
Proof.
  intros Hp. induction bs as [|b bs IH]; intros Hsub n s R.
  - exists s. cbn. rewrite Nat.add_0_r. auto.
  - cbn [map blocks_loop length]. unfold mbind, M_bind, bind.
    destruct (transcribe_block_once W m model_name output_dir plan0 p bs0 b s0 s Hp
                (Hsub b ltac:(left)) R) as (s1 & E1 & R1).
    rewrite E1.
    destruct (IH (fun b' Hb' => Hsub b' ltac:(right; exact Hb')) (S n) s1 R1)
      as (s2 & E2 & R2).
    exists s2. split; [rewrite E2; f_equal; lia | exact R2].
Qed.

Lemma files_loop_once (W : World) (m : Model) (model_name : string)
    (output_dir : option string) (plan0 : list (string * list Block)) (s0 : Sys)
    (plan : list (string * list Block)) (voice_files : list json) :
  Forall2 (fun pb r => asks pb.1 pb.2 r /\ pb.2 <> []) plan voice_files ->
  (forall pb, pb ∈ plan -> pb ∈ plan0) ->
  forall n s,
  one_section_each W model_name output_dir plan0 s0 s ->
  exists blocks s',
    files_loop W m model_name output_dir true voice_files n s = Ok blocks s'
    /\ one_section_each W model_name output_dir plan0 s0 s'.
Proof.
  induction 1 as [|[p bs] r plan vf [(d & -> & Hf & [[_ ->] | [_ Hb]]) Hne] _ IH];
    intros Hsub n s R.
  - exists n, s. auto.
  - contradiction.
  - cbn [fst snd] in Hf, Hb. cbn [files_loop subscript]. rewrite Hf, Hb.
    unfold mbind, M_bind, bind, mret, M_ret, ret. cbn [iterate].
    unfold mret, M_ret, ret.
    destruct (blocks_loop_once W m model_name output_dir plan0 p bs s0 bs
                (Hsub (p, bs) ltac:(left)) (fun _ H => H) n s R) as (s1 & E1 & R1).
    rewrite E1.
    apply (IH (fun pb Hin => Hsub pb ltac:(right; exact Hin)) _ s1 R1).
Qed.

(** X26.  With [skip_existing], [run_batch_transcriber] gives a
    transcript one section at most: the first block of a file that gets
    transcribed creates the transcript, and from then on the test on the
    transcript skips the writing for the other blocks of the file (and of
    every file with the same transcript path).  So on a report whose
    entries ask for the windows of [plan], when the run is over every
    file on the disk is as it was before, or it is a transcript that did
    not exist and holds the section of a single window.  Transcripts that
    existed are left alone. *)
Theorem skip_existing_keeps_one_block (W : World)
    (report_path output_dir : option string) (model_name : string) (s : Sys)
    (d : dict) (entries : list json) (plan : list (string * list Block)) :
  fs s !! resolve W report_path = Some [Doc (JObj d)] ->
  get "results" d = Some (JArr entries) ->
  Forall2 (fun pb r => asks pb.1 pb.2 r) plan entries ->
  whisper_init W model_name = None ->
  exists summary s',
    run_batch_transcriber W report_path output_dir true model_name s = Ok summary s'
    /\ one_section_each W model_name output_dir plan s s'.
Proof.
  intros Hfs Hres Hplan Hinit.
  destruct (select_asks plan entries Hplan) as (vf & Hsel & Hvf).
  destruct (count_blocks_asks _ _ Hvf) as (total & Htotal).
  set (m := mkModel model_name (length (constructed s))).
  set (s0 := mkSys (fs s) (constructed s ++ [model_name]) (calls s) (stdout s)
                   (clock s)).
  destruct (files_loop_once W m model_name output_dir plan s _ _ Hvf
              (filter_windows_sub plan)
              O s0 (fun q => or_introl eq_refl))
    as (blocks & s' & E & R).
  exists (length vf, blocks), s'. split; [|exact R].
  unfold run_batch_transcriber. fold (resolve W report_path).
  unfold path_exists, json_load. unfold mbind at 1, M_bind, bind.
  rewrite Hfs. rewrite bool_decide_eq_true_2 by eauto. cbn [negb].
  unfold mbind at 1, M_bind, bind. rewrite Hfs.
  cbn [subscript]. rewrite Hres.
  unfold mbind, M_bind, bind, mret, M_ret, ret. cbn [iterate].
  unfold mret, M_ret, ret. rewrite Hsel, Htotal.
  unfold new_model. rewrite Hinit. fold m s0. rewrite E. reflexivity.
Qed.

Lemma skip_existing_keeps_one_block_witness :
  let W := Sample.world [] in
  let entry := JObj [("file", JStr "/d/a.mp4");
                     ("blocks", JArr [block_json (mkBlock 0 5);
                                      block_json (mkBlock 400 410)])] in
  let d := [("results", JArr [entry])] in
  let plan := [("/d/a.mp4", [mkBlock 0 5; mkBlock 400 410])] in
  let s := mkSys {[ "/r.json" := [Doc (JObj d)] ]} [] [] [] O in
  exists summary s',
    run_batch_transcriber W (Some "/r.json") None true "large-v1" s = Ok summary s'
    /\ one_section_each W "large-v1" None plan s s'.
Proof.
  intros W entry d plan s.
  apply (skip_existing_keeps_one_block W (Some "/r.json") None "large-v1" s d [entry]
           plan).
  - vm_compute. reflexivity.
  - reflexivity.
  - constructor; [|constructor].
    exists [("file", JStr "/d/a.mp4");
            ("blocks", JArr [block_json (mkBlock 0 5); block_json (mkBlock 400 410)])].
    split; [reflexivity|]. split; [reflexivity|]. right. split; reflexivity.
  - reflexivity.
Defined.

End BatchTranscribeFacts.

(* ===================================================================== *)
(** * Properties of the scan of one file *)
(* ===================================================================== *)

Module ScannerFacts.
Import Path Env Clusterer ClustererSpec ClustererFacts ClusterShape ClusterShapeFacts.
Import BatchShape Scanner.
Local Open Scope string_scope.

(** X27.  When the model loads and the backend returns segments with
    media timestamps (none is the sentinel [-1]), [run_scanner] always
    prints a verdict: the line "No speech detected" and nothing else when
    there is no segment, and otherwise one [BLOCK] line per block and no
    other line - one more line than there are gaps between consecutive
    segments that the code finds wider than the threshold, the gap being
    the double that [segment.start - last_end] evaluates to. *)
Theorem scanner_prints_a_verdict (W : World) (file_path : string) (use_vad : bool)
    (s : Sys) (segments : list TextSegment) (duration : Q) :
  whisper_init W "tiny.en" = None ->
  whisper_transcribe W (mkModel "tiny.en" (length (constructed s))) file_path
    (scan_opts use_vad) = inr (segments, duration) ->
  Forall no_sentinel (map ts_span segments) ->
  let blocks := (cluster_segments (map ts_span segments) default_gap_threshold).1 in
  exists s',
    run_scanner W file_path use_vad s
    = Ok (match segments with
          | [] => [no_speech_line]
          | _ :: _ => map (block_line W) blocks
          end) s'
    /\ length blocks
       = match segments with
         | [] => O
         | _ :: _ => S (wide_gaps default_gap_threshold (map ts_span segments))
         end.
Proof.
  intros Hinit Hrun Hns blocks. unfold run_scanner, new_model, transcribe.
  unfold mbind, M_bind, bind, mret, M_ret, ret. rewrite Hinit.
  cbn [fs constructed calls stdout clock]. fold (scan_opts use_vad). rewrite Hrun.
  pose proof (cluster_count (map ts_span segments) default_gap_threshold) as Hn.
  subst blocks.
  destruct (cluster_segments (map ts_span segments) default_gap_threshold)
    as [bs n] eqn:E.
  cbn [fst snd] in *. rewrite length_map in Hn. subst n.
  destruct segments as [|seg rest].
  - cbn in E. injection E as <-. eexists. split; reflexivity.
  - cbn [length Nat.eqb]. rewrite app_nil_r. eexists. split; [reflexivity|].
    change bs with ((bs, length (seg :: rest)).1). rewrite <- E.
    apply (cluster_length default_gap_threshold (ts_span seg) (map ts_span rest)).
    exact Hns.
Qed.

Lemma scanner_prints_a_verdict_witness :
  let heard := [mkText (mkSegment 0 5) "one"; mkText (mkSegment 10 15) "two";
                mkText (mkSegment 400 410) "three"] in
  let W := Sample.hearing (Sample.world []) heard in
  exists s',
    run_scanner W "/d/a.mp4" true Sample.blank
    = Ok (map (block_line W) [mkBlock 0 15; mkBlock 400 410]) s'
    /\ wide_gaps default_gap_threshold (map ts_span heard) = 1%nat.
Proof.
  intros heard W.
  destruct (scanner_prints_a_verdict W "/d/a.mp4" true Sample.blank heard 0)
    as (s' & E & L).
  - reflexivity.
  - reflexivity.
  - repeat constructor; intros H; discriminate H.
  - exists s'. split; [exact E | reflexivity].
Defined.

(** A segment that starts at the sentinel value is no block and is
    counted all the same: the scan prints no verdict. *)
Example scanner_silent_on_sentinel :
  let W := Sample.hearing (Sample.world []) [mkText (mkSegment (-1) (-1)) "x"] in
  exists s', run_scanner W "/d/a.mp4" true Sample.blank = Ok [] s'.
Proof. eexists. vm_compute. reflexivity. Qed.

End ScannerFacts.
